(** * TituloGo: the title normalisation and validation pipeline

    A shallow embedding of [appClaudelast.py]: the text normalisers, the
    taxonomy matcher [find_pattern_row], the quick validator, the wrapper of
    the correction agent and the batch coordinator with the loop of its
    caller.

    Text is a list of Unicode code points.  The character tables (space,
    case, word and digit classes, case mappings) are CPython's over
    U+0000..U+00FF, the alphabet of the program's constants and of the
    Spanish titles it handles; on texts over that alphabet the functions
    below compute what the Python functions compute.  The replacement
    templates of [re.sub] are compiled as CPython 3.11 compiles them.
    Decoded JSON is an inductive type, a dict a finite map; a Python
    exception is a value of [res].  The two calls of the language model are
    inputs: each is given by what its [try] block comes to, the exception
    raised or the value decoded from the reply. *)

From Stdlib Require Import NArith ZArith QArith Ascii String Lia.
From stdpp Require Import base option list gmap.

Set Warnings "-register-all".
Local Open Scope N_scope.

(** ** Text and the Python string primitives the program uses *)

Definition char := N.
Definition text := list char.

(** An ASCII literal as text. *)
Definition txt (s : string) : text :=
  List.map N_of_ascii (list_ascii_of_string s).
Arguments txt : simpl never.

Module Py.

Definition in_range (lo hi c : N) : bool := (lo <=? c) && (c <=? hi).

(** [str.isspace] for one character, also the separator of [str.split()]
    and the regular expression class [\s]. *)
Definition is_space (c : char) : bool :=
  in_range 9 13 c || in_range 28 32 c || (c =? 133) || (c =? 160).

Definition is_upper_char (c : char) : bool :=
  in_range 65 90 c || in_range 192 214 c || in_range 216 222 c.

Definition is_lower_char (c : char) : bool :=
  in_range 97 122 c || (c =? 170) || (c =? 181) || (c =? 186)
  || in_range 223 246 c || in_range 248 255 c.

(** [\d] *)
Definition is_digit (c : char) : bool := in_range 48 57 c.

(** [\w]: [str.isalnum] or an underscore. *)
Definition is_word (c : char) : bool :=
  is_digit c || is_upper_char c || is_lower_char c || (c =? 95)
  || (c =? 178) || (c =? 179) || (c =? 185) || in_range 188 190 c.

Definition lower_char (c : char) : char :=
  if is_upper_char c then c + 32 else c.

Definition upper_char (c : char) : text :=
  if in_range 97 122 c || in_range 224 246 c || in_range 248 254 c
  then [c - 32]
  else if c =? 181 then [924]
  else if c =? 223 then [83; 83]
  else if c =? 255 then [376]
  else [c].

Definition lower (s : text) : text := List.map lower_char s.
Definition upper (s : text) : text := List.flat_map upper_char s.

(** [str.isupper]: no lower-case character and at least one upper-case. *)
Definition isupper (s : text) : bool :=
  forallb (fun c => negb (is_lower_char c)) s && existsb is_upper_char s.

Definition text_eqb (a b : text) : bool := bool_decide (a = b).

(** [s.lstrip(chars)] and [s.rstrip(chars)] for a set of characters. *)
Fixpoint lstrip_by (p : char -> bool) (s : text) : text :=
  match s with
  | c :: s' => if p c then lstrip_by p s' else s
  | [] => []
  end.

Definition rstrip_by (p : char -> bool) (s : text) : text :=
  reverse (lstrip_by p (reverse s)).

Definition strip (s : text) : text := rstrip_by is_space (lstrip_by is_space s).

Definition cons_head (c : char) (ws : list text) : list text :=
  match ws with
  | w :: ws' => (c :: w) :: ws'
  | [] => [[c]]
  end.

(** [s.split()]: the maximal runs of non-space characters. *)
Fixpoint split (s : text) : list text :=
  match s with
  | [] => []
  | c :: s' =>
      if is_space c then split s'
      else match s' with
           | d :: _ => if is_space d then [c] :: split s'
                       else cons_head c (split s')
           | [] => [[c]]
           end
  end.

(** [sep.join(ws)] *)
Fixpoint join (sep : text) (ws : list text) : text :=
  match ws with
  | [] => []
  | [w] => w
  | w :: ws' => w ++ sep ++ join sep ws'
  end.

(** [" ".join(s.split())] *)
Definition collapse (s : text) : text := join [32] (split s).

Fixpoint starts_with (p s : text) : bool :=
  match p, s with
  | [], _ => true
  | a :: p', b :: s' => (a =? b) && starts_with p' s'
  | _ :: _, [] => false
  end.

(** [needle in hay] *)
Fixpoint contains (needle hay : text) : bool :=
  starts_with needle hay ||
  match hay with
  | [] => false
  | _ :: hay' => contains needle hay'
  end.

(** [s.replace(old, new)] for a non-empty [old]: leftmost occurrences,
    not overlapping; [skip] counts the characters of the occurrence just
    replaced that are still to be passed over. *)
Fixpoint replace_from (old new s : text) (skip : nat) : text :=
  match s with
  | [] => []
  | c :: s' =>
      match skip with
      | S n => replace_from old new s' n
      | O => if starts_with old s
             then new ++ replace_from old new s' (length old - 1)%nat
             else c :: replace_from old new s' 0
      end
  end.

Definition replace (old new s : text) : text :=
  match old with
  | [] => new ++ List.flat_map (fun c => c :: new) s
  | _ => replace_from old new s 0
  end.

End Py.

(** ** Exceptions

    A computation that can raise returns a [res]: its value, or the
    exception. *)

Inductive exn :=
| TypeError
| AttributeError
| ValueError
| IndexError
| ReError                  (* re.error *)
| CallError (msg : text).

Inductive res (A : Type) :=
| Ok (a : A)
| Raise (e : exn).
Arguments Ok {A} a.
Arguments Raise {A} e.

#[global] Instance res_ret : MRet res := fun _ a => Ok a.
#[global] Instance res_bind : MBind res := fun _ _ f m =>
  match m with
  | Ok a => f a
  | Raise e => Raise e
  end.
#[global] Instance res_fmap : FMap res := fun _ _ f m =>
  match m with
  | Ok a => Ok (f a)
  | Raise e => Raise e
  end.

(** ** Regular expressions

    The fragment of [re] the program's patterns are written in, with
    CPython's backtracking order: a greedy star and a greedy option try the
    longer match first, an alternation tries its branches left to right. *)

Module Re.

Inductive cset :=
| CSpace                 (* \s *)
| CDigit                 (* \d *)
| COneOf (l : text)      (* [abc] *)
| CNoneOf (l : text).    (* [^abc] *)

Inductive regex :=
| Eps
| Lit (c : char)
| Set_ (k : cset)
| Star (k : cset)
| Opt (r : regex)
| Cat (r1 r2 : regex)
| Alt (r1 r2 : regex)
| Bound                  (* \b *)
| End_.                  (* $ *)

Definition Plus (k : cset) : regex := Cat (Set_ k) (Star k).

(** A literal string, as [re.escape] produces. *)
Fixpoint lits (s : text) : regex :=
  match s with
  | [] => Eps
  | c :: s' => Cat (Lit c) (lits s')
  end.

Fixpoint alts (rs : list regex) : regex :=
  match rs with
  | [] => Eps
  | [r] => r
  | r :: rs' => Alt r (alts rs')
  end.

Fixpoint cats (rs : list regex) : regex :=
  match rs with
  | [] => Eps
  | [r] => r
  | r :: rs' => Cat r (cats rs')
  end.

(** With [re.IGNORECASE] ([ic]) a character is compared through its
    lower-case form. *)
Definition eq_char (ic : bool) (c x : char) : bool :=
  if ic then Py.lower_char x =? Py.lower_char c else x =? c.

Definition in_cset (ic : bool) (k : cset) (x : char) : bool :=
  match k with
  | CSpace => Py.is_space x
  | CDigit => Py.is_digit x
  | COneOf l => existsb (fun c => eq_char ic c x) l
  | CNoneOf l => negb (existsb (fun c => eq_char ic c x) l)
  end.

Definition word_before (prev : option char) : bool :=
  match prev with Some c => Py.is_word c | None => false end.

Definition word_after (s : text) : bool :=
  match s with c :: _ => Py.is_word c | [] => false end.

Section Matcher.
Variable ic : bool.
Context {A : Type}.

(** The continuation receives the character before the current position
    and the rest of the subject. *)
Definition cont := option char -> text -> option A.

Fixpoint star (k : cset) (prev : option char) (s : text) (kont : cont)
  : option A :=
  match s with
  | c :: s' =>
      if in_cset ic k c
      then match star k (Some c) s' kont with
           | Some a => Some a
           | None => kont prev s
           end
      else kont prev s
  | [] => kont prev s
  end.

Fixpoint run (r : regex) (prev : option char) (s : text) (kont : cont)
  : option A :=
  match r with
  | Eps => kont prev s
  | Lit c =>
      match s with
      | x :: s' => if eq_char ic c x then kont (Some x) s' else None
      | [] => None
      end
  | Set_ k =>
      match s with
      | x :: s' => if in_cset ic k x then kont (Some x) s' else None
      | [] => None
      end
  | Star k => star k prev s kont
  | Opt r1 =>
      match run r1 prev s kont with
      | Some a => Some a
      | None => kont prev s
      end
  | Cat r1 r2 => run r1 prev s (fun p s' => run r2 p s' kont)
  | Alt r1 r2 =>
      match run r1 prev s kont with
      | Some a => Some a
      | None => run r2 prev s kont
      end
  | Bound =>
      if xorb (word_before prev) (word_after s) then kont prev s else None
  | End_ =>
      match s with
      | [] => kont prev s
      | [10] => kont prev s
      | _ => None
      end
  end.
End Matcher.

(** The match of [r] that starts at the current position, as the text
    left after it. *)
Definition match_at (ic : bool) (r : regex) (prev : option char) (s : text)
  : option text :=
  run ic r prev s (fun _ rest => Some rest).

(** [re.sub(r, repl, s)] for a replacement without backslash.  [skip]
    counts the characters of the current match still to be dropped.  None
    of the program's patterns matches the empty string; an empty match is
    replaced and the scan moves on by one character. *)
Fixpoint sub_from (ic : bool) (r : regex) (repl : text)
    (prev : option char) (s : text) (skip : nat) : text :=
  match s with
  | [] =>
      match skip with
      | O => match match_at ic r prev [] with
             | Some _ => repl
             | None => []
             end
      | S _ => []
      end
  | c :: s' =>
      match skip with
      | S n => sub_from ic r repl (Some c) s' n
      | O =>
          match match_at ic r prev s with
          | Some rest =>
              match (length s - length rest)%nat with
              | O => repl ++ c :: sub_from ic r repl (Some c) s' 0
              | S n => repl ++ sub_from ic r repl (Some c) s' n
              end
          | None => c :: sub_from ic r repl (Some c) s' 0
          end
      end
  end.

Definition sub (ic : bool) (r : regex) (repl s : text) : text :=
  sub_from ic r repl None s 0.

(** [re.sub(r, repl, s)] for a compiled template: [repl] gives, for the
    text of a match, what is put in its place. *)
Fixpoint sub_with_from (ic : bool) (r : regex) (repl : text -> text)
    (prev : option char) (s : text) (skip : nat) : text :=
  match s with
  | [] =>
      match skip with
      | O => match match_at ic r prev [] with
             | Some _ => repl []
             | None => []
             end
      | S _ => []
      end
  | c :: s' =>
      match skip with
      | S n => sub_with_from ic r repl (Some c) s' n
      | O =>
          match match_at ic r prev s with
          | Some rest =>
              match (length s - length rest)%nat with
              | O => repl [] ++ c :: sub_with_from ic r repl (Some c) s' 0
              | S n => repl (take (S n) s) ++ sub_with_from ic r repl (Some c) s' n
              end
          | None => c :: sub_with_from ic r repl (Some c) s' 0
          end
      end
  end.

Definition sub_with (ic : bool) (r : regex) (repl : text -> text) (s : text)
  : text :=
  sub_with_from ic r repl None s 0.

(** [re.findall(r, s)] for a pattern without capturing group. *)
Fixpoint findall_from (ic : bool) (r : regex)
    (prev : option char) (s : text) (skip : nat) : list text :=
  match s with
  | [] =>
      match skip with
      | O => match match_at ic r prev [] with
             | Some _ => [[]]
             | None => []
             end
      | S _ => []
      end
  | c :: s' =>
      match skip with
      | S n => findall_from ic r (Some c) s' n
      | O =>
          match match_at ic r prev s with
          | Some rest =>
              let n := (length s - length rest)%nat in
              take n s :: findall_from ic r (Some c) s' (n - 1)%nat
          | None => findall_from ic r (Some c) s' 0
          end
      end
  end.

Definition findall (ic : bool) (r : regex) (s : text) : list text :=
  findall_from ic r None s 0.

(** [re.search(r, s) is not None] *)
Fixpoint search_from (ic : bool) (r : regex) (prev : option char) (s : text)
  : bool :=
  match match_at ic r prev s with
  | Some _ => true
  | None =>
      match s with
      | [] => false
      | c :: s' => search_from ic r (Some c) s'
      end
  end.

Definition search (ic : bool) (r : regex) (s : text) : bool :=
  search_from ic r None s.

End Re.

(** ** Replacement templates

    [pattern.sub(repl, s)] compiles [repl] before it looks at [s]: a
    replacement without backslash stands for itself; in one with
    backslashes the escapes and the group references are read, and a bad
    one raises.  This is [parse_template] of CPython 3.11's [re], for a
    pattern with one group, unnamed. *)

Module Template.

(** The source is read by tokens: a character, or a backslash with the
    character after it. *)
Inductive token :=
| TChar (c : char)
| TEsc (c : char).

(** The tokens of a source, and whether a backslash is left alone at its
    end. *)
Fixpoint tokens (s : text) : list token * bool :=
  match s with
  | [] => ([], false)
  | c :: s' =>
      if c =? 92 then
        match s' with
        | [] => ([], true)
        | e :: s'' => let '(ts, dangling) := tokens s'' in (TEsc e :: ts, dangling)
        end
      else let '(ts, dangling) := tokens s' in (TChar c :: ts, dangling)
  end.

Definition is_octdigit (c : char) : bool := Py.in_range 48 55 c.

Definition is_ascii_letter (c : char) : bool :=
  Py.in_range 65 90 c || Py.in_range 97 122 c.

(** [ESCAPES] *)
Definition escape (c : char) : option char :=
  if c =? 97 then Some 7          (* \a *)
  else if c =? 98 then Some 8     (* \b *)
  else if c =? 102 then Some 12   (* \f *)
  else if c =? 110 then Some 10   (* \n *)
  else if c =? 114 then Some 13   (* \r *)
  else if c =? 116 then Some 9    (* \t *)
  else if c =? 118 then Some 11   (* \v *)
  else if c =? 92 then Some 92
  else None.

(** [str.isidentifier] *)
Definition xid_start (c : char) : bool :=
  is_ascii_letter c || (c =? 95) || (c =? 170) || (c =? 181) || (c =? 186)
  || Py.in_range 192 214 c || Py.in_range 216 246 c || Py.in_range 248 255 c.

Definition xid_continue (c : char) : bool :=
  xid_start c || Py.is_digit c || (c =? 183).

Definition isidentifier (s : text) : bool :=
  match s with
  | [] => false
  | c :: s' => xid_start c && forallb xid_continue s'
  end.

(** The white space [int] passes over. *)
Definition int_space (c : char) : bool :=
  Py.in_range 9 13 c || (c =? 32) || (c =? 133) || (c =? 160).

(** Decimal digits with single underscores between them: their value and
    their number. *)
Fixpoint digits (s : text) (after_digit : bool) (value : N) (count : nat)
  : option (N * nat) :=
  match s with
  | [] => if after_digit then Some (value, count) else None
  | c :: s' =>
      if Py.is_digit c then digits s' true (10 * value + (c - 48)) (S count)
      else if (c =? 95) && after_digit then digits s' false value count
      else None
  end.

(** The group a name that is not an identifier refers to: [int(name)],
    which reads at most 4300 digits, when it is 0 or 1, the groups of the
    pattern. *)
Definition group_of_name (name : text) : option nat :=
  let s := Py.rstrip_by int_space (Py.lstrip_by int_space name) in
  let '(negative, s) :=
    match s with
    | c :: s' =>
        if c =? 43 then (false, s') else if c =? 45 then (true, s') else (false, s)
    | [] => (false, s)
    end in
  match digits s false 0 0 with
  | Some (value, count) =>
      if (4300 <? count)%nat then None
      else if value =? 0 then Some 0%nat
      else if (value =? 1) && negb negative then Some 1%nat
      else None
  | None => None
  end.

(** A compiled template: literal characters and group references. *)
Inductive piece :=
| PChar (c : char)
| PGroup (index : nat).

(** Where the parser stands between two tokens. *)
Inductive state :=
| Normal
| WantLt                      (* after \g *)
| Name (name : text)          (* in \g<name> *)
| Oct0 (value : N) (more : nat)   (* after \0, with octal digits to come *)
| Dig (c : char)              (* after \c, c a digit from 1 to 9 *)
| Dig2 (c d : char).          (* after \cd, two digits *)

(** Taking a token loads the next one: the backslash left alone at the end
    raises when the last token is taken. *)
Definition consume (last : bool) : res unit :=
  if last then Raise ReError else Ok tt.

(** [addgroup] for a single digit: only group 1 exists. *)
Definition group_ref (c : char) : res unit :=
  if c =? 49 then Ok tt else Raise ReError.

(** A token read where no escape is pending. *)
Definition normal (t : token) (last : bool) : res (list piece * state) :=
  _ ← consume last;
  match t with
  | TChar c => Ok ([PChar c], Normal)
  | TEsc c =>
      if c =? 103 then Ok ([], WantLt)
      else if c =? 48 then Ok ([], Oct0 0 2)
      else if Py.is_digit c then Ok ([], Dig c)
      else match escape c with
           | Some x => Ok ([PChar x], Normal)
           | None =>
               if is_ascii_letter c then Raise ReError
               else Ok ([PChar 92; PChar c], Normal)
           end
  end.

Definition step (st : state) (t : token) (last : bool)
  : res (list piece * state) :=
  match st with
  | Normal => normal t last
  | WantLt =>
      match t with
      | TChar c =>
          if c =? 60 then _ ← consume last; Ok ([], Name [])
          else Raise ReError
      | TEsc _ => Raise ReError
      end
  | Name name =>
      _ ← consume last;
      match t with
      | TChar c =>
          if c =? 62 then
            match name with
            | [] => Raise ReError
            | _ =>
                if isidentifier name then Raise IndexError
                else match group_of_name name with
                     | Some index => Ok ([PGroup index], Normal)
                     | None => Raise ReError
                     end
            end
          else Ok ([], Name (name ++ [c]))
      | TEsc c => Ok ([], Name (name ++ [92; c]))
      end
  | Oct0 value more =>
      let literal :=
        '(ps, st') ← normal t last; Ok (PChar value :: ps, st') in
      match more, t with
      | S more', TChar d =>
          if is_octdigit d
          then _ ← consume last; Ok ([], Oct0 (8 * value + (d - 48)) more')
          else literal
      | _, _ => literal
      end
  | Dig c =>
      let reference :=
        _ ← group_ref c;
        '(ps, st') ← normal t last;
        Ok (PGroup 1 :: ps, st') in
      match t with
      | TChar d =>
          if Py.is_digit d then _ ← consume last; Ok ([], Dig2 c d)
          else reference
      | TEsc _ => reference
      end
  | Dig2 c d =>
      match t with
      | TChar e =>
          if is_octdigit c && is_octdigit d && is_octdigit e then
            _ ← consume last;
            let value := 64 * (c - 48) + 8 * (d - 48) + (e - 48) in
            if 255 <? value then Raise ReError
            else Ok ([PChar value], Normal)
          else Raise ReError
      | TEsc _ => Raise ReError
      end
  end.

(** The end of the source. *)
Definition finish (st : state) : res (list piece) :=
  match st with
  | Normal => Ok []
  | WantLt => Raise ReError
  | Name _ => Raise ReError
  | Oct0 value _ => Ok [PChar value]
  | Dig c => _ ← group_ref c; Ok [PGroup 1]
  | Dig2 _ _ => Raise ReError
  end.

Fixpoint go (st : state) (ts : list token) (dangling : bool)
  : res (list piece) :=
  match ts with
  | [] => finish st
  | t :: rest =>
      let last := match rest with [] => dangling | _ => false end in
      '(ps, st') ← step st t last;
      pieces ← go st' rest dangling;
      Ok (ps ++ pieces)
  end.

Definition parse_template (source : text) : res (list piece) :=
  let '(ts, dangling) := tokens source in
  _ ← consume (match ts with [] => dangling | _ => false end);
  go Normal ts dangling.

(** What a template puts for a match: [whole] is the text of the match,
    [group1] the text of its group, empty when the group took no part. *)
Definition expand (template : list piece) (whole group1 : text) : text :=
  List.flat_map
    (fun p => match p with
              | PChar c => [c]
              | PGroup O => whole
              | PGroup (S _) => group1
              end)
    template.

End Template.

(** ** The text normalisers *)

(** The transformation memory: a dict from term to replacement, iterated in
    insertion order. *)
Definition memory := list (text * text).

(** [rf"\b{re.escape(base)}(s)?\b"] *)
Definition transformation_pattern (base : text) : Re.regex :=
  Re.cats [Re.Bound; Re.lits base; Re.Opt (Re.Lit 115); Re.Bound].

(** One round of the loop of [apply_transformations].  [pattern.sub]
    compiles the replacement, which can raise, whether the pattern matches
    or not; group 1 of a match is what it holds after the term, the plural
    [s] or nothing. *)
Definition apply_one (out : text) (entry : text * text) : res text :=
  let base := Py.strip entry.1 in
  match base with
  | [] => Ok out
  | _ =>
      template ← Template.parse_template entry.2;
      Ok (Re.sub_with true (transformation_pattern base)
            (fun m => Template.expand template m (drop (length base) m)) out)
  end.

Fixpoint apply_all (out : text) (transformations : memory) : res text :=
  match transformations with
  | [] => Ok out
  | entry :: rest => out' ← apply_one out entry; apply_all out' rest
  end.

Definition apply_transformations (t : text) (transformations : memory)
  : res text :=
  match t with
  | [] => Ok t
  | _ => out ← apply_all t transformations; Ok (Py.collapse out)
  end.

Definition ACRONYMS_OK : list text :=
  [ txt "PVC"; txt "CPVC"; txt "AC"; txt "DC"; txt "LED"; txt "RGB";
    txt "IP"; txt "UV"; txt "USB"; txt "HDMI";
    txt "mm"; txt "cm"; txt "m"; txt "plg" ].

Definition _cap_first (word : text) : text :=
  Py.upper (take 1 word) ++ Py.lower (drop 1 word).

(** The characters of [".,;:()[]{}-/"]. *)
Definition is_punct (c : char) : bool :=
  existsb (N.eqb c) (txt ".,;:()[]{}-/").

Definition in_list (w : text) (l : list text) : bool :=
  existsb (Py.text_eqb w) l.

(** One round of the loop of [de_shout], on the token [w]. *)
Definition de_shout_token (w : text) : text :=
  let stripped_left := Py.lstrip_by is_punct w in
  let stripped := Py.rstrip_by is_punct stripped_left in
  let bare := stripped in
  if (1 <? length bare)%nat && Py.isupper bare && negb (in_list bare ACRONYMS_OK)
  then
    let prefix_len := (length w - length stripped_left)%nat in
    let suffix_len := (length stripped - length bare)%nat in
    let prefix := take prefix_len w in
    let suffix :=
      if (0 <? suffix_len)%nat then drop (length w - suffix_len)%nat w else [] in
    let core := _cap_first bare in
    prefix ++ core ++ suffix
  else w.

Definition de_shout (t : text) : text :=
  Py.join [32] (List.map de_shout_token (Py.split t)).

Definition remove_brand_occurrences (t brand : text) : text :=
  match brand, t with
  | [], _ => t
  | _, [] => t
  | _, _ =>
      let t1 := Py.replace brand [] t in
      let t2 := Py.replace (Py.upper brand) [] t1 in
      let t3 := Py.replace (Py.lower brand) [] t2 in
      let t4 := Py.replace (_cap_first (Py.lower brand)) [] t3 in
      Py.strip (Py.collapse t4)
  end.

Definition a_acute : char := 225.
Definition e_acute : char := 233.
Definition i_acute : char := 237.
Definition o_acute : char := 243.

Definition FORBIDDEN_TECH_TERMS : list text :=
  [ txt "penetrante";
    txt "hidr" ++ a_acute :: txt "ulico"; txt "hidraulico";
    txt "neum" ++ a_acute :: txt "tico"; txt "neumatico";
    txt "amortiguador";
    txt "diel" ++ e_acute :: txt "ctrico"; txt "dielektrico";
    txt "ep" ++ o_acute :: txt "xico"; txt "epoxico";
    txt "ep" ++ o_acute :: txt "xica"; txt "epoxica";
    txt "antigripante";
    txt "diel" ++ e_acute :: txt "ctrica"; txt "dielektrica" ].

(** [rf"\b{re.escape(term)}\b"] *)
Definition term_pattern (term : text) : Re.regex :=
  Re.cats [Re.Bound; Re.lits term; Re.Bound].

Definition remove_forbidden_terms (t : text) : text :=
  match t with
  | [] => t
  | _ =>
      Py.collapse
        (fold_left (fun out term => Re.sub true (term_pattern term) [] out)
           FORBIDDEN_TECH_TERMS t)
  end.

(** [r"\s*para\s+<word>$"], the word given with its accented letter as a
    two-letter class. *)
Definition para_tail (w : list Re.regex) : Re.regex :=
  Re.cats ([Re.Star Re.CSpace; Re.lits (txt "para"); Re.Plus Re.CSpace]
           ++ w ++ [Re.End_]).

Definition GENERIC_PARA_PATTERNS : list Re.regex :=
  [ para_tail [Re.lits (txt "plomer"); Re.Set_ (Re.COneOf [105; i_acute]);
               Re.lits (txt "a")];
    para_tail [Re.lits (txt "tuber"); Re.Set_ (Re.COneOf [105; i_acute]);
               Re.lits (txt "a")];
    para_tail [Re.lits (txt "ferreter"); Re.Set_ (Re.COneOf [105; i_acute]);
               Re.lits (txt "a")];
    para_tail [Re.lits (txt "construcci"); Re.Set_ (Re.COneOf [111; o_acute]);
               Re.lits (txt "n")];
    para_tail [Re.lits (txt "el"); Re.Plus Re.CSpace; Re.lits (txt "hogar")];
    para_tail [Re.lits (txt "hogar")] ].

Definition remove_generic_para_phrases (t : text) : text :=
  match t with
  | [] => t
  | _ =>
      Py.collapse
        (fold_left (fun out pattern => Re.sub true pattern [] out)
           GENERIC_PARA_PATTERNS t)
  end.

(** The chain applied to each title of a result, steps 1) to 6) of
    [process_batch_with_validation]. *)
Definition normalize_title (t : text) (transformations : memory) (brand : text)
  : res text :=
  t ← apply_transformations t transformations;
  let t := remove_brand_occurrences t brand in
  let t := de_shout t in
  let t := remove_forbidden_terms t in
  let t := remove_generic_para_phrases t in
  Ok (Py.collapse t).

(** ** The taxonomy matcher *)

(** A row of the nomenclature sheet, its cells as [astype(str)] gives them. *)
Record rule := {
  Departamento : text;
  Familia : text;
  Categoria : text;
  Nomenclatura_sugerida : text;
  Ejemplo_aplicado : text
}.

(** [r"\s*\([^)]*\)"] *)
Definition paren_code : Re.regex :=
  Re.cats [Re.Star Re.CSpace; Re.Lit 40; Re.Star (Re.CNoneOf [41]); Re.Lit 41].

Definition normalize_tax_value (value : option text) : text :=
  match value with
  | None => []
  | Some v => Py.upper (Py.strip (Re.sub false paren_code [] v))
  end.

(** [Series.idxmax]: the position of the first occurrence of the maximum. *)
Definition idxmax (scores : list nat) : option nat :=
  fst <$> list_find (fun x => x = max_list scores) scores.

Definition words (s : text) : gset text := list_to_set (Py.split s).

(** The inner function [score] of [find_pattern_row]. *)
Definition score (cat_words : gset text) (cat_val : text) : nat :=
  size (cat_words ∩ words (normalize_tax_value (Some cat_val))).

Definition is_candidate (dep_norm fam_norm : text) (r : rule) : bool :=
  Py.text_eqb (normalize_tax_value (Some (Departamento r))) dep_norm
  && Py.text_eqb (normalize_tax_value (Some (Familia r))) fam_norm.

Definition has_cat (cat_norm : text) (r : rule) : bool :=
  Py.text_eqb (normalize_tax_value (Some (Categoria r))) cat_norm.

Definition find_pattern_row (nomenclature_df : list rule)
    (dept fam cat : option text) : option rule :=
  let dep_norm := normalize_tax_value dept in
  let fam_norm := normalize_tax_value fam in
  let cat_norm := normalize_tax_value cat in
  let candidates := List.filter (is_candidate dep_norm fam_norm) nomenclature_df in
  match candidates with
  | [] => None
  | first :: _ =>
      match List.filter (has_cat cat_norm) candidates with
      | r :: _ => Some r
      | [] =>
          match Py.split cat_norm with
          | [] => Some first
          | _ =>
              let cat_words := words cat_norm in
              let scores := (fun r => score cat_words (Categoria r)) <$> candidates in
              best_idx ← idxmax scores;
              candidates !! best_idx
          end
      end
  end.

(** ** JSON values *)

(** A value decoded by [json.loads]; of a number only the truth value is
    ever looked at, an integer stands for it. *)
Inductive json :=
| JNull
| JBool (b : bool)
| JNum (n : Z)
| JStr (s : text)
| JArr (l : list json)
| JObj (d : gmap text json).

Abbreviation dict := (gmap text json).

(** Python's truth value of a decoded JSON value. *)
Definition truthy (v : json) : bool :=
  match v with
  | JNull => false
  | JBool b => b
  | JNum n => negb (n =? 0)%Z
  | JStr s => match s with [] => false | _ => true end
  | JArr l => match l with [] => false | _ => true end
  | JObj d => negb (bool_decide (d = ∅))
  end.

(** What the [try] block around a call of the engine comes to: the
    exception it raised, with its [str(e)], or the value [json.loads]
    decoded from the reply. *)
Inductive reply :=
| Failed (msg : text)
| Parsed (v : json).

(** ** The quick validator *)

Definition problematic_para : list text :=
  [ txt "para agua sucia"; txt "para agua limpia";
    txt "para sellado de roscas"; txt "para sellado";
    txt "para drenajes y tuber" ++ i_acute :: txt "as"; txt "para drenajes";
    txt "para construcci" ++ o_acute :: txt "n";
    txt "para plomer" ++ i_acute :: txt "a";
    txt "para tuber" ++ i_acute :: txt "a";
    txt "para ferreter" ++ i_acute :: txt "a" ].

Definition abbrev_map : list (text * list text) :=
  [ (txt "para agua sucia", [txt "A.SUCIA"; txt "A SUCIA"]);
    (txt "para agua limpia", [txt "A.LIMP"; txt "A LIMP"]);
    (txt "para sellado", [txt "P/SELLADO"; txt "P SELLADO"]) ].

Definition abbrevs_of (phrase : text) : option (list text) :=
  snd <$> List.find (fun e => Py.text_eqb e.1 phrase) abbrev_map.

(** Rule 1, for one phrase of [problematic_para]. *)
Definition para_issues (original_title generated_title phrase : text) : list text :=
  if Py.contains phrase (Py.lower generated_title) then
    let orig_upper := Py.upper original_title in
    let generic :=
      [txt "Added generic phrase not in original: '" ++ phrase ++ txt "'"] in
    if Py.contains phrase (Py.lower original_title) then []
    else match abbrevs_of phrase with
         | Some abbrevs =>
             match List.find (fun abbrev => Py.contains abbrev orig_upper) abbrevs with
             | Some abbrev =>
                 [txt "Incorrectly added 'para' with abbreviation: '" ++ phrase
                  ++ txt "' (original has '" ++ abbrev ++ txt "')"]
             | None => generic
             end
         | None => generic
         end
  else [].

(** Rule 2, for one term of [FORBIDDEN_TECH_TERMS]. *)
Definition term_issues (original_title generated_title term : text) : list text :=
  if Py.contains (Py.lower term) (Py.lower generated_title)
     && negb (Py.contains (Py.lower term) (Py.lower original_title))
  then [txt "Invented technical term: '" ++ term ++ txt "'"]
  else [].

(** [r'\d+(?:/\d+)?(?:\s*(?:mm|cm|m|plg|pulgada|Hp|HP|L/min|W))'] *)
Definition measurement : Re.regex :=
  Re.cats
    [ Re.Plus Re.CDigit;
      Re.Opt (Re.Cat (Re.Lit 47) (Re.Plus Re.CDigit));
      Re.Star Re.CSpace;
      Re.alts (List.map (fun u => Re.lits (txt u))
                 ["mm"; "cm"; "m"; "plg"; "pulgada"; "Hp"; "HP"; "L/min"; "W"]%string) ].

Definition hp_normalized (s : text) : text :=
  Py.replace (txt "hp") (txt "HP") (Py.replace (txt "Hp") (txt "HP") s).

(** Rule 3, for one measurement found in the original title. *)
Definition measure_issues (generated_title measure : text) : list text :=
  if Py.contains (hp_normalized measure) (hp_normalized generated_title) then []
  else [txt "Missing critical measurement: '" ++ measure ++ txt "'"].

(** The generated title is whatever the result holds under ["titulo_seo"];
    a non-empty value that is not a string has no [lower]. *)
Definition quick_validation_rules (original_title : text) (generated_title : json)
  : res (list text) :=
  match original_title with
  | [] => Ok []
  | _ =>
      if negb (truthy generated_title) then Ok []
      else match generated_title with
           | JStr g =>
               Ok (List.flat_map (para_issues original_title g) problematic_para
                   ++ List.flat_map (term_issues original_title g) FORBIDDEN_TECH_TERMS
                   ++ List.flat_map (measure_issues g)
                        (Re.findall false measurement original_title))
           | _ => Raise AttributeError
           end
  end.

(** ** The correction agent *)

(** The dict of the [except] branch of [validate_with_agent]. *)
Definition fallback (generated_title : json) (e : text) : dict :=
  {[ txt "is_valid" := JBool false;
     txt "corrected_title" := generated_title;
     txt "issues_found" := JArr [JStr (txt "Validation error: " ++ e)];
     txt "removed_phrases" := JArr [];
     txt "confidence" := JStr (txt "low") ]}.

Arguments fallback : simpl never.

Definition validate_with_agent (original_title : text) (generated_title : json)
    (api_key : text) (call : reply) : json :=
  match call with
  | Parsed result => result
  | Failed e => JObj (fallback generated_title e)
  end.

(** ** The batch coordinator *)

(** A row of the uploaded batch file. *)
Record batch_row := {
  row_SKU : option text;
  row_titulo_sistema : text;
  row_departamento : text;
  row_familia : text;
  row_categoria : text
}.

(** A member of [products_batch], as the caller builds it. *)
Record product := {
  titulo_sistema_existente : text;
  departamento : text;
  familia : text;
  categoria : text;
  marca : text;
  row_data : batch_row
}.

Record validation_metadata := {
  validation_method : text;
  validation_status : text;
  issues_found : list json;
  corrected : bool
}.

Definition metadata_json (m : validation_metadata) : json :=
  JObj {[ txt "validation_method" := JStr (validation_method m);
          txt "validation_status" := JStr (validation_status m);
          txt "issues_found" := JArr (issues_found m);
          txt "corrected" := JBool (corrected m) ]}.

(** The correction agent seen from the batch: the outcome of the call made
    for the record at [idx], given the two titles and the key. *)
Definition agent := nat -> text -> json -> text -> reply.

Section Batch.
Variable transformations : memory.
Variable api_key : text.
Variable enable_ai_validation : bool.
Variable ask : agent.

(** The post-processing of one of the three title keys. *)
Definition postprocess_key (brand : text) (result : dict) (key : text)
  : res dict :=
  match result !! key with
  | Some (JStr t) =>
      t' ← normalize_title t transformations brand;
      Ok (<[key := JStr t']> result)
  | _ => Ok result
  end.

Definition postprocess (brand : text) (result : dict) : res dict :=
  result ← postprocess_key brand result (txt "titulo_sistema");
  result ← postprocess_key brand result (txt "titulo_etiqueta");
  postprocess_key brand result (txt "titulo_seo").

(** The validation of one post-processed result: the result it leaves and
    the metadata to attach. *)
Definition validate_result (idx : nat) (p : product) (result : dict)
  : res (dict * validation_metadata) :=
  let original_title := titulo_sistema_existente p in
  let generated_seo := default (JStr []) (result !! txt "titulo_seo") in
  quick_issues ← quick_validation_rules original_title generated_seo;
  match quick_issues with
  | [] =>
      Ok (result,
          {| validation_method := txt "none";
             validation_status := txt "passed";
             issues_found := [];
             corrected := false |})
  | _ =>
      if enable_ai_validation then
        match validate_with_agent original_title generated_seo api_key
                (ask idx original_title generated_seo api_key) with
        | JObj ai_validation =>
            let invalid :=
              negb (truthy (default (JBool true) (ai_validation !! txt "is_valid"))) in
            let result' :=
              if invalid
              then <[txt "titulo_seo" :=
                       default generated_seo (ai_validation !! txt "corrected_title")]>
                     result
              else result in
            match default (JArr []) (ai_validation !! txt "issues_found") with
            | JArr ai_issues =>
                Ok (result',
                    {| validation_method := txt "ai_validated";
                       validation_status :=
                         if invalid then txt "corrected"
                         else txt "passed_with_warnings";
                       issues_found := List.map JStr quick_issues ++ ai_issues;
                       corrected := invalid |})
            | _ => Raise TypeError
            end
        | _ => Raise AttributeError
        end
      else
        Ok (result,
            {| validation_method := txt "rules_only";
               validation_status := txt "warnings";
               issues_found := List.map JStr quick_issues;
               corrected := false |})
  end.

(** One round of the loop over [zip(products_batch, batch_results)]; an
    element of the array that is not an object has no key to look up. *)
Definition process_record (idx : nat) (p : product) (result : json) : res json :=
  match result with
  | JObj d =>
      let brand := Py.strip (marca p) in
      d ← postprocess brand d;
      '(d', meta) ← validate_result idx p d;
      Ok (JObj (<[txt "validation" := metadata_json meta]> d'))
  | _ => Raise TypeError
  end.

Fixpoint process_pairs (idx : nat) (pairs : list (product * json))
  : res (list json) :=
  match pairs with
  | [] => Ok []
  | (p, result) :: rest =>
      r ← process_record idx p result;
      rs ← process_pairs (S idx) rest;
      Ok (r :: rs)
  end.

(** The [try] block of [process_batch_with_validation], from the decoded
    reply of the generation engine on. *)
Definition process_batch_body (products_batch : list product) (generation : reply)
  : res (list json) :=
  match generation with
  | Failed e => Raise (CallError e)
  | Parsed (JArr batch_results) =>
      process_pairs 0 (zip products_batch batch_results)
  | Parsed _ => Raise ValueError
  end.

Definition process_batch_with_validation (products_batch : list product)
    (nomenclature_pattern : text) (generation : reply) : list json :=
  match products_batch with
  | [] => []
  | _ =>
      match process_batch_body products_batch generation with
      | Ok final_results => final_results
      | Raise _ => []
      end
  end.

(** *** The caller: collecting the results of one batch *)

Record stats := {
  total_processed : nat;
  validation_passed : nat;
  validation_corrected : nat;
  validation_failed : nat
}.

Record failed_product := {
  failed_sku : text;
  failed_titulo : text;
  failed_reason : exn
}.

Variable want_sistema want_etiqueta want_seo : bool.

Definition copy_key (want : bool) (src dst : text) (result row_out : dict) : dict :=
  match result !! src with
  | Some v => if want then <[dst := v]> row_out else row_out
  | None => row_out
  end.

Definition as_text (v : json) : res text :=
  match v with
  | JStr s => Ok s
  | _ => Raise TypeError
  end.

(** ['; '.join(val['issues_found'])] *)
Definition join_issues (issues : list json) : res text :=
  Py.join (txt "; ") <$> mapM as_text issues.

(** [v == s] for a value looked up with [get]. *)
Definition is_str (s : text) (v : option json) : bool :=
  match v with
  | Some (JStr s') => Py.text_eqb s' s
  | _ => false
  end.

Definition bump (val : dict) (st : stats) : stats :=
  let st := {| total_processed := S (total_processed st);
               validation_passed := validation_passed st;
               validation_corrected := validation_corrected st;
               validation_failed := validation_failed st |} in
  if is_str (txt "passed") (val !! txt "validation_status")
  then {| total_processed := total_processed st;
          validation_passed := S (validation_passed st);
          validation_corrected := validation_corrected st;
          validation_failed := validation_failed st |}
  else if truthy (default JNull (val !! txt "corrected"))
  then {| total_processed := total_processed st;
          validation_passed := validation_passed st;
          validation_corrected := S (validation_corrected st);
          validation_failed := validation_failed st |}
  else st.

(** The output row of one record and the statistics after it.  The result
    is one that [process_batch_with_validation] returned: an object whose
    ["validation"] entry is the attached metadata, its issues a list. *)
Definition collect_row (p : product) (result : json) (st : stats)
  : res (dict * stats) :=
  match result with
  | JObj d =>
      let row := row_data p in
      let row_out : dict :=
        {[ txt "titulo_sistema_original" := JStr (row_titulo_sistema row);
           txt "departamento" := JStr (row_departamento row);
           txt "familia" := JStr (row_familia row);
           txt "categoria" := JStr (row_categoria row) ]} in
      let row_out :=
        match row_SKU row with
        | Some sku => <[txt "SKU" := JStr sku]> row_out
        | None => row_out
        end in
      let row_out :=
        copy_key want_sistema (txt "titulo_sistema") (txt "titulo_sistema_generado")
          d row_out in
      let row_out :=
        copy_key want_etiqueta (txt "titulo_etiqueta") (txt "titulo_etiqueta") d row_out in
      let row_out := copy_key want_seo (txt "titulo_seo") (txt "titulo_seo") d row_out in
      match d !! txt "validation" with
      | Some (JObj val) =>
          let row_out :=
            <[txt "validation_status" :=
                default (JStr (txt "unknown")) (val !! txt "validation_status")]>
              row_out in
          row_out ←
            (match val !! txt "issues_found" with
             | Some (JArr (i :: issues)) =>
                 joined ← join_issues (i :: issues);
                 Ok (<[txt "validation_issues" := JStr joined]> row_out)
             | Some v => if truthy v then Raise TypeError else Ok row_out
             | None => Ok row_out
             end);
          let row_out :=
            <[txt "corrected" := default (JBool false) (val !! txt "corrected")]>
              row_out in
          Ok (row_out, bump val st)
      | Some _ => Raise AttributeError
      | None => Ok (row_out, st)
      end
  | _ => Raise TypeError
  end.

(** The loop over [zip(products_batch, batch_results)] of the caller: the
    rows collected before an exception stay collected. *)
Fixpoint collect (pairs : list (product * json)) (results : list dict) (st : stats)
  : list dict * stats * option exn :=
  match pairs with
  | [] => (results, st, None)
  | (p, result) :: rest =>
      match collect_row p result st with
      | Ok (row_out, st') => collect rest (results ++ [row_out]) st'
      | Raise e => (results, st, Some e)
      end
  end.

Definition failed_of (e : exn) (p : product) : failed_product :=
  {| failed_sku := default (txt "N/A") (row_SKU (row_data p));
     failed_titulo := titulo_sistema_existente p;
     failed_reason := e |}.

(** The caller's handling of one prepared batch: the results, the
    statistics and the failed products after it. *)
Definition run_batch (products_batch : list product) (nomenclatura : text)
    (generation : reply)
    (results : list dict) (st : stats) (failed_products : list failed_product)
  : list dict * stats * list failed_product :=
  let batch_results :=
    process_batch_with_validation products_batch nomenclatura generation in
  match collect (zip products_batch batch_results) results st with
  | (results', st', None) => (results', st', failed_products)
  | (results', st', Some e) =>
      (results', st', failed_products ++ List.map (failed_of e) products_batch)
  end.

End Batch.

(** ** Notions of the statements *)

(** The metadata of a record that needed no correction. *)
Definition passed_metadata : validation_metadata :=
  {| validation_method := txt "none";
     validation_status := txt "passed";
     issues_found := [];
     corrected := false |}.

(** The metadata of a record validated by the rules alone. *)
Definition rules_metadata (quick_issues : list text) : validation_metadata :=
  match quick_issues with
  | [] => passed_metadata
  | _ =>
      {| validation_method := txt "rules_only";
         validation_status := txt "warnings";
         issues_found := List.map JStr quick_issues;
         corrected := false |}
  end.

(** [v'] is the value the post-processing leaves under a key that held
    [v]: a string gives its normalised form, anything else stays. *)
Definition normalized_value (transformations : memory) (brand : text)
    (v v' : option json) : Prop :=
  match v with
  | Some (JStr t) =>
      exists u, normalize_title t transformations brand = Ok u /\ v' = Some (JStr u)
  | _ => v' = v
  end.

(** The test of [de_shout] on the bare core of a token. *)
Definition shouting (bare : text) : bool :=
  (1 <? length bare)%nat && Py.isupper bare && negb (in_list bare ACRONYMS_OK).

(** A token cut into leading punctuation, core and trailing punctuation. *)
Definition affixes (lead core trail : text) : Prop :=
  forallb is_punct lead = true
  /\ forallb is_punct trail = true
  /\ (forall c, head core = Some c -> is_punct c = false)
  /\ (forall c, last core = Some c -> is_punct c = false).

(** A word of [split]: not empty and without a space. *)
Definition word (w : text) : Prop :=
  w <> [] /\ forallb (fun c => negb (Py.is_space c)) w = true.

(** What a second pass of the chain would look for in a text. *)
Definition memory_silent (transformations : memory) (u : text) : Prop :=
  Forall (fun entry =>
            Py.strip entry.1 = []
            \/ Re.search true (transformation_pattern (Py.strip entry.1)) u = false)
         transformations.

(** The replacements of a memory are templates [re] compiles; the entry
    of a blank key is passed over and its replacement never read. *)
Definition compiles (transformations : memory) : Prop :=
  Forall (fun entry : text * text =>
            Py.strip entry.1 = []
            \/ exists template, Template.parse_template entry.2 = Ok template)
         transformations.

Definition brand_absent (brand u : text) : Prop :=
  brand = []
  \/ (Py.contains brand u = false
      /\ Py.contains (Py.upper brand) u = false
      /\ Py.contains (Py.lower brand) u = false
      /\ Py.contains (_cap_first (Py.lower brand)) u = false).

Definition no_shouting (u : text) : Prop :=
  Forall (fun w => de_shout_token w = w) (Py.split u).

Definition no_forbidden_term (u : text) : Prop :=
  Forall (fun term => Re.search true (term_pattern term) u = false)
         FORBIDDEN_TECH_TERMS.

Definition no_generic_tail (u : text) : Prop :=
  Forall (fun pattern => Re.search true pattern u = false) GENERIC_PARA_PATTERNS.

Definition settled (transformations : memory) (brand u : text) : Prop :=
  memory_silent transformations u /\ brand_absent brand u /\ no_shouting u
  /\ no_forbidden_term u /\ no_generic_tail u.

(** The normaliser chain run twice is the chain run once. *)
Definition chain_idempotent_on (t : text) (transformations : memory) (brand : text)
  : Prop :=
  (u ← normalize_title t transformations brand;
   normalize_title u transformations brand)
  = normalize_title t transformations brand.

(** The length limits of the title fields of an emitted result. *)
Definition within (n : nat) (v : option json) : Prop :=
  forall t, v = Some (JStr t) -> (length t <= n)%nat.

Definition titles_within_limits (r : json) : Prop :=
  forall d, r = JObj d ->
    within 40 (d !! txt "titulo_sistema") /\ within 36 (d !! txt "titulo_etiqueta").



(** ** Sample inputs *)

Definition sample_memory : memory := [(txt "pulgada", txt "plg")].

Definition sample_rule (cat pattern : string) : rule :=
  {| Departamento := txt "Plomeria (0024)";
     Familia := txt "Tuberia";
     Categoria := txt cat;
     Nomenclatura_sugerida := txt pattern;
     Ejemplo_aplicado := [] |}.

Definition sample_rules : list rule :=
  [ {| Departamento := txt "Electricidad"; Familia := txt "Cables";
       Categoria := txt "Codos PVC"; Nomenclatura_sugerida := txt "E";
       Ejemplo_aplicado := [] |};
    sample_rule "Valvulas de bola" "A";
    sample_rule "Codos PVC" "B";
    sample_rule "codos pvc (12)" "C";
    sample_rule "Tubos PVC presion" "D" ].

Definition sample_row : batch_row :=
  {| row_SKU := Some (txt "1001");
     row_titulo_sistema := txt "BOMBA SUM A.SUCIA 1 1/2HP";
     row_departamento := txt "Plomeria (0024)";
     row_familia := txt "Bombas";
     row_categoria := txt "Bombas sumergibles" |}.

Definition sample_product : product :=
  {| titulo_sistema_existente := txt "BOMBA SUM A.SUCIA 1 1/2HP";
     departamento := txt "Plomeria (0024)";
     familia := txt "Bombas";
     categoria := txt "Bombas sumergibles";
     marca := [];
     row_data := sample_row |}.

(** The naive generation of the end-to-end scenario. *)
Definition sample_result : dict :=
  {[ txt "titulo_sistema" := JStr (txt "Bomba Sum Agua Sucia 1 1/2 HP");
     txt "titulo_etiqueta" := JStr (txt "Bomba Sum A.Sucia 1 1/2 HP");
     txt "titulo_seo" := JStr (txt "Bomba Sumergible para Agua Sucia 1 1/2 HP") ]}.

Definition sample_correction : dict :=
  {[ txt "is_valid" := JBool false;
     txt "corrected_title" := JStr (txt "Bomba Sumergible Agua Sucia 1 1/2 HP");
     txt "issues_found" := JArr [JStr (txt "para")];
     txt "confidence" := JStr (txt "high") ]}.

Definition correcting_agent : agent := fun _ _ _ _ => Parsed (JObj sample_correction).
Definition failing_agent : agent := fun _ _ _ _ => Failed (txt "timeout").

Definition sample_quick_issues : list text :=
  [ txt "Incorrectly added 'para' with abbreviation: 'para agua sucia' (original has 'A.SUCIA')";
    txt "Missing critical measurement: '1/2HP'" ].

(** A generation whose system and label titles have 52 characters. *)
Definition long_title : text :=
  txt "Bomba sumergible de acero inoxidable para agua sucia".

Definition long_result : dict :=
  {[ txt "titulo_sistema" := JStr long_title;
     txt "titulo_etiqueta" := JStr long_title;
     txt "titulo_seo" := JStr (txt "Bomba sumergible de acero inoxidable") ]}.

Definition plain_product : product :=
  {| titulo_sistema_existente := txt "BOMBA SUMERGIBLE INOX";
     departamento := txt "Plomeria (0024)";
     familia := txt "Bombas";
     categoria := txt "Bombas sumergibles";
     marca := [];
     row_data :=
       {| row_SKU := None;
          row_titulo_sistema := txt "BOMBA SUMERGIBLE INOX";
          row_departamento := txt "Plomeria (0024)";
          row_familia := txt "Bombas";
          row_categoria := txt "Bombas sumergibles" |} |}.

Definition second_product : product :=
  {| titulo_sistema_existente := txt "CINTA TEFLON";
     departamento := txt "Plomeria (0024)";
     familia := txt "Bombas";
     categoria := txt "Bombas sumergibles";
     marca := [];
     row_data :=
       {| row_SKU := Some (txt "1002");
          row_titulo_sistema := txt "CINTA TEFLON";
          row_departamento := txt "Plomeria (0024)";
          row_familia := txt "Bombas";
          row_categoria := txt "Bombas sumergibles" |} |}.

Definition zero_stats : stats :=
  {| total_processed := 0; validation_passed := 0;
     validation_corrected := 0; validation_failed := 0 |}.

(** A text with single plain spaces between its words and none at its
    ends. *)
Fixpoint no_adjacent_spaces (u : text) : bool :=
  match u with
  | c :: (d :: _) as rest =>
      negb (Py.is_space c && Py.is_space d) && no_adjacent_spaces rest
  | _ => true
  end.

Definition tidy (u : text) : Prop :=
  Py.collapse u = u
  /\ Py.strip u = u
  /\ no_adjacent_spaces u = true
  /\ forall c, c ∈ u -> Py.is_space c = true -> c = 32.

Definition title_keys : list text :=
  [txt "titulo_sistema"; txt "titulo_etiqueta"; txt "titulo_seo"].

(** One more record counted: the step between two states of the
    statistics of a run. *)
Definition counted (st st' : stats) : Prop :=
  total_processed st' = S (total_processed st)
  /\ validation_failed st' = validation_failed st
  /\ ((validation_passed st' = S (validation_passed st)
       /\ validation_corrected st' = validation_corrected st)
      \/ (validation_passed st' = validation_passed st
          /\ validation_corrected st' = S (validation_corrected st))
      \/ (validation_passed st' = validation_passed st
          /\ validation_corrected st' = validation_corrected st)).

(** ** The coverage analysis *)

(** A row of the file to analyse; a column the file does not have is
    [None] ([row.get] then gives its default). *)
Record analysis_row := {
  col_departamento : option text;
  col_familia : option text;
  col_categoria : option text
}.

(** The result of [analyze_coverage].  The percentage is given exactly;
    Python holds its nearest float. *)
Record coverage := {
  total : nat;
  covered : nat;
  uncovered : Z;
  coverage_percent : Q;
  uncovered_categories : gmap text nat
}.

(** [f"{departamento}/{familia}/{categoria}"], with ['N/A'] for a missing
    column. *)
Definition cat_key_of (row : analysis_row) : text :=
  default (txt "N/A") (col_departamento row) ++ txt "/"
  ++ default (txt "N/A") (col_familia row) ++ txt "/"
  ++ default (txt "N/A") (col_categoria row).

Definition pattern_of (nomenclature_df : list rule) (row : analysis_row)
  : option rule :=
  find_pattern_row nomenclature_df
    (Some (default [] (col_departamento row)))
    (Some (default [] (col_familia row)))
    (Some (default [] (col_categoria row))).

(** [if cat_key not in d: d[cat_key] = 0] and then [d[cat_key] += 1]. *)
Definition count_uncovered (cat_key : text) (d : gmap text nat) : gmap text nat :=
  let d :=
    match d !! cat_key with
    | None => <[cat_key := 0%nat]> d
    | Some _ => d
    end in
  <[cat_key := S (default 0%nat (d !! cat_key))]> d.

(** One round of the loop over the rows. *)
Definition coverage_step (nomenclature_df : list rule)
    (acc : nat * gmap text nat) (row : analysis_row) : nat * gmap text nat :=
  match pattern_of nomenclature_df row with
  | Some _ => (S acc.1, acc.2)
  | None => (acc.1, count_uncovered (cat_key_of row) acc.2)
  end.

Definition analyze_coverage (products_df : list analysis_row)
    (nomenclature_df : list rule) : coverage :=
  let '(n_covered, categories) :=
    fold_left (coverage_step nomenclature_df) products_df (0%nat, ∅) in
  let n_total := length products_df in
  {| total := n_total;
     covered := n_covered;
     uncovered := (Z.of_nat n_total - Z.of_nat n_covered)%Z;
     coverage_percent :=
       if (0 <? n_total)%nat
       then (inject_Z (Z.of_nat n_covered) / inject_Z (Z.of_nat n_total)
             * inject_Z 100)%Q
       else 0%Q;
     uncovered_categories := categories |}.

(** The sum of the counts of a dict. *)
Definition sum_counts (d : gmap text nat) : nat :=
  map_fold (fun _ n acc => (n + acc)%nat) 0%nat d.

Definition has_rule (nomenclature_df : list rule) (row : analysis_row) : bool :=
  match pattern_of nomenclature_df row with
  | Some _ => true
  | None => false
  end.

(** The rows without a rule that fall under a key. *)
Definition uncovered_under (nomenclature_df : list rule) (key : text)
    (products_df : list analysis_row) : list analysis_row :=
  List.filter (fun row => negb (has_rule nomenclature_df row)
                          && Py.text_eqb (cat_key_of row) key) products_df.

(** ** The run over a whole file *)

(** An entry of [failed_products]: a row without a nomenclature rule (its
    reason is the text 'No matching nomenclature rule'), or a record of a
    batch whose collection raised. *)
Inductive failure :=
| NoRule (sku titulo categoria : text)
| BatchError (f : failed_product).

Definition no_rule_entry (row : batch_row) : failure :=
  NoRule (default (txt "N/A") (row_SKU row)) (row_titulo_sistema row)
    (row_categoria row).

Definition product_of (row : batch_row) : product :=
  {| titulo_sistema_existente := row_titulo_sistema row;
     departamento := row_departamento row;
     familia := row_familia row;
     categoria := row_categoria row;
     marca := [];
     row_data := row |}.

Definition rule_of_row (nomenclature_df : list rule) (row : batch_row) : option rule :=
  find_pattern_row nomenclature_df
    (Some (row_departamento row)) (Some (row_familia row)) (Some (row_categoria row)).

(** One round of the loop that prepares a batch: the products, their
    patterns and the failed products so far. *)
Definition prepare_step (nomenclature_df : list rule)
    (acc : list product * list text * list failure) (row : batch_row)
  : list product * list text * list failure :=
  let '(products_batch, batch_patterns, failed_products) := acc in
  match rule_of_row nomenclature_df row with
  | None => (products_batch, batch_patterns, failed_products ++ [no_rule_entry row])
  | Some pattern =>
      (products_batch ++ [product_of row],
       batch_patterns ++ [Nomenclatura_sugerida pattern],
       failed_products)
  end.

Definition prepare_batch (nomenclature_df : list rule) (batch_rows : list batch_row)
    (failed_products : list failure) : list product * list text * list failure :=
  fold_left (prepare_step nomenclature_df) batch_rows ([], [], failed_products).

Section Run.
Variable nomenclature_df : list rule.
Variable transformations : memory.
Variable api_key : text.
Variable enable_ai_validation : bool.
Variables want_sistema want_etiqueta want_seo : bool.

(** The state of the run: results, statistics and failed products. *)
Definition run_state : Type := list dict * stats * list failure.

(** The body of the loop over the batches, for one slice of rows.
    [generate] is the generation engine at this call, as a function of the
    products and the pattern put in its prompt, and [ask] the correction
    agent of the records.  [run_batch] only adds to the failed products it
    is given, so it is run on none and what it reports is appended. *)
Definition process_chunk (batch_rows : list batch_row)
    (generate : list product -> text -> reply)
    (ask : agent) (state : run_state) : run_state :=
  let '(results, st, failed_products) := state in
  let '(products_batch, batch_patterns, failed_products) :=
    prepare_batch nomenclature_df batch_rows failed_products in
  match products_batch, batch_patterns with
  | _ :: _, nomenclatura :: _ =>
      let '(results, st, failed_here) :=
        run_batch transformations api_key enable_ai_validation ask
          want_sistema want_etiqueta want_seo
          products_batch nomenclatura (generate products_batch nomenclatura)
          results st [] in
      (results, st, failed_products ++ (BatchError <$> failed_here))
  | _, _ => (results, st, failed_products)
  end.

(** The slices [iloc[batch_start:batch_end]] for [batch_start] in
    [range(0, len(l), batch_size)], with a positive [batch_size]; [fuel]
    bounds their number. *)
Fixpoint slices_upto {A} (fuel batch_size : nat) (l : list A) : list (list A) :=
  match fuel with
  | O => []
  | S fuel' =>
      match l with
      | [] => []
      | _ => take batch_size l :: slices_upto fuel' batch_size (drop batch_size l)
      end
  end.

Definition slices {A} (batch_size : nat) (l : list A) : list (list A) :=
  slices_upto (length l) batch_size l.

Fixpoint process_chunks (k : nat) (chunks : list (list batch_row))
    (generate : nat -> list product -> text -> reply) (ask : nat -> agent)
    (state : run_state) : run_state :=
  match chunks with
  | [] => state
  | batch_rows :: rest =>
      process_chunks (S k) rest generate ask
        (process_chunk batch_rows (generate k) (ask k) state)
  end.

(** The whole run over the uploaded file; the k-th batch meets the engine
    [generate k] and the agent [ask k]. *)
Definition process_file (batch_df : list batch_row) (batch_size : nat)
    (generate : nat -> list product -> text -> reply) (ask : nat -> agent)
  : run_state :=
  process_chunks 0 (slices batch_size batch_df) generate ask ([], zero_stats, []).

End Run.

Definition without_rule (nomenclature_df : list rule) (row : batch_row) : bool :=
  match rule_of_row nomenclature_df row with
  | Some _ => false
  | None => true
  end.

Definition with_rule (nomenclature_df : list rule) (row : batch_row) : bool :=
  negb (without_rule nomenclature_df row).

(** The rows reported for want of a rule, among the failed products. *)
Definition no_rule_entries (failed_products : list failure) : list failure :=
  List.filter (fun f => match f with NoRule _ _ _ => true | BatchError _ => false end)
    failed_products.

(** Two rows of one family whose categories have different rules. *)
Definition elbow_row : batch_row :=
  {| row_SKU := Some (txt "2001");
     row_titulo_sistema := txt "CODO PVC 1/2";
     row_departamento := txt "Plomeria (0024)";
     row_familia := txt "Tuberia";
     row_categoria := txt "Codos PVC" |}.

Definition valve_row : batch_row :=
  {| row_SKU := None;
     row_titulo_sistema := txt "VALVULA BOLA 1/2";
     row_departamento := txt "Plomeria (0024)";
     row_familia := txt "Tuberia";
     row_categoria := txt "Valvulas de bola" |}.

(** A row of a department the sample rules do not know. *)
Definition garden_row : batch_row :=
  {| row_SKU := Some (txt "3001");
     row_titulo_sistema := txt "MANGUERA 15M";
     row_departamento := txt "Jardin";
     row_familia := txt "Riego";
     row_categoria := txt "Mangueras" |}.

(** A row of the batch file as the coverage analysis reads it, when the file
    is uploaded there as well. *)
Definition analysis_of (row : batch_row) : analysis_row :=
  {| col_departamento := Some (row_departamento row);
     col_familia := Some (row_familia row);
     col_categoria := Some (row_categoria row) |}.

(** The least number of characters a match of a pattern takes. *)
Fixpoint min_len (r : Re.regex) : nat :=
  match r with
  | Re.Eps | Re.Star _ | Re.Opt _ | Re.Bound | Re.End_ => 0
  | Re.Lit _ | Re.Set_ _ => 1
  | Re.Cat r1 r2 => min_len r1 + min_len r2
  | Re.Alt r1 r2 => Nat.min (min_len r1) (min_len r2)
  end.

(** A replacement without backslash. *)
Definition plain (s : text) : bool := forallb (fun c => negb (c =? 92)) s.


(** A pattern that ends with [$]. *)
Fixpoint anchored (r : Re.regex) : bool :=
  match r with
  | Re.End_ => true
  | Re.Cat _ r2 => anchored r2
  | _ => false
  end.

(** The texts a run of tail cuts can leave of [t]: a prefix, with a final
    line feed or not. *)
Definition cut_of (t out : text) : Prop :=
  exists n, out = take n t \/ out = take n t ++ [10].

(** The character before the position reached after [l], from [prev]. *)
Definition lastp (prev : option char) (l : text) : option char :=
  match last l with
  | Some x => Some x
  | None => prev
  end.

(** [m] is [term], up to case. *)
Definition ci (m term : text) : Prop :=
  Forall2 (fun x c => Re.eq_char true c x = true) m term.

(** [term] stands as a word of its own in [s], which follows [prev]. *)
Definition occ (term : text) (prev : option char) (s : text) : Prop :=
  exists a m c,
    s = a ++ m ++ c /\ ci m term
    /\ Re.word_before (lastp prev a) = false /\ Re.word_after c = false.

(** A term made of word characters, and of one at least. *)
Definition letters (term : text) : Prop :=
  term <> [] /\ Forall (fun c => Py.is_word c = true) term.

(** * Properties *)

Ltac keys := vm_compute; congruence.

(** ** The validation protocol *)

Lemma bind_Ok {A B} (m : res A) (f : A -> res B) (b : B) :
  m ≫= f = Ok b -> exists a, m = Ok a /\ f a = Ok b.
Proof. destruct m as [a|e]; cbn; [eauto | discriminate]. Qed.

Lemma quick_validation_rules_falsy (original : text) (generated : json) :
  truthy generated = false -> quick_validation_rules original generated = Ok [].
Proof.
  intros Hg. unfold quick_validation_rules.
  destruct original; [reflexivity|]. now rewrite Hg.
Qed.

(** A quick check that found something looked at a non-empty string. *)
Lemma quick_issues_string (original : text) (generated : json)
    (i : text) (issues : list text) :
  quick_validation_rules original generated = Ok (i :: issues) ->
  exists g, generated = JStr g /\ g <> [].
Proof.
  unfold quick_validation_rules.
  destruct original; [discriminate|].
  destruct (truthy generated) eqn:Ht; cbn; [|discriminate].
  destruct generated; try discriminate.
  intros _. eexists; split; [reflexivity|]. now destruct s.
Qed.

(** C10: with an empty original title or an empty generated title the quick
    validator returns the empty list, whatever the other title holds, and
    the protocol then leaves the result as it is with method "none" and
    status "passed". *)
Theorem quick_validation_empty_passes (original_title : text) (generated : json) :
  original_title = [] \/ generated = JStr [] ->
  quick_validation_rules original_title generated = Ok []
  /\ forall api_key enable_ai_validation ask idx p result,
       titulo_sistema_existente p = original_title ->
       default (JStr []) (result !! txt "titulo_seo") = generated ->
       validate_result api_key enable_ai_validation ask idx p result
       = Ok (result, passed_metadata).
Proof.
  intros H.
  assert (Hq : quick_validation_rules original_title generated = Ok []).
  { destruct H as [-> | ->]; [reflexivity|].
    now apply quick_validation_rules_falsy. }
  split; [exact Hq|].
  intros api_key enable ask idx p result <- <-.
  unfold validate_result. now rewrite Hq.
Qed.

(** An empty generated title passes although the original title holds a
    measurement. *)
Lemma quick_validation_empty_passes_witness :
  quick_validation_rules (txt "TUBO PVC 25mm") (JStr []) = Ok []
  /\ forall api_key enable_ai_validation ask idx p result,
       titulo_sistema_existente p = txt "TUBO PVC 25mm" ->
       default (JStr []) (result !! txt "titulo_seo") = JStr [] ->
       validate_result api_key enable_ai_validation ask idx p result
       = Ok (result, passed_metadata).
Proof.
  apply (quick_validation_empty_passes (txt "TUBO PVC 25mm") (JStr [])).
  right. reflexivity.
Defined.

Lemma fallback_is_valid (g : json) (e : text) : fallback g e !! txt "is_valid" = Some (JBool false).
Proof.
  unfold fallback. rewrite lookup_insert_eq. reflexivity.
Qed.

Lemma fallback_corrected_title (g : json) (e : text) : fallback g e !! txt "corrected_title" = Some g.
Proof.
  unfold fallback.
  rewrite lookup_insert_ne by keys. rewrite lookup_insert_eq. reflexivity.
Qed.

Lemma fallback_issues_found (g : json) (e : text) :
  fallback g e !! txt "issues_found"
  = Some (JArr [JStr (txt "Validation error: " ++ e)]).
Proof.
  unfold fallback.
  do 2 (rewrite lookup_insert_ne by keys). rewrite lookup_insert_eq. reflexivity.
Qed.

Lemma fallback_confidence (g : json) (e : text) :
  fallback g e !! txt "confidence" = Some (JStr (txt "low")).
Proof.
  unfold fallback.
  do 4 (rewrite lookup_insert_ne by keys). rewrite lookup_singleton_eq. reflexivity.
Qed.

(** C7: when the call of the correction agent fails, with whatever error,
    [validate_with_agent] returns a dict with [is_valid] false, the
    generated title unchanged as [corrected_title], the error description
    in [issues_found] and confidence "low"; the validation of the record
    then returns normally, so the batch goes on. *)
Theorem validate_with_agent_failure
    (original_title : text) (generated_title : json) (api_key e : text) :
  exists d : dict,
    validate_with_agent original_title generated_title api_key (Failed e) = JObj d
    /\ d !! txt "is_valid" = Some (JBool false)
    /\ d !! txt "corrected_title" = Some generated_title
    /\ d !! txt "issues_found" = Some (JArr [JStr (txt "Validation error: " ++ e)])
    /\ d !! txt "removed_phrases" = Some (JArr [])
    /\ d !! txt "confidence" = Some (JStr (txt "low"))
    /\ forall enable_ai_validation idx p result quick_issues,
         titulo_sistema_existente p = original_title ->
         default (JStr []) (result !! txt "titulo_seo") = generated_title ->
         quick_validation_rules original_title generated_title = Ok quick_issues ->
         exists out,
           validate_result api_key enable_ai_validation
             (fun _ _ _ _ => Failed e) idx p result = Ok out.
Proof.
  exists (fallback generated_title e).
  split; [reflexivity|].
  split; [apply fallback_is_valid|].
  split; [apply fallback_corrected_title|].
  split; [apply fallback_issues_found|].
  split.
  { unfold fallback. do 3 (rewrite lookup_insert_ne by keys).
    rewrite lookup_insert_eq. reflexivity. }
  split; [apply fallback_confidence|].
  intros enable idx p result quick_issues <- <- Hq.
  unfold validate_result. rewrite Hq. cbn.
  destruct quick_issues as [|i issues]; [eauto|].
  destruct enable; [|eauto].
  cbn [validate_with_agent].
  rewrite fallback_is_valid, fallback_issues_found. cbn. eauto.
Qed.

Lemma validate_with_agent_failure_witness :
  exists out,
    validate_result (txt "key") true (fun _ _ _ _ => Failed (txt "timeout"))
      0 sample_product sample_result = Ok out.
Proof.
  destruct (validate_with_agent_failure (titulo_sistema_existente sample_product)
              (default (JStr []) (sample_result !! txt "titulo_seo"))
              (txt "key") (txt "timeout"))
    as (d & _ & _ & _ & _ & _ & _ & H).
  apply (H true 0%nat sample_product sample_result sample_quick_issues).
  - reflexivity.
  - reflexivity.
  - vm_compute. reflexivity.
Defined.

Lemma res_bind_Ok {A B} (a : A) (f : A -> res B) : Ok a ≫= f = f a.
Proof. reflexivity. Qed.

(** What [validate_result] does once the quick check has found issues and
    the agent has answered with an object. *)
Lemma validate_result_agent (api_key : text) (ask : agent) (idx : nat)
    (p : product) (result : dict) (i : text) (issues : list text)
    (ai_validation : dict) :
  quick_validation_rules (titulo_sistema_existente p)
    (default (JStr []) (result !! txt "titulo_seo")) = Ok (i :: issues) ->
  validate_with_agent (titulo_sistema_existente p)
    (default (JStr []) (result !! txt "titulo_seo")) api_key
    (ask idx (titulo_sistema_existente p)
       (default (JStr []) (result !! txt "titulo_seo")) api_key)
  = JObj ai_validation ->
  validate_result api_key true ask idx p result
  = let generated_seo := default (JStr []) (result !! txt "titulo_seo") in
    let invalid :=
      negb (truthy (default (JBool true) (ai_validation !! txt "is_valid"))) in
    match default (JArr []) (ai_validation !! txt "issues_found") with
    | JArr ai_issues =>
        Ok (if invalid
            then <[txt "titulo_seo" :=
                     default generated_seo (ai_validation !! txt "corrected_title")]>
                   result
            else result,
            {| validation_method := txt "ai_validated";
               validation_status :=
                 if invalid then txt "corrected" else txt "passed_with_warnings";
               issues_found := List.map JStr (i :: issues) ++ ai_issues;
               corrected := invalid |})
    | _ => Raise TypeError
    end.
Proof.
  intros Hq Hv. unfold validate_result.
  rewrite Hq, res_bind_Ok, Hv. reflexivity.
Qed.

(** The two outcomes of a validation that returns: the result untouched,
    or its [titulo_seo] replaced on a false [is_valid] of the agent. *)
Lemma validate_result_cases (api_key : text) (enable_ai_validation : bool)
    (ask : agent) (idx : nat) (p : product) (result result' : dict)
    (meta : validation_metadata) :
  validate_result api_key enable_ai_validation ask idx p result = Ok (result', meta) ->
  (corrected meta = false /\ result' = result)
  \/ (corrected meta = true /\
      exists ai_validation : dict,
        validate_with_agent (titulo_sistema_existente p)
          (default (JStr []) (result !! txt "titulo_seo")) api_key
          (ask idx (titulo_sistema_existente p)
             (default (JStr []) (result !! txt "titulo_seo")) api_key)
        = JObj ai_validation
        /\ truthy (default (JBool true) (ai_validation !! txt "is_valid")) = false
        /\ result' = <[txt "titulo_seo" :=
                         default (default (JStr []) (result !! txt "titulo_seo"))
                           (ai_validation !! txt "corrected_title")]> result).
Proof.
  intros H. unfold validate_result in H.
  apply bind_Ok in H as (quick_issues & Hq & H).
  destruct quick_issues as [|i issues].
  { injection H as <- <-. left. split; reflexivity. }
  destruct enable_ai_validation.
  2:{ injection H as <- <-. left. split; reflexivity. }
  destruct (validate_with_agent _ _ _ _) as [| | | | |ai_validation] eqn:Hv;
    try discriminate.
  destruct (default (JArr []) (ai_validation !! txt "issues_found"));
    try discriminate.
  destruct (truthy (default (JBool true) (ai_validation !! txt "is_valid")))
    eqn:Hvalid; cbn in H; injection H as <- <-.
  - left. split; reflexivity.
  - right. split; [reflexivity|]. exists ai_validation. auto.
Qed.

Lemma validate_result_frame (api_key : text) (enable_ai_validation : bool)
    (ask : agent) (idx : nat) (p : product) (result result' : dict)
    (meta : validation_metadata) :
  validate_result api_key enable_ai_validation ask idx p result = Ok (result', meta) ->
  forall key, key <> txt "titulo_seo" -> result' !! key = result !! key.
Proof.
  intros H key Hkey.
  destruct (validate_result_cases _ _ _ _ _ _ _ _ H)
    as [[_ ->] | [_ (a & _ & _ & ->)]]; [reflexivity|].
  now apply lookup_insert_ne.
Qed.

(** C8: the validation of a result never changes its [titulo_sistema] or its
    [titulo_etiqueta], nor any entry other than [titulo_seo]; the result is
    left as it is unless the metadata says corrected, and then it is the
    result with [titulo_seo] replaced by the agent's [corrected_title], the
    agent having answered with a false [is_valid]. *)
Theorem validation_changes_only_seo
    (api_key : text) (enable_ai_validation : bool) (ask : agent)
    (idx : nat) (p : product) (result result' : dict) (meta : validation_metadata) :
  validate_result api_key enable_ai_validation ask idx p result = Ok (result', meta) ->
  (forall key, key <> txt "titulo_seo" -> result' !! key = result !! key)
  /\ result' !! txt "titulo_sistema" = result !! txt "titulo_sistema"
  /\ result' !! txt "titulo_etiqueta" = result !! txt "titulo_etiqueta"
  /\ (<[txt "validation" := metadata_json meta]> result') !! txt "titulo_sistema"
     = result !! txt "titulo_sistema"
  /\ (<[txt "validation" := metadata_json meta]> result') !! txt "titulo_etiqueta"
     = result !! txt "titulo_etiqueta"
  /\ (corrected meta = false -> result' = result)
  /\ (corrected meta = true ->
      let generated_seo := default (JStr []) (result !! txt "titulo_seo") in
      exists ai_validation : dict,
        validate_with_agent (titulo_sistema_existente p) generated_seo api_key
          (ask idx (titulo_sistema_existente p) generated_seo api_key)
        = JObj ai_validation
        /\ truthy (default (JBool true) (ai_validation !! txt "is_valid")) = false
        /\ result' = <[txt "titulo_seo" :=
                         default generated_seo (ai_validation !! txt "corrected_title")]>
                       result).
Proof.
  intros H.
  pose proof (validate_result_cases _ _ _ _ _ _ _ _ H) as Hcases.
  pose proof (validate_result_frame _ _ _ _ _ _ _ _ H) as Hframe.
  split; [exact Hframe|].
  split; [apply Hframe; keys|].
  split; [apply Hframe; keys|].
  split; [rewrite lookup_insert_ne by keys; apply Hframe; keys|].
  split; [rewrite lookup_insert_ne by keys; apply Hframe; keys|].
  split.
  - intros Hc. destruct Hcases as [[_ ->] | [Hc' _]]; [reflexivity | congruence].
  - intros Hc. destruct Hcases as [[Hc' _] | [_ Hex]]; [congruence | exact Hex].
Qed.

Lemma validation_changes_only_seo_witness :
  (<[txt "titulo_seo" := JStr (txt "Bomba Sumergible Agua Sucia 1 1/2 HP")]>
     sample_result) !! txt "titulo_sistema"
  = sample_result !! txt "titulo_sistema".
Proof.
  refine (proj1 (proj2 (validation_changes_only_seo (txt "key") true correcting_agent
            0 sample_product sample_result
            (<[txt "titulo_seo" := JStr (txt "Bomba Sumergible Agua Sucia 1 1/2 HP")]>
               sample_result)
            {| validation_method := txt "ai_validated";
               validation_status := txt "corrected";
               issues_found := List.map JStr sample_quick_issues ++ [JStr (txt "para")];
               corrected := true |} _))).
  vm_compute. reflexivity.
Defined.

(** C9: when the quick check has found issues, AI validation is enabled and
    the call of the correction agent fails, the record is marked "corrected"
    with [corrected] true although its result, [titulo_seo] included, is
    left exactly as it was; a genuine correction gets the very same method,
    status and [corrected] flag. *)
Theorem failed_correction_marked_corrected
    (api_key : text) (ask : agent) (idx : nat) (p : product) (result : dict)
    (i : text) (issues : list text) (e : text) :
  let original_title := titulo_sistema_existente p in
  let generated_seo := default (JStr []) (result !! txt "titulo_seo") in
  quick_validation_rules original_title generated_seo = Ok (i :: issues) ->
  ask idx original_title generated_seo api_key = Failed e ->
  validate_result api_key true ask idx p result
  = Ok (result,
        {| validation_method := txt "ai_validated";
           validation_status := txt "corrected";
           issues_found :=
             List.map JStr (i :: issues)
             ++ [JStr (txt "Validation error: " ++ e)];
           corrected := true |})
  /\ (exists g, result !! txt "titulo_seo" = Some (JStr g))
  /\ forall (ask' : agent) (ai_validation : dict) (ai_issues : list json),
       ask' idx original_title generated_seo api_key = Parsed (JObj ai_validation) ->
       truthy (default (JBool true) (ai_validation !! txt "is_valid")) = false ->
       default (JArr []) (ai_validation !! txt "issues_found") = JArr ai_issues ->
       exists result' meta,
         validate_result api_key true ask' idx p result = Ok (result', meta)
         /\ validation_method meta = txt "ai_validated"
         /\ validation_status meta = txt "corrected"
         /\ corrected meta = true.
Proof.
  intros original_title generated_seo Hq Hask.
  assert (Hseo : exists g, result !! txt "titulo_seo" = Some (JStr g)).
  { destruct (quick_issues_string _ _ _ _ Hq) as (g & Hg & Hne).
    subst generated_seo. destruct (result !! txt "titulo_seo") as [v|] eqn:Hr.
    - cbn in Hg. subst v. eauto.
    - cbn in Hg. congruence. }
  split; [|split; [exact Hseo|]].
  - rewrite (validate_result_agent api_key ask idx p result i issues
               (fallback generated_seo e)); [|exact Hq|].
    2:{ fold original_title generated_seo. now rewrite Hask. }
    cbv zeta. fold generated_seo.
    rewrite fallback_is_valid, fallback_issues_found, fallback_corrected_title.
    cbn [default truthy negb from_option].
    destruct Hseo as (g & Hg). subst generated_seo. rewrite Hg. cbn [default from_option].
    rewrite insert_id by exact Hg. reflexivity.
  - intros ask' ai_validation ai_issues Hask' Hvalid Hissues.
    rewrite (validate_result_agent api_key ask' idx p result i issues ai_validation);
      [|exact Hq|].
    2:{ fold original_title generated_seo. now rewrite Hask'. }
    cbv zeta. rewrite Hissues, Hvalid. cbn [negb].
    eexists _, _. split; [reflexivity|]. cbn. auto.
Qed.

Lemma failed_correction_marked_corrected_witness :
  validate_result (txt "key") true failing_agent 0 sample_product sample_result
  = Ok (sample_result,
        {| validation_method := txt "ai_validated";
           validation_status := txt "corrected";
           issues_found :=
             List.map JStr sample_quick_issues
             ++ [JStr (txt "Validation error: " ++ txt "timeout")];
           corrected := true |}).
Proof.
  refine (proj1 (failed_correction_marked_corrected (txt "key") failing_agent 0
                   sample_product sample_result
                   (txt "Incorrectly added 'para' with abbreviation: 'para agua sucia' (original has 'A.SUCIA')")
                   [txt "Missing critical measurement: '1/2HP'"]
                   (txt "timeout") _ _)).
  - vm_compute. reflexivity.
  - reflexivity.
Defined.

(** ** The taxonomy matcher *)

Section FilterOrder.
Context {A : Type} (P : A -> bool).

(** The head of a filtered list is the first element that passes. *)
Lemma filter_head (l : list A) (r : A) (rest : list A) :
  List.filter P l = r :: rest ->
  exists i, l !! i = Some r /\ P r = true
            /\ forall j r', (j < i)%nat -> l !! j = Some r' -> P r' = false.
Proof.
  induction l as [|x l IH]; [discriminate|].
  cbn. destruct (P x) eqn:Hx.
  - intros [= -> _]. exists 0%nat. repeat split; [exact Hx | lia].
  - intros H. destruct (IH H) as (i & Hi & Hr & Hmin).
    exists (S i). repeat split; [exact Hi | exact Hr |].
    intros [|j] r' Hj Hl; cbn in Hl.
    + congruence.
    + apply (Hmin j); [lia | exact Hl].
Qed.

(** Filtering keeps the order: an element of the filtered list sits in the
    list, and the passing elements before it there are before it here. *)
Lemma filter_lookup (l : list A) (i : nat) (r : A) :
  List.filter P l !! i = Some r ->
  exists k, l !! k = Some r /\ P r = true
            /\ forall j r', (j < k)%nat -> l !! j = Some r' -> P r' = true ->
                 exists j', (j' < i)%nat /\ List.filter P l !! j' = Some r'.
Proof.
  revert i. induction l as [|x l IH]; intros i; [discriminate|].
  cbn. destruct (P x) eqn:Hx.
  - destruct i as [|i]; cbn.
    + intros [= ->]. exists 0%nat. repeat split; [exact Hx | lia].
    + intros H. destruct (IH i H) as (k & Hk & Hr & Hbefore).
      exists (S k). repeat split; [exact Hk | exact Hr |].
      intros [|j] r' Hj Hl Hp; cbn in Hl.
      * injection Hl as <-. exists 0%nat. split; [lia | reflexivity].
      * destruct (Hbefore j r' ltac:(lia) Hl Hp) as (j' & Hj' & Hf).
        exists (S j'). split; [lia | exact Hf].
  - intros H. destruct (IH i H) as (k & Hk & Hr & Hbefore).
    exists (S k). repeat split; [exact Hk | exact Hr |].
    intros [|j] r' Hj Hl Hp; cbn in Hl.
    + congruence.
    + apply (Hbefore j r' ltac:(lia) Hl Hp).
Qed.

Lemma filter_filter_andb (Q : A -> bool) (l : list A) :
  List.filter Q (List.filter P l) = List.filter (fun x => P x && Q x) l.
Proof.
  induction l as [|x l IH]; [reflexivity|].
  cbn. destruct (P x); cbn; [destruct (Q x)|]; now rewrite IH.
Qed.

End FilterOrder.

Lemma text_eqb_eq (a b : text) : Py.text_eqb a b = true <-> a = b.
Proof. unfold Py.text_eqb. apply bool_decide_eq_true. Qed.

(** C5: when some row matching the query on normalized department and
    family has a normalized category equal to the query's, the row returned
    is the first such row of the rule set: its normalized category is the
    query's, and no row before it is such an exact match. *)
Theorem find_pattern_row_exact
    (nomenclature_df : list rule) (dept fam cat : option text) :
  let dep_norm := normalize_tax_value dept in
  let fam_norm := normalize_tax_value fam in
  let cat_norm := normalize_tax_value cat in
  (exists r0, r0 ∈ nomenclature_df
              /\ is_candidate dep_norm fam_norm r0 = true
              /\ normalize_tax_value (Some (Categoria r0)) = cat_norm) ->
  exists r i,
    find_pattern_row nomenclature_df dept fam cat = Some r
    /\ nomenclature_df !! i = Some r
    /\ is_candidate dep_norm fam_norm r = true
    /\ normalize_tax_value (Some (Categoria r)) = cat_norm
    /\ forall j r', (j < i)%nat -> nomenclature_df !! j = Some r' ->
         ~ (is_candidate dep_norm fam_norm r' = true
            /\ normalize_tax_value (Some (Categoria r')) = cat_norm).
Proof.
  intros dep_norm fam_norm cat_norm (r0 & Hin & Hcand & Hcat).
  unfold find_pattern_row. fold dep_norm fam_norm cat_norm.
  set (both := fun x => is_candidate dep_norm fam_norm x && has_cat cat_norm x).
  assert (Hboth : In r0 (List.filter both nomenclature_df)).
  { apply List.filter_In. split; [now apply list_elem_of_In|].
    unfold both, has_cat. rewrite Hcand. now apply text_eqb_eq. }
  assert (Hc : In r0 (List.filter (is_candidate dep_norm fam_norm) nomenclature_df)).
  { apply List.filter_In. split; [now apply list_elem_of_In | exact Hcand]. }
  destruct (List.filter (is_candidate dep_norm fam_norm) nomenclature_df)
    as [|first cands] eqn:Hcands; [destruct Hc|].
  rewrite <- Hcands, filter_filter_andb. fold both.
  destruct (List.filter both nomenclature_df) as [|r rest] eqn:Hf; [destruct Hboth|].
  destruct (filter_head both _ _ _ Hf) as (i & Hi & Hr & Hmin).
  apply andb_true_iff in Hr as [Hr1 Hr2].
  exists r, i. repeat split; try assumption.
  - now apply text_eqb_eq.
  - intros j r' Hj Hl [H1 H2].
    specialize (Hmin j r' Hj Hl). unfold both, has_cat in Hmin.
    rewrite H1 in Hmin. apply text_eqb_eq in H2. rewrite H2 in Hmin. discriminate.
Qed.

Lemma find_pattern_row_exact_witness :
  exists r i,
    find_pattern_row sample_rules
      (Some (txt "PLOMERIA")) (Some (txt "tuberia")) (Some (txt "Codos pvc"))
    = Some r
    /\ sample_rules !! i = Some r
    /\ is_candidate (txt "PLOMERIA") (txt "TUBERIA") r = true
    /\ normalize_tax_value (Some (Categoria r)) = txt "CODOS PVC"
    /\ forall j r', (j < i)%nat -> sample_rules !! j = Some r' ->
         ~ (is_candidate (txt "PLOMERIA") (txt "TUBERIA") r' = true
            /\ normalize_tax_value (Some (Categoria r')) = txt "CODOS PVC").
Proof.
  apply (find_pattern_row_exact sample_rules
           (Some (txt "PLOMERIA")) (Some (txt "tuberia")) (Some (txt "Codos pvc"))).
  exists (sample_rule "codos pvc (12)" "C").
  split; [|split; vm_compute; reflexivity].
  apply list_elem_of_In. vm_compute. auto.
Defined.

Example exact_match_comes_first :
  find_pattern_row sample_rules
    (Some (txt "PLOMERIA")) (Some (txt "tuberia")) (Some (txt "Codos pvc"))
  = Some (sample_rule "Codos PVC" "B").
Proof. vm_compute. reflexivity. Qed.

Lemma max_list_fmap_le {A} (f : A -> nat) (l : list A) (x : A) :
  x ∈ l -> (f x <= max_list (f <$> l))%nat.
Proof.
  intros Hx. apply max_list_elem_of_le. apply list_elem_of_fmap. eauto.
Qed.

(** The fallback of [find_pattern_row], reached when no candidate has the
    category of the query and that category has a word. *)
Lemma find_pattern_row_fallback (nomenclature_df : list rule)
    (dept fam cat : option text) (first : rule) (rest : list rule) :
  let cat_norm := normalize_tax_value cat in
  List.filter (is_candidate (normalize_tax_value dept) (normalize_tax_value fam))
    nomenclature_df = first :: rest ->
  List.filter (has_cat cat_norm) (first :: rest) = [] ->
  Py.split cat_norm <> [] ->
  find_pattern_row nomenclature_df dept fam cat
  = (idxmax ((fun r => score (words cat_norm) (Categoria r)) <$> first :: rest)
     ≫= fun best_idx => (first :: rest) !! best_idx).
Proof.
  intros cat_norm Hc Hnone Hwords. unfold find_pattern_row. cbv zeta.
  fold cat_norm. rewrite Hc, Hnone.
  destruct (Py.split cat_norm); [congruence | reflexivity].
Qed.

(** C6: the row returned depends on the query only through its normalized
    triple; and in the word-overlap fallback (no exact category among the
    candidates, a query category with at least one word) the row returned
    is the first candidate, in the order of the rule set, whose score is the
    maximum: no candidate scores more and every candidate before it scores
    less. *)
Theorem find_pattern_row_deterministic
    (nomenclature_df : list rule) (dept fam cat : option text) :
  let dep_norm := normalize_tax_value dept in
  let fam_norm := normalize_tax_value fam in
  let cat_norm := normalize_tax_value cat in
  let candidate := is_candidate dep_norm fam_norm in
  let overlap := fun r => score (words cat_norm) (Categoria r) in
  (forall dept' fam' cat',
     normalize_tax_value dept' = dep_norm ->
     normalize_tax_value fam' = fam_norm ->
     normalize_tax_value cat' = cat_norm ->
     find_pattern_row nomenclature_df dept' fam' cat'
     = find_pattern_row nomenclature_df dept fam cat)
  /\ ((exists r0, r0 ∈ nomenclature_df /\ candidate r0 = true) ->
      (forall r', r' ∈ nomenclature_df -> candidate r' = true ->
                  normalize_tax_value (Some (Categoria r')) <> cat_norm) ->
      Py.split cat_norm <> [] ->
      exists r i,
        find_pattern_row nomenclature_df dept fam cat = Some r
        /\ nomenclature_df !! i = Some r
        /\ candidate r = true
        /\ (forall r', r' ∈ nomenclature_df -> candidate r' = true ->
                       (overlap r' <= overlap r)%nat)
        /\ (forall j r', (j < i)%nat -> nomenclature_df !! j = Some r' ->
                         candidate r' = true -> (overlap r' < overlap r)%nat)).
Proof.
  intros dep_norm fam_norm cat_norm candidate overlap. split.
  { intros dept' fam' cat' Hd Hf Hc. unfold find_pattern_row.
    now rewrite Hd, Hf, Hc. }
  intros (r0 & Hin0 & Hcand0) Hnoexact Hwords.
  remember (List.filter candidate nomenclature_df) as cands eqn:Hcdef.
  assert (Hcands_in : forall x, x ∈ cands <-> x ∈ nomenclature_df /\ candidate x = true).
  { intros x. subst cands. rewrite !list_elem_of_In. apply List.filter_In. }
  assert (Hnone : List.filter (has_cat cat_norm) cands = []).
  { destruct (List.filter (has_cat cat_norm) cands) as [|x xs] eqn:Hf; [reflexivity|].
    exfalso. assert (In x (List.filter (has_cat cat_norm) cands)) as Hx
      by (rewrite Hf; now left).
    apply List.filter_In in Hx as [Hx Hcat]. apply list_elem_of_In in Hx.
    apply Hcands_in in Hx as [Hx Hc].
    apply (Hnoexact x Hx Hc). now apply text_eqb_eq. }
  assert (Hr0 : r0 ∈ cands) by (apply Hcands_in; auto).
  set (scores := overlap <$> cands).
  assert (Hmax : max_list scores ∈ scores).
  { apply max_list_elem_of. unfold scores. destruct cands; [|discriminate].
    now apply not_elem_of_nil in Hr0. }
  destruct (list_find_elem_of (fun x => x = max_list scores) scores _ Hmax eq_refl)
    as [[k m] Hfind].
  assert (Hrow : find_pattern_row nomenclature_df dept fam cat = cands !! k).
  { destruct cands as [|first rest] eqn:Hcs; [now apply not_elem_of_nil in Hr0|].
    rewrite (find_pattern_row_fallback nomenclature_df dept fam cat first rest);
      [| now symmetry | exact Hnone | exact Hwords].
    fold cat_norm overlap. unfold idxmax. fold scores. rewrite Hfind. reflexivity. }
  apply list_find_Some in Hfind as (Hk & Hm & Hfirst).
  unfold scores in Hk. rewrite list_lookup_fmap in Hk.
  destruct (cands !! k) as [r|] eqn:Hr; [|discriminate].
  cbn in Hk. injection Hk as Hk.
  rewrite Hcdef in Hr.
  destruct (filter_lookup candidate nomenclature_df k r Hr)
    as (i & Hi & Hc & Hbefore).
  rewrite <- Hcdef in Hbefore.
  exists r, i. repeat split; try assumption.
  - intros r' Hin' Hc'. rewrite Hk, Hm. unfold scores.
    apply max_list_fmap_le. apply Hcands_in. auto.
  - intros j r' Hj Hl Hc'.
    destruct (Hbefore j r' Hj Hl Hc') as (j' & Hj' & Hf).
    assert (overlap r' <= max_list scores)%nat as Hle.
    { unfold scores. apply max_list_fmap_le.
      apply list_elem_of_lookup. eauto. }
    assert (overlap r' <> max_list scores) as Hneq.
    { apply (Hfirst j'); [|exact Hj'].
      unfold scores. rewrite list_lookup_fmap, Hf. reflexivity. }
    rewrite Hk, Hm. lia.
Qed.

Lemma find_pattern_row_deterministic_witness :
  let candidate := is_candidate (txt "PLOMERIA") (txt "TUBERIA") in
  let overlap := fun r => score (words (txt "PVC")) (Categoria r) in
  exists r i,
    find_pattern_row sample_rules
      (Some (txt "Plomeria")) (Some (txt "Tuberia")) (Some (txt "pvc")) = Some r
    /\ sample_rules !! i = Some r
    /\ candidate r = true
    /\ (forall r', r' ∈ sample_rules -> candidate r' = true ->
                   (overlap r' <= overlap r)%nat)
    /\ (forall j r', (j < i)%nat -> sample_rules !! j = Some r' ->
                     candidate r' = true -> (overlap r' < overlap r)%nat).
Proof.
  apply (proj2 (find_pattern_row_deterministic sample_rules
                  (Some (txt "Plomeria")) (Some (txt "Tuberia")) (Some (txt "pvc")))).
  - exists (sample_rule "Codos PVC" "B"). split; [|vm_compute; reflexivity].
    apply list_elem_of_In. vm_compute. auto.
  - intros r' Hin _. apply list_elem_of_In in Hin.
    repeat (destruct Hin as [<- | Hin]; [vm_compute; discriminate|]).
    destruct Hin.
  - vm_compute. discriminate.
Defined.

(** Three candidates share the one word of the query; the first of them in
    the sheet is returned. *)
Example find_pattern_row_tie :
  find_pattern_row sample_rules
    (Some (txt "Plomeria")) (Some (txt "Tuberia")) (Some (txt "pvc"))
  = Some (sample_rule "Codos PVC" "B").
Proof. vm_compute. reflexivity. Qed.

(** ** [de_shout] *)

Section Strip.
Variable p : char -> bool.

Lemma lstrip_by_app (lead s : text) :
  forallb p lead = true -> Py.lstrip_by p (lead ++ s) = Py.lstrip_by p s.
Proof.
  induction lead as [|c lead IH]; [reflexivity|].
  cbn. intros H. apply andb_true_iff in H as [-> H]. auto.
Qed.

Lemma lstrip_by_head (s : text) :
  (forall c, head s = Some c -> p c = false) -> Py.lstrip_by p s = s.
Proof.
  destruct s as [|c s]; [reflexivity|].
  intros H. cbn. now rewrite (H c eq_refl).
Qed.

Lemma forallb_reverse (s : text) :
  forallb p s = true -> forallb p (reverse s) = true.
Proof.
  rewrite !forallb_forall. intros H x Hx. apply H.
  apply (proj1 (list_elem_of_In _ _)). apply (proj2 (list_elem_of_In _ _)) in Hx.
  now apply elem_of_reverse.
Qed.

Lemma rstrip_by_app (s trail : text) :
  forallb p trail = true -> Py.rstrip_by p (s ++ trail) = Py.rstrip_by p s.
Proof.
  intros H. unfold Py.rstrip_by. rewrite reverse_app.
  now rewrite lstrip_by_app by now apply forallb_reverse.
Qed.

Lemma rstrip_by_last (s : text) :
  (forall c, last s = Some c -> p c = false) -> Py.rstrip_by p s = s.
Proof.
  intros H. unfold Py.rstrip_by. rewrite lstrip_by_head.
  - apply reverse_involutive.
  - intros c Hc. apply H. rewrite head_reverse in Hc. exact Hc.
Qed.

Lemma lstrip_by_all (s : text) : forallb p s = true -> Py.lstrip_by p s = [].
Proof.
  induction s as [|c s IH]; [reflexivity|].
  cbn. intros H. apply andb_true_iff in H as [-> H]. auto.
Qed.

(** The bare core the code computes is the core of the decomposition. *)
Lemma strip_affixes (lead core trail : text) :
  forallb p lead = true -> forallb p trail = true ->
  (forall c, head core = Some c -> p c = false) ->
  (forall c, last core = Some c -> p c = false) ->
  Py.rstrip_by p (Py.lstrip_by p (lead ++ core ++ trail)) = core.
Proof.
  intros Hlead Htrail Hhead Hlast.
  rewrite lstrip_by_app by exact Hlead.
  destruct core as [|c core].
  - change ([] ++ trail) with trail.
    rewrite lstrip_by_all by exact Htrail. reflexivity.
  - change ((c :: core) ++ trail) with (c :: (core ++ trail)).
    rewrite lstrip_by_head by (cbn; intros c' [= <-]; now apply Hhead).
    change (c :: (core ++ trail)) with ((c :: core) ++ trail).
    rewrite rstrip_by_app by exact Htrail. now apply rstrip_by_last.
Qed.

End Strip.

Ltac split_tests :=
  repeat match goal with
    | H : context [N.leb ?a ?b] |- _ => destruct (N.leb_spec a b); try lia
    | H : context [N.eqb ?a ?b] |- _ => destruct (N.eqb_spec a b); try lia
    | |- context [N.leb ?a ?b] => destruct (N.leb_spec a b); try lia
    | |- context [N.eqb ?a ?b] => destruct (N.eqb_spec a b); try lia
    end.

(** The upper-case form of a character that is not lower-case is itself. *)
Lemma upper_char_not_lower (c : char) :
  Py.is_lower_char c = false -> Py.upper_char c = [c].
Proof.
  unfold Py.is_lower_char, Py.upper_char, Py.in_range. intros H.
  split_tests; cbn in *; try discriminate; reflexivity.
Qed.

Lemma shouting_cap_first (core : text) :
  shouting core = true ->
  exists c rest, core = c :: rest /\ _cap_first core = c :: Py.lower rest.
Proof.
  unfold shouting. intros H.
  apply andb_true_iff in H as [H _]. apply andb_true_iff in H as [Hlen Hup].
  destruct core as [|c rest]; [discriminate|].
  exists c, rest. split; [reflexivity|].
  unfold Py.isupper in Hup. apply andb_true_iff in Hup as [Hlow _].
  cbn in Hlow. apply andb_true_iff in Hlow as [Hc _].
  apply negb_true_iff in Hc.
  unfold _cap_first. cbn [take drop Py.upper List.flat_map].
  rewrite (upper_char_not_lower c Hc). reflexivity.
Qed.

(** [de_shout_token] on a token whose core shouts. *)
Lemma de_shout_token_shouting (lead core trail : text) :
  affixes lead core trail ->
  shouting core = true ->
  de_shout_token (lead ++ core ++ trail) = lead ++ _cap_first core.
Proof.
  intros (Hlead & Htrail & Hhead & Hlast) Hshout.
  assert (Hleft : Py.lstrip_by is_punct (lead ++ core ++ trail) = core ++ trail).
  { rewrite lstrip_by_app by exact Hlead. apply lstrip_by_head.
    destruct core as [|c core']; [discriminate|].
    cbn. intros c' [= <-]. now apply Hhead. }
  assert (Hbare : Py.rstrip_by is_punct (core ++ trail) = core).
  { rewrite rstrip_by_app by exact Htrail. now apply rstrip_by_last. }
  unfold de_shout_token. rewrite Hleft, Hbare.
  fold (shouting core). rewrite Hshout.
  rewrite Nat.sub_diag. cbn [Nat.ltb Nat.leb].
  rewrite !length_app.
  replace (length lead + (length core + length trail)
           - (length core + length trail))%nat
    with (length lead) by lia.
  rewrite take_app_length. now rewrite app_nil_r.
Qed.

Lemma de_shout_token_quiet (lead core trail : text) :
  affixes lead core trail ->
  shouting core = false ->
  de_shout_token (lead ++ core ++ trail) = lead ++ core ++ trail.
Proof.
  intros (Hlead & Htrail & Hhead & Hlast) Hquiet.
  unfold de_shout_token.
  rewrite (strip_affixes is_punct lead core trail Hlead Htrail Hhead Hlast).
  fold (shouting core). now rewrite Hquiet.
Qed.

(** C4: what the code does, against its docstring and the spec.  A token
    whose core is all upper-case, longer than one character and not in the
    allow-list comes out as its leading punctuation and its core
    capitalized (first character kept, the rest lower-cased): the trailing
    punctuation is lost, for [suffix_len] is computed as
    [len(stripped) - len(bare)], which is 0.  A token whose core is short,
    not upper-case or in the allow-list comes out unchanged, affixes
    included.  The allow-list is tested with the case of the token and
    holds "plg" only, so "PLG" is capitalized:
    de_shout("VALVULA PVC 1/2 PLG") = "Valvula PVC 1/2 Plg", where the
    docstring gives "Valvula PVC 1/2 PLG". *)
Theorem de_shout_capitalizes (lead core trail : text) :
  affixes lead core trail ->
  ((1 < length core)%nat -> Py.isupper core = true -> ~ In core ACRONYMS_OK ->
   exists c rest,
     core = c :: rest
     /\ de_shout_token (lead ++ core ++ trail) = lead ++ c :: Py.lower rest)
  /\ ((length core <= 1)%nat \/ Py.isupper core = false \/ In core ACRONYMS_OK ->
      de_shout_token (lead ++ core ++ trail) = lead ++ core ++ trail)
  /\ (forall t, de_shout t = Py.join [32] (List.map de_shout_token (Py.split t)))
  /\ ~ In (txt "PLG") ACRONYMS_OK
  /\ de_shout (txt "VALVULA PVC 1/2 PLG") = txt "Valvula PVC 1/2 Plg"
  /\ de_shout (txt "(LLAVE), MIXTA.") = txt "(Llave Mixta".
Proof.
  intros Haff.
  assert (Hacr : in_list core ACRONYMS_OK = true <-> In core ACRONYMS_OK).
  { unfold in_list. rewrite existsb_exists. split.
    - intros (x & Hx & Heq). apply text_eqb_eq in Heq. now subst.
    - intros Hin. exists core. split; [exact Hin | now apply text_eqb_eq]. }
  split; [|split; [|split; [|split; [|split]]]].
  - intros Hlen Hup Hnot.
    assert (Hshout : shouting core = true).
    { unfold shouting. rewrite Hup.
      apply Nat.ltb_lt in Hlen. rewrite Hlen.
      destruct (in_list core ACRONYMS_OK) eqn:Hin; [|reflexivity].
      exfalso. apply Hnot. now apply Hacr. }
    rewrite (de_shout_token_shouting lead core trail Haff Hshout).
    destruct (shouting_cap_first core Hshout) as (c & rest & -> & ->).
    exists c, rest. auto.
  - intros Hquiet. apply de_shout_token_quiet; [exact Haff|].
    unfold shouting. destruct Hquiet as [Hlen | [Hup | Hin]].
    + apply Nat.ltb_ge in Hlen. now rewrite Hlen.
    + rewrite Hup. now rewrite andb_false_r.
    + apply Hacr in Hin. rewrite Hin. now rewrite andb_false_r.
  - reflexivity.
  - vm_compute. intuition discriminate.
  - vm_compute. reflexivity.
  - vm_compute. reflexivity.
Qed.

Lemma de_shout_capitalizes_witness :
  (exists c rest,
     txt "VALVULA" = c :: rest
     /\ de_shout_token (txt "(" ++ txt "VALVULA" ++ txt "),")
        = txt "(" ++ c :: Py.lower rest)
  /\ de_shout_token (txt "(" ++ txt "PVC" ++ txt "),") = txt "(" ++ txt "PVC" ++ txt "),".
Proof.
  assert (Haff : affixes (txt "(") (txt "VALVULA") (txt "),")).
  { repeat split; try reflexivity;
      intros c Hc; vm_compute in Hc; injection Hc as <-; reflexivity. }
  assert (Haff' : affixes (txt "(") (txt "PVC") (txt "),")).
  { repeat split; try reflexivity;
      intros c Hc; vm_compute in Hc; injection Hc as <-; reflexivity. }
  split.
  - apply (proj1 (de_shout_capitalizes (txt "(") (txt "VALVULA") (txt "),") Haff)).
    + vm_compute. lia.
    + vm_compute. reflexivity.
    + vm_compute. intuition discriminate.
  - apply (proj1 (proj2 (de_shout_capitalizes (txt "(") (txt "PVC") (txt "),") Haff'))).
    right. right. vm_compute. auto.
Defined.

(** "PLG" does not come out of [de_shout] in capitals, as the docstring of
    [de_shout] has it. *)
Lemma de_shout_keeps_PLG_counterexample :
  de_shout (txt "VALVULA PVC 1/2 PLG") <> txt "Valvula PVC 1/2 PLG".
Proof. vm_compute. discriminate. Qed.

(** The punctuation after a capitalized token is not preserved. *)
Example de_shout_drops_trailing_punctuation :
  de_shout (txt "(LLAVE), MIXTA.") <> txt "(Llave), Mixta.".
Proof. vm_compute. discriminate. Qed.

(** ** The normaliser chain *)

Lemma split_words (s : text) : Forall word (Py.split s).
Proof.
  induction s as [|c s IH]; [constructor|].
  cbn [Py.split]. destruct (Py.is_space c) eqn:Hc; [exact IH|].
  destruct s as [|d s'].
  - repeat constructor; [discriminate | cbn; now rewrite Hc].
  - destruct (Py.is_space d) eqn:Hd.
    + constructor; [|exact IH]. split; [discriminate | cbn; now rewrite Hc].
    + destruct (Py.split (d :: s')) as [|w ws]; cbn.
      * repeat constructor; [discriminate | cbn; now rewrite Hc].
      * inversion IH as [|? ? [Hw1 Hw2] Hws]; subst.
        constructor; [|exact Hws].
        split; [discriminate | cbn; now rewrite Hc, Hw2].
Qed.

Lemma split_word_space (w rest : text) :
  word w -> Py.split (w ++ 32 :: rest) = w :: Py.split rest.
Proof.
  intros [Hne Hw]. induction w as [|c w IH]; [congruence|].
  cbn in Hw. apply andb_true_iff in Hw as [Hc Hw]. apply negb_true_iff in Hc.
  destruct w as [|d w'].
  - cbn. now rewrite Hc.
  - assert (Hd : Py.is_space d = false).
    { cbn in Hw. apply andb_true_iff in Hw as [Hd _]. now apply negb_true_iff. }
    change ((c :: d :: w') ++ 32 :: rest) with (c :: (d :: w') ++ 32 :: rest).
    cbn [Py.split]. rewrite Hc.
    change ((d :: w') ++ 32 :: rest) with (d :: (w' ++ 32 :: rest)) at 1.
    cbv iota. rewrite Hd.
    change (d :: (w' ++ 32 :: rest)) with ((d :: w') ++ 32 :: rest).
    rewrite IH by (discriminate || exact Hw). reflexivity.
Qed.

Lemma split_word (w : text) : word w -> Py.split w = [w].
Proof.
  intros [Hne Hw]. induction w as [|c w IH]; [congruence|].
  cbn in Hw. apply andb_true_iff in Hw as [Hc Hw]. apply negb_true_iff in Hc.
  cbn [Py.split]. rewrite Hc. destruct w as [|d w']; [reflexivity|].
  assert (Hd : Py.is_space d = false).
  { cbn in Hw. apply andb_true_iff in Hw as [Hd _]. now apply negb_true_iff. }
  rewrite Hd. rewrite IH by (discriminate || exact Hw). reflexivity.
Qed.

Lemma split_join (ws : list text) :
  Forall word ws -> Py.split (Py.join [32] ws) = ws.
Proof.
  induction 1 as [|w ws Hw Hws IH]; [reflexivity|].
  destruct ws as [|w' ws'].
  - cbn. now apply split_word.
  - change (Py.join [32] (w :: w' :: ws'))
      with (w ++ 32 :: Py.join [32] (w' :: ws')).
    rewrite split_word_space by exact Hw. now rewrite IH.
Qed.

(** Collapsing the white space twice is collapsing it once. *)
Lemma collapse_idempotent (s : text) : Py.collapse (Py.collapse s) = Py.collapse s.
Proof.
  unfold Py.collapse. now rewrite split_join by apply split_words.
Qed.

Lemma word_chars (w : text) (c : char) : word w -> c ∈ w -> Py.is_space c = false.
Proof.
  intros [_ Hw] Hc. rewrite forallb_forall in Hw.
  apply negb_true_iff, Hw. now apply list_elem_of_In.
Qed.

Lemma join_head (ws : list text) (c : char) :
  Forall word ws -> head (Py.join [32] ws) = Some c -> Py.is_space c = false.
Proof.
  intros Hws. destruct Hws as [|w ws Hw Hws]; [discriminate|].
  destruct w as [|d w]; [now destruct Hw|].
  intros Hc. assert (c = d) as ->.
  { destruct ws; cbn in Hc; congruence. }
  apply (word_chars _ _ Hw). now left.
Qed.

Lemma join_last (ws : list text) (c : char) :
  Forall word ws -> last (Py.join [32] ws) = Some c -> Py.is_space c = false.
Proof.
  induction 1 as [|w ws Hw Hws IH]; [discriminate|].
  destruct ws as [|w' ws'].
  - cbn [Py.join]. intros Hc. apply (word_chars _ _ Hw). now apply last_Some_elem_of.
  - change (Py.join [32] (w :: w' :: ws'))
      with (w ++ 32 :: Py.join [32] (w' :: ws')).
    rewrite last_app, last_cons.
    destruct (last (Py.join [32] (w' :: ws'))) as [y|] eqn:Hy.
    + intros [= <-]. now apply IH.
    + exfalso. apply last_None in Hy.
      inversion Hws as [|? ? [Hne _] _]; subst.
      destruct w'; [congruence|]. destruct ws'; discriminate.
Qed.

(** A collapsed text has no white space at either end. *)
Lemma strip_collapse (s : text) : Py.strip (Py.collapse s) = Py.collapse s.
Proof.
  unfold Py.strip, Py.collapse.
  rewrite lstrip_by_head by (intros c; apply join_head, split_words).
  apply rstrip_by_last. intros c. apply join_last, split_words.
Qed.

(** A substitution whose pattern matches nowhere leaves the text. *)
Lemma sub_from_no_match (ic : bool) (r : Re.regex) (repl s : text)
    (prev : option char) :
  Re.search_from ic r prev s = false -> Re.sub_from ic r repl prev s 0 = s.
Proof.
  revert prev. induction s as [|c s IH]; intros prev; cbn.
  - now destruct (Re.match_at ic r prev []).
  - destruct (Re.match_at ic r prev (c :: s)); [discriminate|].
    intros H. now rewrite IH.
Qed.

Lemma sub_no_match (ic : bool) (r : Re.regex) (repl s : text) :
  Re.search ic r s = false -> Re.sub ic r repl s = s.
Proof. apply sub_from_no_match. Qed.

Lemma replace_from_absent (old new s : text) :
  Py.contains old s = false -> Py.replace_from old new s 0 = s.
Proof.
  induction s as [|c s IH]; [reflexivity|].
  cbn [Py.contains Py.replace_from]. intros H.
  apply orb_false_iff in H as [-> H]. now rewrite IH.
Qed.

(** Replacing a text that does not occur changes nothing. *)
Lemma replace_absent (old new s : text) :
  Py.contains old s = false -> Py.replace old new s = s.
Proof.
  destruct old as [|a old]; [now destruct s|].
  apply replace_from_absent.
Qed.

Lemma sub_with_from_no_match (ic : bool) (r : Re.regex) (repl : text -> text)
    (s : text) (prev : option char) :
  Re.search_from ic r prev s = false -> Re.sub_with_from ic r repl prev s 0 = s.
Proof.
  revert prev. induction s as [|c s IH]; intros prev; cbn.
  - now destruct (Re.match_at ic r prev []).
  - destruct (Re.match_at ic r prev (c :: s)); [discriminate|].
    intros H. now rewrite IH.
Qed.

Lemma sub_with_no_match (ic : bool) (r : Re.regex) (repl : text -> text) (s : text) :
  Re.search ic r s = false -> Re.sub_with ic r repl s = s.
Proof. apply sub_with_from_no_match. Qed.

(** A memory whose entries were all applied has replacements that
    compile. *)
Lemma apply_all_compiles (transformations : memory) (t v : text) :
  apply_all t transformations = Ok v -> compiles transformations.
Proof.
  revert t. induction transformations as [|entry rest IH]; intros t H.
  - constructor.
  - cbn [apply_all] in H. apply bind_Ok in H as (out & Hone & Hrest).
    constructor; [|now apply (IH out)].
    unfold apply_one in Hone. destruct (Py.strip entry.1) as [|b base]; [now left|].
    apply bind_Ok in Hone as (template & Ht & _). right. eauto.
Qed.

Lemma apply_transformations_compiles (transformations : memory) (t v : text) :
  apply_transformations t transformations = Ok v ->
  t = [] \/ compiles transformations.
Proof.
  unfold apply_transformations. destruct t as [|c t]; [now left|].
  intros H. apply bind_Ok in H as (out & Hall & _). right.
  now apply (apply_all_compiles _ _ _ Hall).
Qed.

Lemma fold_left_fixed {A} (f : text -> A -> text) (l : list A) (u : text) :
  Forall (fun x => f u x = u) l -> fold_left f l u = u.
Proof.
  induction 1 as [|x l Hx Hl IH]; [reflexivity|].
  cbn. now rewrite Hx.
Qed.

Section Settled.
Variables (transformations : memory) (brand u : text).
Hypothesis collapsed : Py.collapse u = u.

Lemma apply_all_settled :
  memory_silent transformations u -> compiles transformations ->
  apply_all u transformations = Ok u.
Proof.
  intros H Hc. induction H as [|[original replacement] rest Hentry _ IH];
    [reflexivity|].
  apply Forall_cons in Hc as [Hone Hc].
  cbn [apply_all]. unfold apply_one at 1. cbn [fst snd] in *.
  destruct (Py.strip original) as [|b base] eqn:Hbase; [now apply IH|].
  destruct Hentry as [Hblank | Hsearch]; [discriminate|].
  destruct Hone as [Hblank | (template & ->)]; [discriminate|].
  rewrite res_bind_Ok, sub_with_no_match by exact Hsearch.
  now apply IH.
Qed.

Lemma apply_transformations_settled :
  memory_silent transformations u -> compiles transformations ->
  apply_transformations u transformations = Ok u.
Proof.
  intros H Hc. unfold apply_transformations.
  destruct u as [|c u'] eqn:Hu; [reflexivity|].
  rewrite <- Hu in *. rewrite apply_all_settled by assumption.
  rewrite res_bind_Ok. now rewrite collapsed.
Qed.

Lemma remove_brand_occurrences_settled :
  brand_absent brand u -> remove_brand_occurrences u brand = u.
Proof.
  intros H. unfold remove_brand_occurrences.
  destruct brand as [|b brand'] eqn:Hb; [reflexivity|].
  destruct u as [|c u'] eqn:Hu; [reflexivity|].
  rewrite <- Hb, <- Hu in *.
  destruct H as [H | (H1 & H2 & H3 & H4)]; [congruence|].
  rewrite (replace_absent _ _ _ H1), (replace_absent _ _ _ H2),
    (replace_absent _ _ _ H3), (replace_absent _ _ _ H4).
  rewrite strip_collapse. exact collapsed.
Qed.

Lemma de_shout_settled : no_shouting u -> de_shout u = u.
Proof.
  intros H. unfold de_shout.
  replace (List.map de_shout_token (Py.split u)) with (Py.split u); [exact collapsed|].
  unfold no_shouting in H. induction H as [|w ws Hw Hws IH]; [reflexivity|].
  cbn. now rewrite Hw, <- IH.
Qed.

Lemma remove_forbidden_terms_settled :
  no_forbidden_term u -> remove_forbidden_terms u = u.
Proof.
  intros H. unfold remove_forbidden_terms. destruct u as [|c u'] eqn:Hu; [reflexivity|].
  rewrite <- Hu in *. rewrite fold_left_fixed; [exact collapsed|].
  eapply Forall_impl; [exact H|].
  intros term Hsearch. now apply sub_no_match.
Qed.

Lemma remove_generic_para_phrases_settled :
  no_generic_tail u -> remove_generic_para_phrases u = u.
Proof.
  intros H. unfold remove_generic_para_phrases.
  destruct u as [|c u'] eqn:Hu; [reflexivity|].
  rewrite <- Hu in *. rewrite fold_left_fixed; [exact collapsed|].
  eapply Forall_impl; [exact H|].
  intros pattern Hsearch. now apply sub_no_match.
Qed.

End Settled.

(** C3, as the code has it: a second pass of the chain over the output of
    a first pass changes nothing when the first pass has left nothing to
    rewrite: no memory key, no form of the brand, no shouting token, no
    forbidden term and no generic tail is found in the output. *)
Theorem normalize_title_idempotent_when_settled
    (t : text) (transformations : memory) (brand u : text) :
  normalize_title t transformations brand = Ok u ->
  settled transformations brand u ->
  normalize_title u transformations brand = Ok u.
Proof.
  intros Hfirst (Hmem & Hbrand & Hshout & Hterm & Htail).
  unfold normalize_title in Hfirst.
  apply bind_Ok in Hfirst as (t1 & Ht1 & Hu). injection Hu as Hu.
  assert (Hcol : Py.collapse u = u) by (rewrite <- Hu; apply collapse_idempotent).
  destruct u as [|c0 u0] eqn:Hshape; [destruct brand; reflexivity|].
  rewrite <- Hshape in *.
  assert (Hc : compiles transformations).
  { destruct (apply_transformations_compiles _ _ _ Ht1) as [-> | Hc]; [|exact Hc].
    exfalso. cbn in Ht1. injection Ht1 as <-.
    destruct brand; cbn in Hu; congruence. }
  unfold normalize_title.
  rewrite (apply_transformations_settled _ _ Hcol Hmem Hc), res_bind_Ok.
  rewrite (remove_brand_occurrences_settled _ _ Hcol Hbrand).
  rewrite (de_shout_settled _ Hcol Hshout).
  rewrite (remove_forbidden_terms_settled _ Hcol Hterm).
  rewrite (remove_generic_para_phrases_settled _ Hcol Htail).
  now rewrite Hcol.
Qed.

Ltac by_computation :=
  match goal with
  | |- ?P => apply (@bool_decide_unpack P _); vm_compute; exact I
  end.

Lemma normalize_title_idempotent_when_settled_witness :
  normalize_title (txt "Valvula PVC 1/2 Plg") sample_memory (txt "Truper")
  = Ok (txt "Valvula PVC 1/2 Plg").
Proof.
  apply (normalize_title_idempotent_when_settled
           (txt "VALVULA PVC 1/2 PLG para hogar") sample_memory (txt "Truper")).
  { vm_compute. reflexivity. }
  split; [|split; [|split; [|split]]].
  - unfold memory_silent. by_computation.
  - right. repeat split; vm_compute; reflexivity.
  - unfold no_shouting. by_computation.
  - unfold no_forbidden_term. by_computation.
  - unfold no_generic_tail. by_computation.
Defined.

Example normalize_title_sample :
  normalize_title (txt "VALVULA PVC 1/2 PLG para hogar") sample_memory (txt "Truper")
  = Ok (txt "Valvula PVC 1/2 Plg").
Proof. vm_compute. reflexivity. Qed.

(** The chain is not idempotent: the generic tails are removed in the order
    of the pattern list, one pass each, so a tail uncovered by a later
    pattern is only removed by the next pass. *)
Lemma normalize_title_not_idempotent_counterexample :
  ~ chain_idempotent_on (txt "Tubo para plomeria para hogar") [] [].
Proof. unfold chain_idempotent_on. vm_compute. discriminate. Qed.

Example normalize_title_first_pass :
  normalize_title (txt "Tubo para plomeria para hogar") [] []
  = Ok (txt "Tubo para plomeria").
Proof. vm_compute. reflexivity. Qed.

Example normalize_title_second_pass :
  normalize_title (txt "Tubo para plomeria") [] [] = Ok (txt "Tubo").
Proof. vm_compute. reflexivity. Qed.

(** ** The batch coordinator *)

Lemma postprocess_key_Ok (transformations : memory) (brand : text)
    (d d' : dict) (key : text) :
  postprocess_key transformations brand d key = Ok d' ->
  normalized_value transformations brand (d !! key) (d' !! key)
  /\ forall k, k <> key -> d' !! k = d !! k.
Proof.
  unfold postprocess_key, normalized_value.
  destruct (d !! key) as [v|] eqn:Hd.
  - destruct v as [| | |t| |]; try (intros [= <-]; rewrite Hd; now split).
    intros H. apply bind_Ok in H as (u & Hu & [= <-]). split.
    + exists u. split; [exact Hu | apply lookup_insert_eq].
    + intros k Hk. now rewrite lookup_insert_ne by congruence.
  - intros [= <-]. rewrite Hd. now split.
Qed.

(** What the post-processing leaves: the three titles normalised, the
    other entries as they were. *)
Lemma postprocess_Ok (transformations : memory) (brand : text) (d d' : dict) :
  postprocess transformations brand d = Ok d' ->
  (forall k, k ∈ title_keys ->
             normalized_value transformations brand (d !! k) (d' !! k))
  /\ (forall k, k ∉ title_keys -> d' !! k = d !! k).
Proof.
  unfold postprocess. intros H.
  apply bind_Ok in H as (d1 & H1 & H). apply bind_Ok in H as (d2 & H2 & H3).
  apply postprocess_key_Ok in H1 as [V1 F1].
  apply postprocess_key_Ok in H2 as [V2 F2].
  apply postprocess_key_Ok in H3 as [V3 F3].
  split.
  - intros k Hk. unfold title_keys in Hk.
    apply elem_of_cons in Hk as [-> | Hk];
      [|apply elem_of_cons in Hk as [-> | Hk];
        [|apply elem_of_cons in Hk as [-> | Hk];
          [|now apply not_elem_of_nil in Hk]]].
    + rewrite F3, F2 by keys. exact V1.
    + rewrite F3 by keys. rewrite <- F1 by keys. exact V2.
    + rewrite <- F1, <- F2 by keys. exact V3.
  - intros k Hk.
    rewrite F3, F2, F1; [reflexivity| | |]; intros ->; apply Hk; unfold title_keys;
      repeat (apply list_elem_of_here || apply list_elem_of_further).
Qed.

Lemma postprocess_lookup (transformations : memory) (brand : text)
    (d d' : dict) (k : text) :
  postprocess transformations brand d = Ok d' ->
  k = txt "titulo_sistema" \/ k = txt "titulo_etiqueta" \/ k = txt "titulo_seo" ->
  normalized_value transformations brand (d !! k) (d' !! k).
Proof.
  intros H Hk. apply (proj1 (postprocess_Ok _ _ _ _ H)). unfold title_keys.
  destruct Hk as [-> | [-> | ->]];
    repeat (apply list_elem_of_here || apply list_elem_of_further).
Qed.

(** A memory whose replacements compile never makes the post-processing
    raise. *)
Lemma apply_all_total (transformations : memory) (t : text) :
  compiles transformations -> exists v, apply_all t transformations = Ok v.
Proof.
  intros H. revert t. induction H as [|[original replacement] rest Hone _ IH];
    intros t; [cbn; eauto|].
  cbn [apply_all]. unfold apply_one at 1. cbn [fst snd] in *.
  destruct (Py.strip original) as [|b base]; [apply IH|].
  destruct Hone as [Hblank | (template & ->)]; [discriminate|].
  rewrite res_bind_Ok. apply IH.
Qed.




(** A record that is emitted is the post-processed object, validated, with
    the metadata attached. *)
Lemma process_record_Ok (transformations : memory) (api_key : text)
    (enable_ai_validation : bool) (ask : agent) (idx : nat) (p : product)
    (r out : json) :
  process_record transformations api_key enable_ai_validation ask idx p r = Ok out ->
  exists d d0 d' meta,
    r = JObj d
    /\ postprocess transformations (Py.strip (marca p)) d = Ok d0
    /\ validate_result api_key enable_ai_validation ask idx p d0 = Ok (d', meta)
    /\ out = JObj (<[txt "validation" := metadata_json meta]> d').
Proof.
  unfold process_record. destruct r as [| | | | |d]; try discriminate.
  intros H. apply bind_Ok in H as (d0 & Hp & H).
  apply bind_Ok in H as ([d' meta] & Hv & H).
  injection H as <-. eauto 8.
Qed.

(** C2, as the code has it: the [titulo_sistema] and the [titulo_etiqueta]
    of an emitted record are the strings of the engine after the normaliser
    chain, of whatever length; no step shortens them. *)
Theorem emitted_titles_are_normalized
    (transformations : memory) (api_key : text) (enable_ai_validation : bool)
    (ask : agent) (idx : nat) (p : product) (result : dict) (out : json) :
  process_record transformations api_key enable_ai_validation ask idx p (JObj result)
  = Ok out ->
  exists emitted : dict,
    out = JObj emitted
    /\ forall key t,
         key = txt "titulo_sistema" \/ key = txt "titulo_etiqueta" ->
         result !! key = Some (JStr t) ->
         exists u,
           normalize_title t transformations (Py.strip (marca p)) = Ok u
           /\ emitted !! key = Some (JStr u).
Proof.
  intros H.
  apply process_record_Ok in H as (d & d0 & d' & meta & [= <-] & Hp & Hv & ->).
  eexists. split; [reflexivity|].
  intros key t Hkey Hres.
  assert (Hne1 : key <> txt "validation") by (destruct Hkey as [-> | ->]; keys).
  assert (Hne2 : key <> txt "titulo_seo") by (destruct Hkey as [-> | ->]; keys).
  rewrite lookup_insert_ne by congruence.
  rewrite (validate_result_frame _ _ _ _ _ _ _ _ Hv key Hne2).
  pose proof (postprocess_lookup _ _ _ _ key Hp) as Hval.
  unfold normalized_value in Hval. rewrite Hres in Hval. apply Hval. tauto.
Qed.

Lemma emitted_titles_are_normalized_witness :
  exists emitted : dict,
    JObj (<[txt "validation" := metadata_json passed_metadata]> long_result)
    = JObj emitted
    /\ forall key t,
         key = txt "titulo_sistema" \/ key = txt "titulo_etiqueta" ->
         long_result !! key = Some (JStr t) ->
         exists u,
           normalize_title t [] (Py.strip (marca plain_product)) = Ok u
           /\ emitted !! key = Some (JStr u).
Proof.
  apply (emitted_titles_are_normalized [] (txt "key") false failing_agent 0
           plain_product long_result).
  vm_compute. reflexivity.
Defined.

(** A system title of 52 characters is emitted as it is. *)
Lemma titles_not_shortened_counterexample :
  ~ Forall titles_within_limits
      (process_batch_with_validation [] (txt "key") true failing_agent
         [plain_product] (txt "pattern") (Parsed (JArr [JObj long_result]))).
Proof.
  intros H.
  assert (E : process_batch_with_validation [] (txt "key") true failing_agent
                [plain_product] (txt "pattern") (Parsed (JArr [JObj long_result]))
              = [JObj (<[txt "validation" := metadata_json passed_metadata]>
                         long_result)])
    by (vm_compute; reflexivity).
  rewrite E in H. apply Forall_inv in H.
  destruct (H _ eq_refl) as [H40 _].
  assert (Hlen : (length long_title <= 40)%nat).
  { apply H40. vm_compute. reflexivity. }
  vm_compute in Hlen. lia.
Qed.

Example long_title_length : length long_title = 52%nat.
Proof. reflexivity. Qed.

Lemma process_pairs_Ok (transformations : memory) (api_key : text)
    (enable_ai_validation : bool) (ask : agent)
    (pairs : list (product * json)) (idx : nat) (out : list json) :
  process_pairs transformations api_key enable_ai_validation ask idx pairs = Ok out ->
  length out = length pairs
  /\ forall k p r, pairs !! k = Some (p, r) ->
       exists o, out !! k = Some o
                 /\ process_record transformations api_key enable_ai_validation ask
                      (idx + k) p r = Ok o.
Proof.
  revert idx out. induction pairs as [|[p r] pairs IH]; intros idx out.
  - intros [= <-]. split; [reflexivity|]. intros k p r Hk. discriminate.
  - cbn [process_pairs]. intros H.
    apply bind_Ok in H as (o & Ho & H). apply bind_Ok in H as (os & Hos & H).
    injection H as <-. destruct (IH _ _ Hos) as [Hlen Hall].
    split; [cbn; now rewrite Hlen|].
    intros [|k] p' r' Hk; cbn in Hk.
    + injection Hk as <- <-. exists o. split; [reflexivity|].
      now rewrite Nat.add_0_r.
    + destruct (Hall k p' r' Hk) as (o' & Ho' & Hrec).
      exists o'. split; [exact Ho'|].
      now replace (idx + S k)%nat with (S idx + k)%nat by lia.
Qed.

Lemma zip_lookup {A B} (l : list A) (k : list B) (i : nat) (a : A) (b : B) :
  zip l k !! i = Some (a, b) <-> l !! i = Some a /\ k !! i = Some b.
Proof.
  revert k i. induction l as [|x l IH]; intros [|y k] [|i]; cbn;
    try (split; [discriminate | intros [? ?]; discriminate]).
  - split; [intros [= -> ->]; auto | intros [[= ->] [= ->]]; reflexivity].
  - apply IH.
Qed.











(** A replacement [re] does not compile empties the batch, whatever the
    reply: the template is compiled, and raises, for the first title. *)
Example bad_replacement_empties_batch :
  process_batch_with_validation [(txt "zzz", [97; 92])] (txt "key") false
    failing_agent [plain_product; second_product] (txt "pattern")
    (Parsed (JArr [JObj long_result])) = [].
Proof. vm_compute. reflexivity. Qed.


Example short_reply_nothing_failed :
  (run_batch [] (txt "key") true failing_agent true true true
     [plain_product; second_product] (txt "pattern")
     (Parsed (JArr [JObj long_result])) [] zero_stats []).2 = [].
Proof. vm_compute. reflexivity. Qed.

Example short_reply_one_result :
  length (process_batch_with_validation [] (txt "key") true failing_agent
            [plain_product; second_product] (txt "pattern")
            (Parsed (JArr [JObj long_result]))) = 1%nat.
Proof. vm_compute. reflexivity. Qed.

(** ** Worked examples *)

Example split_example :
  Py.split (txt "  Tubo   PVC 1/2 ") = [txt "Tubo"; txt "PVC"; txt "1/2"].
Proof. reflexivity. Qed.

Example replace_example : Py.replace (txt "ab") [] (txt "aabbab") = txt "ab".
Proof. reflexivity. Qed.

Example normalize_tax_value_example :
  normalize_tax_value (Some (txt " Plomeria (0024) ")) = txt "PLOMERIA".
Proof. vm_compute. reflexivity. Qed.

Example apply_transformations_example :
  apply_transformations (txt "Tubo 2 Pulgadas  x 1 pulgada") sample_memory
  = Ok (txt "Tubo 2 plg x 1 plg").
Proof. vm_compute. reflexivity. Qed.

(** A replacement with a group reference keeps the plural; one with a bad
    escape, or with the name of a group the pattern has not, raises, also
    where the key is not in the text. *)
Example apply_transformations_group :
  apply_transformations (txt "Tubo 2 Pulgadas x 1 pulgada")
    [(txt "pulgada", txt "plg" ++ [92; 49])]
  = Ok (txt "Tubo 2 plgs x 1 plg").
Proof. vm_compute. reflexivity. Qed.

Example apply_transformations_bad_escape :
  apply_transformations (txt "Tubo") [(txt "zzz", [97; 92])] = Raise ReError.
Proof. vm_compute. reflexivity. Qed.

Example apply_transformations_unknown_group :
  apply_transformations (txt "Tubo") [(txt "zzz", 92 :: txt "g<a>")] = Raise IndexError.
Proof. vm_compute. reflexivity. Qed.

Example remove_forbidden_terms_example :
  remove_forbidden_terms (txt "Aceite Penetrante  WD") = txt "Aceite WD".
Proof. vm_compute. reflexivity. Qed.

Example remove_generic_para_phrases_example :
  remove_generic_para_phrases (txt "Llave mixta para gas para el  Hogar")
  = txt "Llave mixta para gas".
Proof. vm_compute. reflexivity. Qed.

Example measurements_example :
  Re.findall false measurement (txt "BOMBA SUM A.SUCIA 1 1/2HP 25mm")
  = [txt "1/2HP"; txt "25mm"].
Proof. vm_compute. reflexivity. Qed.

(** The first end-to-end scenario: the quick validator flags the added
    "para", the agent corrects, the record ends corrected. *)
Example quick_validation_scenario :
  quick_validation_rules (txt "BOMBA SUM A.SUCIA 1 1/2HP")
    (JStr (txt "Bomba Sumergible para Agua Sucia 1 1/2 HP"))
  = Ok sample_quick_issues.
Proof. vm_compute. reflexivity. Qed.

Example corrected_scenario :
  validate_result (txt "key") true correcting_agent 0 sample_product sample_result
  = Ok (<[txt "titulo_seo" := JStr (txt "Bomba Sumergible Agua Sucia 1 1/2 HP")]>
          sample_result,
        {| validation_method := txt "ai_validated";
           validation_status := txt "corrected";
           issues_found := List.map JStr sample_quick_issues ++ [JStr (txt "para")];
           corrected := true |}).
Proof. vm_compute. reflexivity. Qed.

(** The second scenario: the generic phrase is flagged. *)
Example quick_validation_cinta :
  quick_validation_rules (txt "CINTA TEFLON 1/2X7M")
    (JStr (txt "Cinta de Teflon 1/2 plg x 7 m para sellado de roscas"))
  = Ok [ txt "Added generic phrase not in original: 'para sellado de roscas'";
         txt "Added generic phrase not in original: 'para sellado'" ].
Proof. vm_compute. reflexivity. Qed.

(** * Further properties of the code *)

(** ** [find_pattern_row] *)

(** The score list of a non-empty candidate list has a first maximum, and
    it is the position of a candidate. *)
Lemma idxmax_lookup {A} (f : A -> nat) (cands : list A) :
  cands <> [] ->
  exists k r, idxmax (f <$> cands) = Some k /\ cands !! k = Some r.
Proof.
  intros Hne.
  assert (Hmax : max_list (f <$> cands) ∈ f <$> cands).
  { apply max_list_elem_of. destruct cands; [congruence | discriminate]. }
  destruct (list_find_elem_of (fun x => x = max_list (f <$> cands)) _ _ Hmax eq_refl)
    as [[k m] Hfind].
  unfold idxmax. rewrite Hfind. cbn.
  apply list_find_Some in Hfind as (Hk & _ & _).
  rewrite list_lookup_fmap in Hk.
  destruct (cands !! k) as [r|] eqn:Hr; [eauto | discriminate].
Qed.

(** Whatever the category, the row returned is one of the candidates. *)
Lemma find_pattern_row_among_candidates (nomenclature_df : list rule)
    (dept fam cat : option text) :
  let cands :=
    List.filter (is_candidate (normalize_tax_value dept) (normalize_tax_value fam))
      nomenclature_df in
  match find_pattern_row nomenclature_df dept fam cat with
  | Some r => r ∈ cands
  | None => cands = []
  end.
Proof.
  intros cands. unfold find_pattern_row. fold cands.
  destruct cands as [|first rest] eqn:Hc; [reflexivity|].
  destruct (List.filter _ (first :: rest)) as [|r rs] eqn:Hcat.
  - destruct (Py.split (normalize_tax_value cat)) as [|w ws].
    + apply list_elem_of_here.
    + destruct (idxmax_lookup
                  (fun r => score (words (normalize_tax_value cat)) (Categoria r))
                  (first :: rest) ltac:(discriminate)) as (k & r & -> & Hr).
      cbn [mbind option_bind]. rewrite Hr. apply list_elem_of_lookup. eauto.
  - assert (In r (List.filter (has_cat (normalize_tax_value cat)) (first :: rest)))
      as Hin by (rewrite Hcat; now left).
    apply List.filter_In in Hin as [Hin _]. now apply list_elem_of_In.
Qed.

(** X1: [find_pattern_row] returns [None] exactly when no row of the sheet
    has the normalized department and family of the query, whatever the
    category asked for. *)
Theorem find_pattern_row_None_iff
    (nomenclature_df : list rule) (dept fam cat : option text) :
  find_pattern_row nomenclature_df dept fam cat = None
  <-> forall r, r ∈ nomenclature_df ->
        is_candidate (normalize_tax_value dept) (normalize_tax_value fam) r = false.
Proof.
  pose proof (find_pattern_row_among_candidates nomenclature_df dept fam cat) as H.
  cbv zeta in H. split.
  - intros Hnone r Hr. rewrite Hnone in H.
    destruct (is_candidate _ _ r) eqn:Hc; [|reflexivity].
    assert (In r (List.filter
                    (is_candidate (normalize_tax_value dept) (normalize_tax_value fam))
                    nomenclature_df)) as Hin.
    { apply List.filter_In. split; [now apply list_elem_of_In | exact Hc]. }
    rewrite H in Hin. destruct Hin.
  - intros Hall.
    destruct (find_pattern_row nomenclature_df dept fam cat) as [r|]; [|reflexivity].
    apply list_elem_of_In, List.filter_In in H as [Hin Hc].
    apply list_elem_of_In in Hin. rewrite (Hall r Hin) in Hc. discriminate.
Qed.

(** X2: a row returned by [find_pattern_row] is a row of the sheet whose
    normalized department and family are those of the query: the fallbacks
    never leave the department and family asked for. *)
Theorem find_pattern_row_sound
    (nomenclature_df : list rule) (dept fam cat : option text) (r : rule) :
  find_pattern_row nomenclature_df dept fam cat = Some r ->
  r ∈ nomenclature_df
  /\ normalize_tax_value (Some (Departamento r)) = normalize_tax_value dept
  /\ normalize_tax_value (Some (Familia r)) = normalize_tax_value fam.
Proof.
  intros Hr.
  pose proof (find_pattern_row_among_candidates nomenclature_df dept fam cat) as H.
  cbv zeta in H. rewrite Hr in H.
  apply list_elem_of_In, List.filter_In in H as [Hin Hc].
  apply andb_true_iff in Hc as [Hd Hf].
  split; [now apply list_elem_of_In|].
  split; now apply text_eqb_eq.
Qed.

Lemma find_pattern_row_sound_witness :
  sample_rule "Codos PVC" "B" ∈ sample_rules
  /\ normalize_tax_value (Some (Departamento (sample_rule "Codos PVC" "B")))
     = normalize_tax_value (Some (txt "Plomeria"))
  /\ normalize_tax_value (Some (Familia (sample_rule "Codos PVC" "B")))
     = normalize_tax_value (Some (txt "Tuberia")).
Proof.
  apply (find_pattern_row_sound sample_rules
           (Some (txt "Plomeria")) (Some (txt "Tuberia")) (Some (txt "pvc"))).
  vm_compute. reflexivity.
Defined.

(** X3: when the category of the query has no word (it is empty, missing or
    only a code in parentheses) and no candidate has an empty normalized
    category either, the first candidate of the sheet is returned, without
    any scoring. *)
Theorem find_pattern_row_empty_category
    (nomenclature_df : list rule) (dept fam cat : option text) :
  let candidate :=
    is_candidate (normalize_tax_value dept) (normalize_tax_value fam) in
  Py.split (normalize_tax_value cat) = [] ->
  (exists r0, r0 ∈ nomenclature_df /\ candidate r0 = true) ->
  (forall r', r' ∈ nomenclature_df -> candidate r' = true ->
              normalize_tax_value (Some (Categoria r')) <> normalize_tax_value cat) ->
  exists r i,
    find_pattern_row nomenclature_df dept fam cat = Some r
    /\ nomenclature_df !! i = Some r
    /\ candidate r = true
    /\ forall j r', (j < i)%nat -> nomenclature_df !! j = Some r' ->
                    candidate r' = false.
Proof.
  intros candidate Hsplit (r0 & Hin0 & Hc0) Hnoexact.
  unfold find_pattern_row. fold candidate.
  destruct (List.filter candidate nomenclature_df) as [|first rest] eqn:Hcands.
  { exfalso. assert (In r0 (List.filter candidate nomenclature_df)) as Hin.
    { apply List.filter_In. split; [now apply list_elem_of_In | exact Hc0]. }
    rewrite Hcands in Hin. destruct Hin. }
  destruct (List.filter _ (first :: rest)) as [|x xs] eqn:Hcat.
  - rewrite Hsplit.
    destruct (filter_head candidate _ _ _ Hcands) as (i & Hi & Hc & Hmin).
    exists first, i. auto.
  - exfalso.
    assert (In x (List.filter (has_cat (normalize_tax_value cat)) (first :: rest)))
      as Hx by (rewrite Hcat; now left).
    apply List.filter_In in Hx as [Hx Hhas]. rewrite <- Hcands in Hx.
    apply List.filter_In in Hx as [Hx Hc]. apply list_elem_of_In in Hx.
    apply (Hnoexact x Hx Hc). now apply text_eqb_eq.
Qed.

Lemma find_pattern_row_empty_category_witness :
  exists r i,
    find_pattern_row sample_rules
      (Some (txt "Plomeria")) (Some (txt "Tuberia")) (Some (txt " (0031) ")) = Some r
    /\ sample_rules !! i = Some r
    /\ is_candidate (txt "PLOMERIA") (txt "TUBERIA") r = true
    /\ forall j r', (j < i)%nat -> sample_rules !! j = Some r' ->
                    is_candidate (txt "PLOMERIA") (txt "TUBERIA") r' = false.
Proof.
  apply (find_pattern_row_empty_category sample_rules
           (Some (txt "Plomeria")) (Some (txt "Tuberia")) (Some (txt " (0031) "))).
  - vm_compute. reflexivity.
  - exists (sample_rule "Codos PVC" "B"). split; [|vm_compute; reflexivity].
    apply list_elem_of_In. vm_compute. auto.
  - intros r' Hin _. apply list_elem_of_In in Hin.
    repeat (destruct Hin as [<- | Hin]; [vm_compute; discriminate|]).
    destruct Hin.
Defined.

(** ** The validation of one result *)

(** The four ways a validation returns. *)
Lemma validate_result_table (api_key : text) (enable_ai_validation : bool)
    (ask : agent) (idx : nat) (p : product) (result result' : dict)
    (meta : validation_metadata) :
  let original_title := titulo_sistema_existente p in
  let generated_seo := default (JStr []) (result !! txt "titulo_seo") in
  validate_result api_key enable_ai_validation ask idx p result = Ok (result', meta) ->
  exists quick_issues,
    quick_validation_rules original_title generated_seo = Ok quick_issues
    /\ ((quick_issues = [] /\ result' = result /\ meta = passed_metadata)
        \/ (quick_issues <> [] /\ enable_ai_validation = false
            /\ result' = result /\ meta = rules_metadata quick_issues)
        \/ (quick_issues <> [] /\ enable_ai_validation = true
            /\ exists (ai_validation : dict) (ai_issues : list json),
                 validate_with_agent original_title generated_seo api_key
                   (ask idx original_title generated_seo api_key) = JObj ai_validation
                 /\ default (JArr []) (ai_validation !! txt "issues_found")
                    = JArr ai_issues
                 /\ let invalid :=
                      negb (truthy (default (JBool true)
                                      (ai_validation !! txt "is_valid"))) in
                    result' = (if invalid
                               then <[txt "titulo_seo" :=
                                        default generated_seo
                                          (ai_validation !! txt "corrected_title")]>
                                      result
                               else result)
                    /\ meta = {| validation_method := txt "ai_validated";
                                 validation_status :=
                                   if invalid then txt "corrected"
                                   else txt "passed_with_warnings";
                                 issues_found :=
                                   List.map JStr quick_issues ++ ai_issues;
                                 corrected := invalid |})).
Proof.
  intros original_title generated_seo H. unfold validate_result in H.
  apply bind_Ok in H as (quick_issues & Hq & H).
  exists quick_issues. split; [exact Hq|].
  destruct quick_issues as [|i issues].
  { injection H as <- <-. left. auto. }
  right. destruct enable_ai_validation.
  2:{ injection H as <- <-. left. repeat split; discriminate || reflexivity. }
  right. split; [discriminate|]. split; [reflexivity|].
  fold original_title generated_seo in H.
  destruct (validate_with_agent _ _ _ _) as [| | | | |ai_validation] eqn:Hv;
    try discriminate.
  destruct (default (JArr []) (ai_validation !! txt "issues_found"))
    as [| | | |ai_issues|] eqn:Hissues; try discriminate.
  injection H as <- <-. exists ai_validation, ai_issues. auto.
Qed.

(** X4: the metadata of a validated record is always one of four rows:
    none/passed, rules_only/warnings, ai_validated/passed_with_warnings and
    ai_validated/corrected.  The status is "passed" exactly when no issue is
    listed, the flag [corrected] is set exactly for the status "corrected",
    "rules_only" only occurs with AI validation off and "ai_validated" only
    with it on, and the issues of the quick check always come first in the
    list of issues. *)
Theorem validation_metadata_rows
    (api_key : text) (enable_ai_validation : bool) (ask : agent)
    (idx : nat) (p : product) (result result' : dict) (meta : validation_metadata) :
  validate_result api_key enable_ai_validation ask idx p result = Ok (result', meta) ->
  ((validation_method meta, validation_status meta)
     ∈ [ (txt "none", txt "passed"); (txt "rules_only", txt "warnings");
         (txt "ai_validated", txt "passed_with_warnings");
         (txt "ai_validated", txt "corrected") ])
  /\ (validation_status meta = txt "passed" <-> issues_found meta = [])
  /\ (corrected meta = true <-> validation_status meta = txt "corrected")
  /\ (validation_method meta = txt "rules_only" -> enable_ai_validation = false)
  /\ (validation_method meta = txt "ai_validated" -> enable_ai_validation = true)
  /\ exists quick_issues later,
       quick_validation_rules (titulo_sistema_existente p)
         (default (JStr []) (result !! txt "titulo_seo")) = Ok quick_issues
       /\ issues_found meta = List.map JStr quick_issues ++ later.
Proof.
  intros H.
  destruct (validate_result_table _ _ _ _ _ _ _ _ H) as (quick_issues & Hq & Hrows).
  assert (Hrow :
    (meta = passed_metadata /\ quick_issues = [])
    \/ (meta = rules_metadata quick_issues /\ quick_issues <> []
        /\ enable_ai_validation = false)
    \/ (exists (ai_issues : list json) (invalid : bool),
          quick_issues <> [] /\ enable_ai_validation = true
          /\ meta = {| validation_method := txt "ai_validated";
                       validation_status :=
                         if invalid then txt "corrected"
                         else txt "passed_with_warnings";
                       issues_found := List.map JStr quick_issues ++ ai_issues;
                       corrected := invalid |})).
  { destruct Hrows as [(-> & _ & ->) | [(Hne & -> & _ & ->) | (Hne & -> & Hai)]];
      [left; auto | right; left; auto | right; right].
    destruct Hai as (ai_validation & ai_issues & _ & _ & _ & ->). eauto. }
  clear Hrows H.
  destruct Hrow as [[-> ->] | [(-> & Hne & ->) | (ai_issues & invalid & Hne & -> & ->)]].
  - split; [apply list_elem_of_here|].
    split; [split; reflexivity|].
    split; [split; intros E; vm_compute in E; discriminate|].
    split; [intros E; vm_compute in E; discriminate|].
    split; [intros E; vm_compute in E; discriminate|].
    exists [], []. auto.
  - destruct quick_issues as [|i issues]; [congruence|].
    split; [apply list_elem_of_further, list_elem_of_here|].
    split; [split; intros E; vm_compute in E; discriminate|].
    split; [split; intros E; vm_compute in E; discriminate|].
    split; [reflexivity|].
    split; [intros E; vm_compute in E; discriminate|].
    exists (i :: issues), []. split; [exact Hq|]. cbn. now rewrite app_nil_r.
  - destruct quick_issues as [|i issues]; [congruence|].
    split.
    { destruct invalid; cbn.
      - do 3 apply list_elem_of_further. apply list_elem_of_here.
      - do 2 apply list_elem_of_further. apply list_elem_of_here. }
    split; [split; intros E; [destruct invalid; vm_compute in E|]; discriminate|].
    split; [destruct invalid; split; intros E; try reflexivity;
            vm_compute in E; discriminate|].
    split; [intros E; vm_compute in E; discriminate|].
    split; [reflexivity|].
    exists (i :: issues), ai_issues. auto.
Qed.

Lemma validation_metadata_rows_witness :
  (txt "ai_validated", txt "corrected")
    ∈ [ (txt "none", txt "passed"); (txt "rules_only", txt "warnings");
        (txt "ai_validated", txt "passed_with_warnings");
        (txt "ai_validated", txt "corrected") ].
Proof.
  refine (proj1 (validation_metadata_rows (txt "key") true correcting_agent
            0 sample_product sample_result
            (<[txt "titulo_seo" := JStr (txt "Bomba Sumergible Agua Sucia 1 1/2 HP")]>
               sample_result)
            {| validation_method := txt "ai_validated";
               validation_status := txt "corrected";
               issues_found := List.map JStr sample_quick_issues ++ [JStr (txt "para")];
               corrected := true |} _)).
  vm_compute. reflexivity.
Defined.

(** X5: the correction agent is only consulted for a record whose quick
    check found issues, and only with AI validation on: with validation off
    the results of a whole batch are the same whatever the agent would
    answer, and so is, with validation on, the validation of a record whose
    quick check found nothing. *)
Theorem agent_only_consulted_on_issues
    (transformations : memory) (api_key : text) (ask ask' : agent) :
  (forall products_batch nomenclature_pattern generation,
     process_batch_with_validation transformations api_key false ask
       products_batch nomenclature_pattern generation
     = process_batch_with_validation transformations api_key false ask'
         products_batch nomenclature_pattern generation)
  /\ (forall idx p result,
        quick_validation_rules (titulo_sistema_existente p)
          (default (JStr []) (result !! txt "titulo_seo")) = Ok [] ->
        validate_result api_key true ask idx p result
        = validate_result api_key true ask' idx p result).
Proof.
  split.
  - intros products_batch nomenclature_pattern generation.
    unfold process_batch_with_validation, process_batch_body.
    destruct products_batch; [reflexivity|].
    destruct generation as [e|[]]; reflexivity.
  - intros idx p result Hq. unfold validate_result. now rewrite Hq.
Qed.

Lemma agent_only_consulted_on_issues_witness :
  validate_result (txt "key") true failing_agent 0 plain_product long_result
  = validate_result (txt "key") true correcting_agent 0 plain_product long_result.
Proof.
  apply (proj2 (agent_only_consulted_on_issues [] (txt "key")
                  failing_agent correcting_agent)).
  vm_compute. reflexivity.
Defined.

(** One record that raises makes the loop raise. *)
Lemma process_pairs_Raise (transformations : memory) (api_key : text)
    (enable_ai_validation : bool) (ask : agent)
    (pairs : list (product * json)) (idx k : nat) (p : product) (r : json) (e : exn) :
  pairs !! k = Some (p, r) ->
  process_record transformations api_key enable_ai_validation ask (idx + k) p r
  = Raise e ->
  exists e',
    process_pairs transformations api_key enable_ai_validation ask idx pairs = Raise e'.
Proof.
  revert idx k. induction pairs as [|[p0 r0] pairs IH]; intros idx k Hk Hr;
    [discriminate|].
  cbn [process_pairs]. destruct k as [|k]; cbn in Hk.
  - injection Hk as -> ->. rewrite Nat.add_0_r in Hr. rewrite Hr. cbn. eauto.
  - destruct (process_record _ _ _ _ idx p0 r0) as [o|e0]; [|cbn; eauto].
    rewrite res_bind_Ok.
    replace (idx + S k)%nat with (S idx + k)%nat in Hr by lia.
    destruct (IH (S idx) k Hk Hr) as (e' & ->). cbn. eauto.
Qed.

(** A batch without results leaves the caller's lists and statistics as
    they were. *)
Lemma run_batch_no_results (transformations : memory) (api_key : text)
    (enable_ai_validation : bool) (ask : agent)
    (want_sistema want_etiqueta want_seo : bool)
    (products_batch : list product) (nomenclatura : text) (generation : reply)
    (results : list dict) (st : stats) (failed_products : list failed_product) :
  process_batch_with_validation transformations api_key enable_ai_validation ask
    products_batch nomenclatura generation = [] ->
  run_batch transformations api_key enable_ai_validation ask
    want_sistema want_etiqueta want_seo products_batch nomenclatura generation
    results st failed_products
  = (results, st, failed_products).
Proof.
  intros H. unfold run_batch. rewrite H.
  now destruct products_batch.
Qed.

(** X6: a batch is all or nothing.  If the processing of one paired record
    raises, the batch returns no result at all, also for the records that
    were processed before it, and the caller then records nothing for it:
    no row, no statistics, no failed product.  A record raises when its
    element of the reply is not an object, when the post-processing of its
    titles raises (a replacement of the memory does not compile), or when
    the agent, consulted for it, answers with a value that is not an
    object. *)
Theorem one_bad_record_empties_batch
    (transformations : memory) (api_key : text) (enable_ai_validation : bool)
    (ask : agent) (products_batch : list product) (nomenclature_pattern : text)
    (batch_results : list json) (k : nat) (p : product) (r : json) :
  products_batch !! k = Some p ->
  batch_results !! k = Some r ->
  ((forall d : dict, r <> JObj d)
   \/ (exists (d : dict) e,
         r = JObj d
         /\ postprocess transformations (Py.strip (marca p)) d = Raise e)
   \/ exists (d d0 : dict) i issues v,
        r = JObj d
        /\ postprocess transformations (Py.strip (marca p)) d = Ok d0
        /\ enable_ai_validation = true
        /\ (let seo := default (JStr []) (d0 !! txt "titulo_seo") in
            quick_validation_rules (titulo_sistema_existente p) seo = Ok (i :: issues)
            /\ ask k (titulo_sistema_existente p) seo api_key = Parsed v)
        /\ forall a : dict, v <> JObj a) ->
  (exists e,
     process_record transformations api_key enable_ai_validation ask k p r = Raise e)
  /\ process_batch_with_validation transformations api_key enable_ai_validation ask
       products_batch nomenclature_pattern (Parsed (JArr batch_results)) = []
  /\ forall want_sistema want_etiqueta want_seo results st failed_products,
       run_batch transformations api_key enable_ai_validation ask
         want_sistema want_etiqueta want_seo products_batch nomenclature_pattern
         (Parsed (JArr batch_results)) results st failed_products
       = (results, st, failed_products).
Proof.
  intros Hp Hr Hbad.
  cut ((exists e,
          process_record transformations api_key enable_ai_validation ask k p r
          = Raise e)
       /\ process_batch_with_validation transformations api_key enable_ai_validation
            ask products_batch nomenclature_pattern (Parsed (JArr batch_results))
          = []).
  { intros [H1 H2]. split; [exact H1|]. split; [exact H2|].
    intros. now apply run_batch_no_results. }
  assert (Hraise : exists e,
             process_record transformations api_key enable_ai_validation ask k p r
             = Raise e).
  { destruct Hbad as [Hno | [(d & e & -> & Hpost)
                               | (d & d0 & i & issues & v & -> & Hpost & -> & [Hq Hask] & Hv)]].
    - unfold process_record. destruct r; eauto. now destruct (Hno d).
    - unfold process_record. rewrite Hpost. cbn. eauto.
    - unfold process_record. rewrite Hpost, res_bind_Ok. unfold validate_result.
      rewrite Hq, res_bind_Ok, Hask. cbn [validate_with_agent].
      destruct v as [| | | | |a]; cbn; eauto. now destruct (Hv a). }
  split; [exact Hraise|]. destruct Hraise as (e & He).
  unfold process_batch_with_validation, process_batch_body.
  destruct products_batch as [|p0 rest] eqn:Hb; [reflexivity|]. rewrite <- Hb in *.
  assert (Hz : zip products_batch batch_results !! k = Some (p, r))
    by now apply zip_lookup.
  destruct (process_pairs_Raise transformations api_key enable_ai_validation ask
              _ 0 k p r e Hz He) as (e' & ->).
  reflexivity.
Qed.

Lemma one_bad_record_empties_batch_witness :
  process_batch_with_validation [] (txt "key") true failing_agent
    [plain_product; second_product] (txt "pattern")
    (Parsed (JArr [JObj long_result; JStr (txt "n/a")])) = [].
Proof.
  refine (proj1 (proj2 (one_bad_record_empties_batch [] (txt "key") true
            failing_agent [plain_product; second_product] (txt "pattern")
            [JObj long_result; JStr (txt "n/a")] 1 second_product
            (JStr (txt "n/a")) eq_refl eq_refl _))).
  left. intros d. discriminate.
Defined.

(** X7: when the call of the generation engine fails, or its reply decodes
    to something other than an array, or the batch is empty, the batch
    returns no result and the caller records nothing: its results, its
    statistics and its failed products are left as they were. *)
Theorem failed_generation_leaves_no_trace
    (transformations : memory) (api_key : text) (enable_ai_validation : bool)
    (ask : agent) (products_batch : list product) (nomenclature_pattern : text)
    (generation : reply) :
  products_batch = []
  \/ (exists e, generation = Failed e)
  \/ (exists v, generation = Parsed v /\ forall l, v <> JArr l) ->
  process_batch_with_validation transformations api_key enable_ai_validation ask
    products_batch nomenclature_pattern generation = []
  /\ forall want_sistema want_etiqueta want_seo results st failed_products,
       run_batch transformations api_key enable_ai_validation ask
         want_sistema want_etiqueta want_seo products_batch nomenclature_pattern
         generation results st failed_products
       = (results, st, failed_products).
Proof.
  intros H.
  assert (Hout : process_batch_with_validation transformations api_key
                   enable_ai_validation ask products_batch nomenclature_pattern
                   generation = []).
  { unfold process_batch_with_validation, process_batch_body.
    destruct H as [-> | [(e & ->) | (v & -> & Hv)]].
    - reflexivity.
    - now destruct products_batch.
    - destruct products_batch; [reflexivity|].
      destruct v; try reflexivity. now destruct (Hv l). }
  split; [exact Hout|]. intros. now apply run_batch_no_results.
Qed.

Lemma failed_generation_leaves_no_trace_witness :
  process_batch_with_validation [] (txt "key") true failing_agent
    [plain_product; second_product] (txt "pattern") (Failed (txt "overloaded")) = []
  /\ forall want_sistema want_etiqueta want_seo results st failed_products,
       run_batch [] (txt "key") true failing_agent
         want_sistema want_etiqueta want_seo [plain_product; second_product]
         (txt "pattern") (Failed (txt "overloaded")) results st failed_products
       = (results, st, failed_products).
Proof.
  apply (failed_generation_leaves_no_trace [] (txt "key") true failing_agent
           [plain_product; second_product] (txt "pattern")
           (Failed (txt "overloaded"))).
  right. left. eauto.
Defined.

Lemma zip_surplus {A B} (l : list A) (k extra : list B) :
  length k = length l -> zip l (k ++ extra) = zip l k.
Proof.
  revert k. induction l as [|x l IH]; intros [|y k] Hlen; try discriminate.
  - now destruct extra.
  - cbn. rewrite IH; [reflexivity|]. cbn in Hlen. lia.
Qed.

Lemma zip_length_le {A B} (l : list A) (k : list B) :
  (length (zip l k) <= length l)%nat /\ (length (zip l k) <= length k)%nat.
Proof.
  revert k. induction l as [|x l IH]; intros [|y k]; cbn; try lia.
  destruct (IH k). lia.
Qed.

(** X8: a batch never returns more results than it has records or than the
    reply has elements, and the elements of the reply beyond the size of
    the batch are ignored: they change nothing of the results. *)
Theorem surplus_reply_ignored
    (transformations : memory) (api_key : text) (enable_ai_validation : bool)
    (ask : agent) (products_batch : list product) (nomenclature_pattern : text)
    (batch_results extra : list json) :
  let run := process_batch_with_validation transformations api_key
               enable_ai_validation ask products_batch nomenclature_pattern in
  (length (run (Parsed (JArr batch_results))) <= length products_batch)%nat
  /\ (length (run (Parsed (JArr batch_results))) <= length batch_results)%nat
  /\ (length batch_results = length products_batch ->
      run (Parsed (JArr (batch_results ++ extra))) = run (Parsed (JArr batch_results))).
Proof.
  intros run. unfold run, process_batch_with_validation, process_batch_body.
  destruct products_batch as [|p0 rest] eqn:Hb.
  { cbn. repeat split; lia || reflexivity. }
  rewrite <- Hb.
  assert (Hlen : (length (match process_pairs transformations api_key
                                  enable_ai_validation ask 0
                                  (zip products_batch batch_results) with
                          | Ok final_results => final_results
                          | Raise _ => []
                          end)
                  <= length (zip products_batch batch_results))%nat).
  { destruct (process_pairs _ _ _ _ _ _) as [out|e] eqn:Hp; [|cbn; lia].
    destruct (process_pairs_Ok _ _ _ _ _ _ _ Hp) as [-> _]. lia. }
  destruct (zip_length_le products_batch batch_results) as [H1 H2].
  split; [lia|]. split; [lia|].
  intros Heq. now rewrite zip_surplus.
Qed.

Lemma surplus_reply_ignored_witness :
  process_batch_with_validation [] (txt "key") true failing_agent
    [plain_product] (txt "pattern")
    (Parsed (JArr ([JObj long_result] ++ [JObj sample_result; JNull])))
  = process_batch_with_validation [] (txt "key") true failing_agent
      [plain_product] (txt "pattern") (Parsed (JArr [JObj long_result])).
Proof.
  apply (proj2 (proj2 (surplus_reply_ignored [] (txt "key") true failing_agent
                         [plain_product] (txt "pattern") [JObj long_result]
                         [JObj sample_result; JNull]))).
  reflexivity.
Defined.

(** ** What a record keeps of the reply *)

Lemma postprocess_other (transformations : memory) (brand : text)
    (d d0 : dict) (k : text) :
  postprocess transformations brand d = Ok d0 ->
  k ∉ title_keys -> d0 !! k = d !! k.
Proof. intros H. apply (proj2 (postprocess_Ok _ _ _ _ H)). Qed.

Lemma normalized_value_is_Some (transformations : memory) (brand : text)
    (v v' : option json) :
  normalized_value transformations brand v v' -> is_Some v -> is_Some v'.
Proof.
  unfold normalized_value. destruct v as [[| | |t| |]|]; try (now intros ->).
  intros (u & _ & ->) _. eauto.
Qed.

(** X9: an emitted record holds every entry of the object the engine
    returned: the entries other than the three titles and ["validation"]
    are passed through unchanged, a title that is not a string is left as
    it is, no key is lost, and the validation metadata is always attached
    under ["validation"]. *)
Theorem record_passes_reply_through
    (transformations : memory) (api_key : text) (enable_ai_validation : bool)
    (ask : agent) (idx : nat) (p : product) (result : dict) (out : json) :
  process_record transformations api_key enable_ai_validation ask idx p (JObj result)
  = Ok out ->
  exists (emitted : dict) (meta : validation_metadata),
    out = JObj emitted
    /\ emitted !! txt "validation" = Some (metadata_json meta)
    /\ (forall key, key ∉ title_keys -> key <> txt "validation" ->
                    emitted !! key = result !! key)
    /\ (forall key v, key = txt "titulo_sistema" \/ key = txt "titulo_etiqueta" ->
                      result !! key = Some v -> (forall t, v <> JStr t) ->
                      emitted !! key = Some v)
    /\ (forall key, is_Some (result !! key) -> is_Some (emitted !! key)).
Proof.
  intros H.
  apply process_record_Ok in H as (d & d0 & d' & meta & [= <-] & Hp & Hv & ->).
  exists (<[txt "validation" := metadata_json meta]> d'), meta.
  split; [reflexivity|]. split; [apply lookup_insert_eq|].
  pose proof (validate_result_frame _ _ _ _ _ _ _ _ Hv) as Hframe.
  destruct (postprocess_Ok _ _ _ _ Hp) as [Htitles Hothers].
  split; [|split].
  - intros key Htitle Hval. rewrite lookup_insert_ne by congruence.
    rewrite Hframe.
    + now apply Hothers.
    + intros ->. apply Htitle. unfold title_keys.
      do 2 apply list_elem_of_further. apply list_elem_of_here.
  - intros key v Hkey Hres Hnot.
    assert (Hne1 : key <> txt "validation") by (destruct Hkey as [-> | ->]; keys).
    assert (Hne2 : key <> txt "titulo_seo") by (destruct Hkey as [-> | ->]; keys).
    rewrite lookup_insert_ne by congruence. rewrite Hframe by exact Hne2.
    pose proof (postprocess_lookup _ _ _ _ key Hp) as Hval.
    unfold normalized_value in Hval. rewrite Hres in Hval.
    destruct v as [| | |t| |]; try (apply Hval; tauto). now destruct (Hnot t).
  - intros key Hsome.
    destruct (decide (key = txt "validation")) as [->|Hne1].
    { rewrite lookup_insert_eq. eauto. }
    rewrite lookup_insert_ne by congruence.
    destruct (decide (key = txt "titulo_seo")) as [->|Hne2].
    + destruct (validate_result_cases _ _ _ _ _ _ _ _ Hv)
        as [[_ ->] | [_ (a & _ & _ & ->)]].
      * eapply normalized_value_is_Some; [|exact Hsome].
        apply (postprocess_lookup _ _ _ _ _ Hp). tauto.
      * rewrite lookup_insert_eq. eauto.
    + rewrite Hframe by exact Hne2.
      destruct (decide (key ∈ title_keys)) as [Hin|Hout].
      * eapply normalized_value_is_Some; [|exact Hsome]. now apply Htitles.
      * now rewrite Hothers.
Qed.

Lemma record_passes_reply_through_witness :
  exists (emitted : dict) (meta : validation_metadata),
    JObj (<[txt "validation" := metadata_json passed_metadata]>
            (<[txt "nota" := JNum 7]> long_result))
    = JObj emitted
    /\ emitted !! txt "validation" = Some (metadata_json meta)
    /\ emitted !! txt "nota" = Some (JNum 7).
Proof.
  destruct (record_passes_reply_through [] (txt "key") false failing_agent 0
              plain_product (<[txt "nota" := JNum 7]> long_result)
              (JObj (<[txt "validation" := metadata_json passed_metadata]>
                       (<[txt "nota" := JNum 7]> long_result))))
    as (emitted & meta & Hout & Hval & Hother & _).
  - vm_compute. reflexivity.
  - exists emitted, meta. split; [exact Hout|]. split; [exact Hval|].
    rewrite Hother.
    + vm_compute. reflexivity.
    + vm_compute. intros H. repeat (apply elem_of_cons in H as [H|H]; [discriminate|]).
      now apply not_elem_of_nil in H.
    + vm_compute. discriminate.
Defined.


(** ** The shape of a normalised title *)

Lemma no_adjacent_spaces_word_app (w rest : text) :
  word w -> no_adjacent_spaces (w ++ rest) = no_adjacent_spaces rest.
Proof.
  intros [Hne Hw]. induction w as [|c w IH]; [congruence|].
  cbn in Hw. apply andb_true_iff in Hw as [Hc Hw]. apply negb_true_iff in Hc.
  destruct w as [|c' w'].
  - cbn. rewrite Hc. now destruct rest.
  - change ((c :: c' :: w') ++ rest) with (c :: c' :: (w' ++ rest)).
    cbn [no_adjacent_spaces]. rewrite Hc. cbn [andb negb].
    apply IH; [discriminate | exact Hw].
Qed.

Lemma join_words_spaces (ws : list text) :
  Forall word ws ->
  no_adjacent_spaces (Py.join [32] ws) = true
  /\ forall c, c ∈ Py.join [32] ws -> Py.is_space c = true -> c = 32.
Proof.
  induction 1 as [|w ws Hw Hws [IH1 IH2]].
  - split; [reflexivity|]. intros c Hc. now apply not_elem_of_nil in Hc.
  - destruct ws as [|w' ws'].
    + cbn [Py.join]. split.
      * rewrite <- (app_nil_r w). now rewrite no_adjacent_spaces_word_app.
      * intros c Hc Hsp. rewrite (word_chars w c Hw Hc) in Hsp. discriminate.
    + change (Py.join [32] (w :: w' :: ws'))
        with (w ++ 32 :: Py.join [32] (w' :: ws')).
      split.
      * rewrite no_adjacent_spaces_word_app by exact Hw.
        destruct (Py.join [32] (w' :: ws')) as [|d J] eqn:HJ; [reflexivity|].
        assert (Hd : Py.is_space d = false).
        { apply (join_head (w' :: ws') d Hws). now rewrite HJ. }
        change (no_adjacent_spaces (32 :: d :: J))
          with (negb (Py.is_space 32 && Py.is_space d)
                && no_adjacent_spaces (d :: J)).
        rewrite Hd, andb_false_r. exact IH1.
      * intros c Hc Hsp. apply elem_of_app in Hc as [Hc|Hc].
        -- rewrite (word_chars w c Hw Hc) in Hsp. discriminate.
        -- apply elem_of_cons in Hc as [->|Hc]; [reflexivity | now apply IH2].
Qed.

Lemma collapse_tidy (s : text) : tidy (Py.collapse s).
Proof.
  split; [apply collapse_idempotent|]. split; [apply strip_collapse|].
  apply join_words_spaces, split_words.
Qed.

(** X10: a title that went through the normaliser chain has single plain
    spaces between its words and no white space at its ends, and collapsing
    or stripping it again changes nothing; so it is with the
    [titulo_sistema] and the [titulo_etiqueta] of every emitted record. *)
Theorem normalized_titles_are_tidy
    (transformations : memory) (api_key : text) (enable_ai_validation : bool)
    (ask : agent) (idx : nat) (p : product) (result : dict) :
  (forall t brand v, normalize_title t transformations brand = Ok v -> tidy v)
  /\ forall emitted key u,
       process_record transformations api_key enable_ai_validation ask idx p
         (JObj result) = Ok (JObj emitted) ->
       key = txt "titulo_sistema" \/ key = txt "titulo_etiqueta" ->
       result !! key = Some (JStr u) \/ emitted !! key = Some (JStr u) ->
       exists u', emitted !! key = Some (JStr u') /\ tidy u'.
Proof.
  assert (Htidy : forall t brand v,
             normalize_title t transformations brand = Ok v -> tidy v).
  { intros t brand v H. unfold normalize_title in H.
    apply bind_Ok in H as (t1 & _ & [= <-]). apply collapse_tidy. }
  split; [exact Htidy|].
  intros emitted key u H Hkey Hu.
  apply process_record_Ok in H as (d & d0 & d' & meta & [= <-] & Hp & Hv & [= ->]).
  assert (Hne1 : key <> txt "validation") by (destruct Hkey as [-> | ->]; keys).
  assert (Hne2 : key <> txt "titulo_seo") by (destruct Hkey as [-> | ->]; keys).
  assert (Hem : normalized_value transformations (Py.strip (marca p))
                  (result !! key)
                  ((<[txt "validation" := metadata_json meta]> d') !! key)).
  { rewrite lookup_insert_ne by congruence.
    rewrite (validate_result_frame _ _ _ _ _ _ _ _ Hv key Hne2).
    apply (postprocess_lookup _ _ _ _ _ Hp). tauto. }
  unfold normalized_value in Hem.
  destruct (result !! key) as [[| | |t| |]|]; try rewrite Hem in *;
    try (destruct Hu as [Hu|Hu]; discriminate).
  destruct Hem as (v & Hnorm & ->). eauto.
Qed.

Lemma normalized_titles_are_tidy_witness :
  exists u',
    (<[txt "validation" := metadata_json passed_metadata]> long_result)
      !! txt "titulo_sistema" = Some (JStr u')
    /\ tidy u'.
Proof.
  apply (proj2 (normalized_titles_are_tidy [] (txt "key") false failing_agent 0
                  plain_product long_result)
           (<[txt "validation" := metadata_json passed_metadata]> long_result)
           (txt "titulo_sistema") long_title).
  - vm_compute. reflexivity.
  - left. reflexivity.
  - left. vm_compute. reflexivity.
Defined.

(** ** The caller's lists and statistics *)

Lemma bump_counted (val : dict) (st : stats) : counted st (bump val st).
Proof.
  unfold counted, bump.
  destruct (is_str _ _); [cbn; tauto|].
  destruct (truthy _); cbn; tauto.
Qed.

(** Every result of a batch is an object with the metadata attached. *)
Lemma process_batch_results_shape (transformations : memory) (api_key : text)
    (enable_ai_validation : bool) (ask : agent) (products_batch : list product)
    (nomenclature_pattern : text) (generation : reply) (o : json) :
  o ∈ process_batch_with_validation transformations api_key enable_ai_validation
        ask products_batch nomenclature_pattern generation ->
  exists (d : dict) (meta : validation_metadata),
    o = JObj (<[txt "validation" := metadata_json meta]> d).
Proof.
  unfold process_batch_with_validation, process_batch_body.
  destruct products_batch as [|p0 rest] eqn:Hb.
  { intros H. now apply not_elem_of_nil in H. }
  rewrite <- Hb.
  destruct generation as [e|v]; [intros H; now apply not_elem_of_nil in H|].
  destruct v; try (intros H; now apply not_elem_of_nil in H).
  destruct (process_pairs _ _ _ _ _ _) as [out|e] eqn:Hp;
    [|intros H; now apply not_elem_of_nil in H].
  intros Ho. apply list_elem_of_lookup in Ho as [k Hk].
  destruct (process_pairs_Ok _ _ _ _ _ _ _ Hp) as [Hlen Hall].
  assert (Hlt : (k < length (zip products_batch l))%nat).
  { rewrite <- Hlen. now apply lookup_lt_Some in Hk. }
  apply lookup_lt_is_Some in Hlt as [[p r] Hpr].
  destruct (Hall k p r Hpr) as (o' & Ho' & Hrec).
  assert (o' = o) by congruence. subst o'.
  apply process_record_Ok in Hrec as (d & d0 & d' & meta & _ & _ & _ & ->). eauto.
Qed.

(** The row of such a result, when it is collected, counts once. *)
Lemma collect_row_counted (want_sistema want_etiqueta want_seo : bool)
    (p : product) (d : dict) (meta : validation_metadata) (st st' : stats)
    (row_out : dict) :
  collect_row want_sistema want_etiqueta want_seo p
    (JObj (<[txt "validation" := metadata_json meta]> d)) st = Ok (row_out, st') ->
  counted st st'.
Proof.
  unfold collect_row. rewrite lookup_insert_eq. unfold metadata_json.
  intros H. apply bind_Ok in H as (row & _ & H).
  injection H as _ <-. apply bump_counted.
Qed.

(** The loop of the caller only appends rows, one per record at most, and
    counts each row once. *)
Lemma collect_appends (want_sistema want_etiqueta want_seo : bool)
    (pairs : list (product * json)) (results : list dict) (st : stats) :
  Forall (fun pr : product * json =>
            exists (d : dict) (meta : validation_metadata),
              pr.2 = JObj (<[txt "validation" := metadata_json meta]> d)) pairs ->
  exists rows st' exc,
    collect want_sistema want_etiqueta want_seo pairs results st
    = (results ++ rows, st', exc)
    /\ (length rows <= length pairs)%nat
    /\ (exc = None -> length rows = length pairs)
    /\ total_processed st' = (total_processed st + length rows)%nat
    /\ validation_failed st' = validation_failed st
    /\ (validation_passed st <= validation_passed st')%nat
    /\ (validation_corrected st <= validation_corrected st')%nat
    /\ (validation_passed st' + validation_corrected st'
        <= validation_passed st + validation_corrected st + length rows)%nat.
Proof.
  intros H. revert results st.
  induction H as [|[p o] pairs (d & meta & Ho) Hrest IH]; intros results st.
  - exists [], st, None. cbn. rewrite app_nil_r. repeat split; lia.
  - cbn in Ho. subst o. cbn [collect].
    destruct (collect_row _ _ _ p _ st) as [[row_out st1]|e] eqn:Hrow.
    + apply collect_row_counted in Hrow as (Ht & Hf & Hpc).
      destruct (IH (results ++ [row_out]) st1)
        as (rows & st' & exc & -> & Hlen & Hexc & Htot & Hfail & Hp & Hc & Hsum).
      exists (row_out :: rows), st', exc.
      split; [now rewrite <- app_assoc|]. cbn [length].
      repeat split; try lia.
      intros E. specialize (Hexc E). lia.
    + exists [], st, (Some e). cbn. rewrite app_nil_r.
      repeat split; try lia. discriminate.
Qed.

(** X11: a batch only adds to what the caller has collected.  The rows of
    the batch are appended to the results, at most one per record; the
    failed products are left as they were or, when the collection of the
    rows raises, extended by every record of the batch, also by those whose
    row was collected before the exception. *)
Theorem run_batch_appends
    (transformations : memory) (api_key : text) (enable_ai_validation : bool)
    (ask : agent) (want_sistema want_etiqueta want_seo : bool)
    (products_batch : list product) (nomenclatura : text) (generation : reply)
    (results : list dict) (st : stats) (failed_products : list failed_product) :
  exists rows st' failed',
    run_batch transformations api_key enable_ai_validation ask
      want_sistema want_etiqueta want_seo products_batch nomenclatura generation
      results st failed_products
    = (results ++ rows, st', failed')
    /\ (length rows <= length products_batch)%nat
    /\ (length rows
        <= length (process_batch_with_validation transformations api_key
                     enable_ai_validation ask products_batch nomenclatura
                     generation))%nat
    /\ (failed' = failed_products
        \/ exists e, failed' = failed_products ++ List.map (failed_of e) products_batch).
Proof.
  unfold run_batch.
  set (out := process_batch_with_validation _ _ _ _ _ _ _).
  assert (Hshape : Forall (fun pr : product * json =>
                     exists (d : dict) (meta : validation_metadata),
                       pr.2 = JObj (<[txt "validation" := metadata_json meta]> d))
                     (zip products_batch out)).
  { apply Forall_forall. intros [p o] Hin.
    apply list_elem_of_lookup in Hin as [k Hk]. apply zip_lookup in Hk as [_ Ho].
    apply (process_batch_results_shape transformations api_key enable_ai_validation
             ask products_batch nomenclatura generation).
    apply list_elem_of_lookup. eauto. }
  destruct (collect_appends want_sistema want_etiqueta want_seo _ results st Hshape)
    as (rows & st' & exc & -> & Hlen & _).
  destruct (zip_length_le products_batch out) as [H1 H2].
  destruct exc as [e|].
  - exists rows, st', (failed_products ++ List.map (failed_of e) products_batch).
    repeat split; try lia. right. eauto.
  - exists rows, st', failed_products. repeat split; try lia. now left.
Qed.

(** X12: the statistics of a run count what is collected: a batch raises
    [total_processed] by the number of rows it adds, never lowers
    [validation_passed] or [validation_corrected], raises the two together
    by that number at most, and never touches [validation_failed]. *)
Theorem run_batch_statistics
    (transformations : memory) (api_key : text) (enable_ai_validation : bool)
    (ask : agent) (want_sistema want_etiqueta want_seo : bool)
    (products_batch : list product) (nomenclatura : text) (generation : reply)
    (results : list dict) (st : stats) (failed_products : list failed_product) :
  let after :=
    run_batch transformations api_key enable_ai_validation ask
      want_sistema want_etiqueta want_seo products_batch nomenclatura generation
      results st failed_products in
  let st' := after.1.2 in
  total_processed st'
  = (total_processed st + (length after.1.1 - length results))%nat
  /\ validation_failed st' = validation_failed st
  /\ (validation_passed st <= validation_passed st')%nat
  /\ (validation_corrected st <= validation_corrected st')%nat
  /\ (validation_passed st' + validation_corrected st'
      <= validation_passed st + validation_corrected st
         + (length after.1.1 - length results))%nat.
Proof.
  intros after st'. subst st' after. unfold run_batch.
  set (out := process_batch_with_validation _ _ _ _ _ _ _).
  assert (Hshape : Forall (fun pr : product * json =>
                     exists (d : dict) (meta : validation_metadata),
                       pr.2 = JObj (<[txt "validation" := metadata_json meta]> d))
                     (zip products_batch out)).
  { apply Forall_forall. intros [p o] Hin.
    apply list_elem_of_lookup in Hin as [k Hk]. apply zip_lookup in Hk as [_ Ho].
    apply (process_batch_results_shape transformations api_key enable_ai_validation
             ask products_batch nomenclatura generation).
    apply list_elem_of_lookup. eauto. }
  destruct (collect_appends want_sistema want_etiqueta want_seo _ results st Hshape)
    as (rows & st' & exc & -> & _ & _ & Htot & Hfail & Hp & Hc & Hsum).
  assert (Hlen : (length (results ++ rows) - length results)%nat = length rows)
    by (rewrite length_app; lia).
  destruct exc as [e|]; cbn [fst snd]; rewrite Hlen; repeat split; lia.
Qed.

(** ** The coverage analysis *)

Lemma sum_counts_insert_new (d : gmap text nat) (k : text) (n : nat) :
  d !! k = None -> sum_counts (<[k := n]> d) = (n + sum_counts d)%nat.
Proof.
  intros Hk. unfold sum_counts.
  rewrite map_fold_insert_L; [reflexivity | intros; lia | exact Hk].
Qed.

Lemma sum_counts_insert (d : gmap text nat) (k : text) (n : nat) :
  (sum_counts (<[k := n]> d) + default 0 (d !! k) = n + sum_counts d)%nat.
Proof.
  destruct (d !! k) as [m|] eqn:Hk; cbn.
  - rewrite <- (insert_delete_eq d).
    rewrite sum_counts_insert_new by apply lookup_delete_eq.
    rewrite <- (insert_delete_id d k m Hk) at 2.
    rewrite sum_counts_insert_new by apply lookup_delete_eq. lia.
  - rewrite sum_counts_insert_new by exact Hk. lia.
Qed.

Lemma count_uncovered_lookup (key k : text) (d : gmap text nat) :
  count_uncovered key d !! k
  = if decide (k = key) then Some (S (default 0%nat (d !! key))) else d !! k.
Proof.
  unfold count_uncovered. destruct (decide (k = key)) as [->|Hne].
  - rewrite lookup_insert_eq. f_equal. f_equal.
    destruct (d !! key) as [n|] eqn:Hd; [now rewrite Hd|].
    now rewrite lookup_insert_eq.
  - rewrite lookup_insert_ne by congruence.
    destruct (d !! key); [reflexivity|]. now rewrite lookup_insert_ne by congruence.
Qed.

Lemma count_uncovered_sum (key : text) (d : gmap text nat) :
  sum_counts (count_uncovered key d) = S (sum_counts d).
Proof.
  unfold count_uncovered. destruct (d !! key) as [n|] eqn:Hd.
  - rewrite Hd. change (default 0%nat (Some n)) with n.
    pose proof (sum_counts_insert d key (S n)) as H. rewrite Hd in H.
    change (default 0%nat (Some n)) with n in H. lia.
  - rewrite lookup_insert_eq. change (default 0%nat (Some 0%nat)) with 0%nat.
    rewrite insert_insert_eq. rewrite sum_counts_insert_new by exact Hd. lia.
Qed.

(** The loop of [analyze_coverage], started from any state. *)
Lemma coverage_fold (nomenclature_df : list rule) (products_df : list analysis_row)
    (n : nat) (d : gmap text nat) :
  let after := fold_left (coverage_step nomenclature_df) products_df (n, d) in
  after.1 = (n + length (List.filter (has_rule nomenclature_df) products_df))%nat
  /\ sum_counts after.2
     = (sum_counts d
        + length (List.filter (fun row => negb (has_rule nomenclature_df row))
                    products_df))%nat
  /\ forall key,
       after.2 !! key
       = match length (uncovered_under nomenclature_df key products_df) with
         | O => d !! key
         | S m => Some (default 0%nat (d !! key) + S m)%nat
         end.
Proof.
  revert n d. induction products_df as [|row rows IH]; intros n d.
  - cbn. repeat split; lia || reflexivity.
  - cbn [fold_left].
    assert (Hstep : coverage_step nomenclature_df (n, d) row
                    = if has_rule nomenclature_df row then (S n, d)
                      else (n, count_uncovered (cat_key_of row) d)).
    { unfold coverage_step, has_rule.
      now destruct (pattern_of nomenclature_df row). }
    rewrite Hstep. unfold uncovered_under. cbn [List.filter].
    destruct (has_rule nomenclature_df row) eqn:Hrow; cbn [negb andb].
    + destruct (IH (S n) d) as (H1 & H2 & H3).
      split; [rewrite H1; cbn [length]; lia|]. split; [exact H2|]. exact H3.
    + destruct (IH n (count_uncovered (cat_key_of row) d)) as (H1 & H2 & H3).
      split; [exact H1|].
      split; [rewrite H2, count_uncovered_sum; cbn [length]; lia|].
      intros key. rewrite H3. unfold uncovered_under.
      rewrite count_uncovered_lookup.
      destruct (decide (key = cat_key_of row)) as [->|Hne].
      * assert (Py.text_eqb (cat_key_of row) (cat_key_of row) = true) as ->
          by now apply text_eqb_eq.
        cbn [length]. set (x := default 0%nat (d !! cat_key_of row)).
        match goal with
        | |- context [length ?l] => destruct (length l) as [|m]
        end; f_equal; [lia|].
        change (default 0%nat (Some (S x))) with (S x). lia.
      * assert (Py.text_eqb (cat_key_of row) key = false) as ->.
        { destruct (Py.text_eqb _ _) eqn:E; [|reflexivity].
          apply text_eqb_eq in E. congruence. }
        reflexivity.
Qed.

(** X13: the figures of [analyze_coverage] add up.  [total] is the number
    of rows, [covered] the number of rows for which [find_pattern_row] finds
    a rule, [uncovered] the number of the others (so it is never negative),
    and the counts of the uncovered categories add up to [uncovered]. *)
Theorem analyze_coverage_counts
    (products_df : list analysis_row) (nomenclature_df : list rule) :
  let c := analyze_coverage products_df nomenclature_df in
  total c = length products_df
  /\ covered c = length (List.filter (has_rule nomenclature_df) products_df)
  /\ uncovered c
     = Z.of_nat (length (List.filter (fun row => negb (has_rule nomenclature_df row))
                           products_df))
  /\ (Z.of_nat (covered c) + uncovered c = Z.of_nat (total c))%Z
  /\ Z.of_nat (sum_counts (uncovered_categories c)) = uncovered c.
Proof.
  intros c. subst c. unfold analyze_coverage.
  pose proof (coverage_fold nomenclature_df products_df 0 ∅) as H. cbv zeta in H.
  destruct (fold_left _ _ _) as [n_covered categories].
  cbn [fst snd] in H. destruct H as (H1 & H2 & _). cbn [total covered uncovered
    uncovered_categories].
  assert (Hsplit : (length (List.filter (has_rule nomenclature_df) products_df)
                    + length (List.filter
                                (fun row => negb (has_rule nomenclature_df row))
                                products_df))%nat
                   = length products_df).
  { clear. induction products_df as [|row rows IH]; [reflexivity|].
    cbn. destruct (has_rule nomenclature_df row); cbn; lia. }
  assert (Hempty : sum_counts ∅ = 0%nat) by apply map_fold_empty.
  rewrite Hempty in H2. cbn in H1, H2.
  repeat split; lia.
Qed.

(** X14: a key is among the uncovered categories exactly when a row
    without a rule falls under it, and its count is the number of such
    rows; no key is listed with a count of zero. *)
Theorem analyze_coverage_categories
    (products_df : list analysis_row) (nomenclature_df : list rule) (key : text) :
  uncovered_categories (analyze_coverage products_df nomenclature_df) !! key
  = match length (uncovered_under nomenclature_df key products_df) with
    | O => None
    | S m => Some (S m)
    end.
Proof.
  unfold analyze_coverage.
  pose proof (coverage_fold nomenclature_df products_df 0 ∅) as H. cbv zeta in H.
  destruct (fold_left _ _ _) as [n_covered categories].
  cbn [fst snd] in H. destruct H as (_ & _ & H3). cbn [uncovered_categories].
  rewrite H3. rewrite lookup_empty. reflexivity.
Qed.


(** ** The run over a whole file *)

(** The loop that prepares a batch splits its rows: the rows with a rule
    become products, with the patterns of their rules beside them, and the
    others are reported, all in the order of the rows. *)
Lemma prepare_batch_fold (nomenclature_df : list rule) (rows : list batch_row)
    (ps : list product) (pats : list text) (failed : list failure) :
  fold_left (prepare_step nomenclature_df) rows (ps, pats, failed)
  = (ps ++ (product_of <$> List.filter (with_rule nomenclature_df) rows),
     pats ++ omap (fun row => Nomenclatura_sugerida <$> rule_of_row nomenclature_df row) rows,
     failed ++ (no_rule_entry <$> List.filter (without_rule nomenclature_df) rows)).
Proof.
  revert ps pats failed. induction rows as [|row rows IH]; intros ps pats failed.
  - cbn. now rewrite !app_nil_r.
  - cbn [fold_left]. unfold prepare_step at 2.
    destruct (rule_of_row nomenclature_df row) as [r|] eqn:Hr; rewrite IH; clear IH;
      unfold with_rule, without_rule; cbn [List.filter omap list_omap];
      rewrite Hr; cbn; now rewrite <- !app_assoc.
Qed.

Lemma prepare_batch_split (nomenclature_df : list rule) (rows : list batch_row)
    (failed : list failure) :
  prepare_batch nomenclature_df rows failed
  = (product_of <$> List.filter (with_rule nomenclature_df) rows,
     omap (fun row => Nomenclatura_sugerida <$> rule_of_row nomenclature_df row) rows,
     failed ++ (no_rule_entry <$> List.filter (without_rule nomenclature_df) rows)).
Proof. unfold prepare_batch. now rewrite prepare_batch_fold. Qed.

(** The first pattern of a batch is the pattern of its first row with a
    rule. *)
Lemma first_pattern (nomenclature_df : list rule) (rows : list batch_row) :
  head (omap (fun row => Nomenclatura_sugerida <$> rule_of_row nomenclature_df row) rows)
  = head (List.filter (with_rule nomenclature_df) rows)
      ≫= fun row => Nomenclatura_sugerida <$> rule_of_row nomenclature_df row.
Proof.
  induction rows as [|row rows IH]; [reflexivity|].
  unfold with_rule, without_rule in *. cbn [List.filter omap list_omap].
  destruct (rule_of_row nomenclature_df row) as [r|] eqn:Hr; cbn.
  - now rewrite Hr.
  - exact IH.
Qed.

(** What a prepared batch does to the state it is run on. *)
Lemma run_batch_shape
    (transformations : memory) (api_key : text) (enable_ai_validation : bool)
    (ask : agent) (want_sistema want_etiqueta want_seo : bool)
    (products_batch : list product) (nomenclatura : text) (generation : reply)
    (results : list dict) (st : stats) (failed_products : list failed_product) :
  exists rows st' more,
    run_batch transformations api_key enable_ai_validation ask
      want_sistema want_etiqueta want_seo products_batch nomenclatura generation
      results st failed_products
    = (results ++ rows, st', failed_products ++ more)
    /\ (length rows <= length products_batch)%nat
    /\ total_processed st' = (total_processed st + length rows)%nat
    /\ validation_failed st' = validation_failed st
    /\ (validation_passed st' + validation_corrected st'
        <= validation_passed st + validation_corrected st + length rows)%nat.
Proof.
  unfold run_batch.
  set (out := process_batch_with_validation _ _ _ _ _ _ _).
  assert (Hshape : Forall (fun pr : product * json =>
                     exists (d : dict) (meta : validation_metadata),
                       pr.2 = JObj (<[txt "validation" := metadata_json meta]> d))
                     (zip products_batch out)).
  { apply Forall_forall. intros [p o] Hin.
    apply list_elem_of_lookup in Hin as [k Hk]. apply zip_lookup in Hk as [_ Ho].
    apply (process_batch_results_shape transformations api_key enable_ai_validation
             ask products_batch nomenclatura generation).
    apply list_elem_of_lookup. eauto. }
  destruct (collect_appends want_sistema want_etiqueta want_seo _ results st Hshape)
    as (rows & st' & exc & -> & Hlen & _ & Htot & Hfail & _ & _ & Hsum).
  destruct (zip_length_le products_batch out) as [H1 H2].
  destruct exc as [e|].
  - exists rows, st', (List.map (failed_of e) products_batch). repeat split; lia.
  - exists rows, st', []. rewrite app_nil_r. repeat split; lia.
Qed.

Lemma no_rule_entries_app (l1 l2 : list failure) :
  no_rule_entries (l1 ++ l2) = no_rule_entries l1 ++ no_rule_entries l2.
Proof. apply List.filter_app. Qed.

Lemma no_rule_entries_no_rule (rows : list batch_row) :
  no_rule_entries (no_rule_entry <$> rows) = no_rule_entry <$> rows.
Proof. induction rows as [|row rows IH]; [reflexivity|]. cbn. now f_equal. Qed.

Lemma no_rule_entries_errors (l : list failed_product) :
  no_rule_entries (BatchError <$> l) = [].
Proof. induction l as [|f l IH]; [reflexivity|]. exact IH. Qed.

(** What one round of the loop over the batches does to the state. *)
Lemma process_chunk_shape
    (nomenclature_df : list rule) (transformations : memory) (api_key : text)
    (enable_ai_validation : bool) (want_sistema want_etiqueta want_seo : bool)
    (batch_rows : list batch_row) (generate : list product -> text -> reply)
    (ask : agent) (results : list dict) (st : stats) (failed : list failure) :
  exists rows st' more,
    process_chunk nomenclature_df transformations api_key enable_ai_validation
      want_sistema want_etiqueta want_seo batch_rows generate ask
      (results, st, failed)
    = (results ++ rows, st',
       failed ++ (no_rule_entry <$> List.filter (without_rule nomenclature_df) batch_rows)
              ++ (BatchError <$> more))
    /\ (length rows <= length (List.filter (with_rule nomenclature_df) batch_rows))%nat
    /\ total_processed st' = (total_processed st + length rows)%nat
    /\ validation_failed st' = validation_failed st
    /\ (validation_passed st' + validation_corrected st'
        <= validation_passed st + validation_corrected st + length rows)%nat.
Proof.
  unfold process_chunk. rewrite prepare_batch_split.
  destruct (product_of <$> List.filter (with_rule nomenclature_df) batch_rows)
    as [|p ps] eqn:Hps.
  { exists [], st, []. rewrite !app_nil_r. cbn. repeat split; lia. }
  destruct (omap _ batch_rows) as [|nomenclatura pats].
  { exists [], st, []. rewrite !app_nil_r. cbn. repeat split; lia. }
  destruct (run_batch_shape transformations api_key enable_ai_validation ask
              want_sistema want_etiqueta want_seo (p :: ps) nomenclatura
              (generate (p :: ps) nomenclatura) results st [])
    as (rows & st' & more & -> & Hlen & Hrest).
  exists rows, st', more. rewrite <- app_assoc. split; [reflexivity|].
  split; [|exact Hrest].
  rewrite <- Hps in Hlen. now rewrite length_fmap in Hlen.
Qed.

Lemma process_chunks_shape
    (nomenclature_df : list rule) (transformations : memory) (api_key : text)
    (enable_ai_validation : bool) (want_sistema want_etiqueta want_seo : bool)
    (chunks : list (list batch_row))
    (generate : nat -> list product -> text -> reply) (ask : nat -> agent)
    (k : nat) (results : list dict) (st : stats) (failed : list failure) :
  exists rows st' failed',
    process_chunks nomenclature_df transformations api_key enable_ai_validation
      want_sistema want_etiqueta want_seo k chunks generate ask
      (results, st, failed)
    = (results ++ rows, st', failed')
    /\ no_rule_entries failed'
       = no_rule_entries failed
         ++ (no_rule_entry <$> List.filter (without_rule nomenclature_df) (concat chunks))
    /\ (length rows <= length (List.filter (with_rule nomenclature_df) (concat chunks)))%nat
    /\ total_processed st' = (total_processed st + length rows)%nat
    /\ validation_failed st' = validation_failed st
    /\ (validation_passed st' + validation_corrected st'
        <= validation_passed st + validation_corrected st + length rows)%nat.
Proof.
  revert k results st failed.
  induction chunks as [|batch_rows chunks IH]; intros k results st failed.
  - exists [], st, failed. cbn. rewrite !app_nil_r. repeat split; lia.
  - cbn [process_chunks concat].
    destruct (process_chunk_shape nomenclature_df transformations api_key
                enable_ai_validation want_sistema want_etiqueta want_seo
                batch_rows (generate k) (ask k) results st failed)
      as (rows1 & st1 & more & -> & Hlen1 & Htot1 & Hfail1 & Hsum1).
    destruct (IH (S k) (results ++ rows1) st1
                (failed ++ (no_rule_entry <$> List.filter (without_rule nomenclature_df) batch_rows)
                        ++ (BatchError <$> more)))
      as (rows2 & st2 & failed2 & -> & Hno & Hlen2 & Htot2 & Hfail2 & Hsum2).
    exists (rows1 ++ rows2), st2, failed2.
    split; [now rewrite app_assoc|].
    rewrite !List.filter_app, fmap_app, !length_app.
    split.
    { rewrite Hno, !no_rule_entries_app, no_rule_entries_no_rule,
        no_rule_entries_errors, app_nil_r. now rewrite <- app_assoc. }
    repeat split; lia.
Qed.

(** The slices of a list, put together again, are the list. *)
Lemma slices_upto_concat {A} (batch_size fuel : nat) (l : list A) :
  (1 <= batch_size)%nat -> (length l <= fuel)%nat ->
  concat (slices_upto fuel batch_size l) = l.
Proof.
  intros Hsize. revert l. induction fuel as [|fuel IH]; intros l Hl.
  - destruct l; [reflexivity | cbn in Hl; lia].
  - destruct l as [|a l]; [reflexivity|].
    cbn [slices_upto concat]. rewrite IH.
    + apply take_drop.
    + rewrite length_drop. cbn [length] in *. lia.
Qed.

Lemma slices_concat {A} (batch_size : nat) (l : list A) :
  (1 <= batch_size)%nat -> concat (slices batch_size l) = l.
Proof. intros H. now apply slices_upto_concat. Qed.

(** X15: every record of a batch is generated with the pattern of the
    first row of the batch that has a rule.  The products sent to the
    engine are the rows with a rule, in their order; the pattern in the
    prompt is the suggested nomenclature of the rule of the first of them,
    whatever the rules of the others; the rows without a rule are reported
    as failed before anything the run of the batch reports. *)
Theorem batch_generated_with_first_pattern
    (nomenclature_df : list rule) (transformations : memory) (api_key : text)
    (enable_ai_validation : bool) (want_sistema want_etiqueta want_seo : bool)
    (batch_rows : list batch_row) (generate : list product -> text -> reply)
    (ask : agent) (results : list dict) (st : stats) (failed : list failure)
    (row : batch_row) (r : rule) :
  head (List.filter (with_rule nomenclature_df) batch_rows) = Some row ->
  rule_of_row nomenclature_df row = Some r ->
  process_chunk nomenclature_df transformations api_key enable_ai_validation
    want_sistema want_etiqueta want_seo batch_rows generate ask
    (results, st, failed)
  = let products_batch :=
      product_of <$> List.filter (with_rule nomenclature_df) batch_rows in
    let nomenclatura := Nomenclatura_sugerida r in
    let '(results', st', failed_here) :=
      run_batch transformations api_key enable_ai_validation ask
        want_sistema want_etiqueta want_seo products_batch nomenclatura
        (generate products_batch nomenclatura) results st [] in
    (results', st',
     (failed ++ (no_rule_entry <$> List.filter (without_rule nomenclature_df) batch_rows))
     ++ (BatchError <$> failed_here)).
Proof.
  intros Hhead Hr. unfold process_chunk. rewrite prepare_batch_split.
  pose proof (first_pattern nomenclature_df batch_rows) as Hfirst.
  rewrite Hhead in Hfirst. cbn in Hfirst. rewrite Hr in Hfirst. cbn in Hfirst.
  destruct (omap _ batch_rows) as [|nomenclatura pats]; [discriminate|].
  injection Hfirst as ->.
  destruct (List.filter (with_rule nomenclature_df) batch_rows) as [|row' rows'];
    [discriminate|].
  reflexivity.
Qed.

Lemma batch_generated_with_first_pattern_witness :
  process_chunk sample_rules sample_memory (txt "key") true true true true
    [garden_row; elbow_row; valve_row] (fun _ _ => Failed (txt "down"))
    failing_agent ([], zero_stats, [])
  = let products_batch :=
      product_of <$> List.filter (with_rule sample_rules)
                       [garden_row; elbow_row; valve_row] in
    let nomenclatura := Nomenclatura_sugerida (sample_rule "Codos PVC" "B") in
    let '(results', st', failed_here) :=
      run_batch sample_memory (txt "key") true failing_agent true true true
        products_batch nomenclatura (Failed (txt "down")) [] zero_stats [] in
    (results', st',
     ([] ++ (no_rule_entry <$> List.filter (without_rule sample_rules)
                                 [garden_row; elbow_row; valve_row]))
     ++ (BatchError <$> failed_here)).
Proof.
  apply (batch_generated_with_first_pattern sample_rules sample_memory (txt "key")
           true true true true [garden_row; elbow_row; valve_row]
           (fun _ _ => Failed (txt "down")) failing_agent [] zero_stats []
           elbow_row (sample_rule "Codos PVC" "B")).
  - vm_compute. reflexivity.
  - vm_compute. reflexivity.
Defined.

(** X16: a batch none of whose rows has a rule makes no call: the engine
    and the agent are not consulted, results and statistics stay as they
    are, and every row is reported as failed for want of a rule, in the
    order of the rows. *)
Theorem uncovered_batch_makes_no_call
    (nomenclature_df : list rule) (transformations : memory) (api_key : text)
    (enable_ai_validation : bool) (want_sistema want_etiqueta want_seo : bool)
    (batch_rows : list batch_row) (generate : list product -> text -> reply)
    (ask : agent) (results : list dict) (st : stats) (failed : list failure) :
  forallb (without_rule nomenclature_df) batch_rows = true ->
  process_chunk nomenclature_df transformations api_key enable_ai_validation
    want_sistema want_etiqueta want_seo batch_rows generate ask
    (results, st, failed)
  = (results, st, failed ++ (no_rule_entry <$> batch_rows)).
Proof.
  intros Hall. unfold process_chunk. rewrite prepare_batch_split.
  assert (Hnone : List.filter (with_rule nomenclature_df) batch_rows = []).
  { induction batch_rows as [|row rows IH]; [reflexivity|].
    cbn in Hall. apply andb_prop in Hall as [H1 H2].
    cbn. unfold with_rule at 1. rewrite H1. cbn. now apply IH. }
  assert (Hsame : List.filter (without_rule nomenclature_df) batch_rows = batch_rows).
  { induction batch_rows as [|row rows IH]; [reflexivity|].
    cbn in Hall. apply andb_prop in Hall as [H1 H2].
    cbn. rewrite H1. f_equal. apply IH; [exact H2|].
    cbn in Hnone. unfold with_rule at 1 in Hnone. rewrite H1 in Hnone. exact Hnone. }
  rewrite Hnone, Hsame. reflexivity.
Qed.

Lemma uncovered_batch_makes_no_call_witness :
  process_chunk sample_rules sample_memory (txt "key") true true true true
    [garden_row; sample_row] (fun _ _ => Parsed (JArr [JObj sample_result]))
    correcting_agent ([], zero_stats, [])
  = ([], zero_stats, [] ++ (no_rule_entry <$> [garden_row; sample_row])).
Proof.
  apply (uncovered_batch_makes_no_call sample_rules sample_memory (txt "key")
           true true true true [garden_row; sample_row]).
  vm_compute. reflexivity.
Defined.

(** X17: over a whole file, with a batch size of one or more, the rows
    reported for want of a rule are exactly the rows of the file without a
    rule, each once and in the order of the file, whatever the engine and
    the agent answer. *)
Theorem process_file_reports_rows_without_rule
    (nomenclature_df : list rule) (transformations : memory) (api_key : text)
    (enable_ai_validation : bool) (want_sistema want_etiqueta want_seo : bool)
    (batch_df : list batch_row) (batch_size : nat)
    (generate : nat -> list product -> text -> reply) (ask : nat -> agent) :
  (1 <= batch_size)%nat ->
  no_rule_entries
    (process_file nomenclature_df transformations api_key enable_ai_validation
       want_sistema want_etiqueta want_seo batch_df batch_size generate ask).2
  = no_rule_entry <$> List.filter (without_rule nomenclature_df) batch_df.
Proof.
  intros Hsize. unfold process_file.
  destruct (process_chunks_shape nomenclature_df transformations api_key
              enable_ai_validation want_sistema want_etiqueta want_seo
              (slices batch_size batch_df) generate ask 0 [] zero_stats [])
    as (rows & st' & failed' & -> & Hno & _).
  cbn [snd]. rewrite Hno. now rewrite slices_concat.
Qed.

Lemma process_file_reports_rows_without_rule_witness :
  no_rule_entries
    (process_file sample_rules sample_memory (txt "key") true true true true
       [garden_row; elbow_row; valve_row; sample_row] 2
       (fun _ _ _ => Failed (txt "down")) (fun _ => failing_agent)).2
  = no_rule_entry <$> List.filter (without_rule sample_rules)
                        [garden_row; elbow_row; valve_row; sample_row].
Proof.
  apply (process_file_reports_rows_without_rule sample_rules sample_memory
           (txt "key") true true true true
           [garden_row; elbow_row; valve_row; sample_row] 2).
  lia.
Defined.

(** X18: over a whole file, with a batch size of one or more, there are
    never more result rows than rows with a rule; [total_processed] ends as
    the number of result rows, [validation_passed] and
    [validation_corrected] together never exceed it, and
    [validation_failed] ends as 0 whatever happens: the run never counts a
    failed validation. *)
Theorem process_file_accounts
    (nomenclature_df : list rule) (transformations : memory) (api_key : text)
    (enable_ai_validation : bool) (want_sistema want_etiqueta want_seo : bool)
    (batch_df : list batch_row) (batch_size : nat)
    (generate : nat -> list product -> text -> reply) (ask : nat -> agent) :
  (1 <= batch_size)%nat ->
  let after :=
    process_file nomenclature_df transformations api_key enable_ai_validation
      want_sistema want_etiqueta want_seo batch_df batch_size generate ask in
  let results := after.1.1 in
  let st := after.1.2 in
  (length results <= length (List.filter (with_rule nomenclature_df) batch_df))%nat
  /\ total_processed st = length results
  /\ (validation_passed st + validation_corrected st <= length results)%nat
  /\ validation_failed st = 0%nat.
Proof.
  intros Hsize after results st. subst st results after. unfold process_file.
  destruct (process_chunks_shape nomenclature_df transformations api_key
              enable_ai_validation want_sistema want_etiqueta want_seo
              (slices batch_size batch_df) generate ask 0 [] zero_stats [])
    as (rows & st' & failed' & -> & _ & Hlen & Htot & Hfail & Hsum).
  rewrite slices_concat in Hlen by exact Hsize.
  cbn [fst snd app]. cbn in Htot, Hfail, Hsum. repeat split; lia.
Qed.

Lemma process_file_accounts_witness :
  total_processed
    (process_file sample_rules sample_memory (txt "key") true true true true
       [elbow_row; garden_row; valve_row] 10
       (fun _ _ _ => Parsed (JArr [JObj sample_result]))
       (fun _ => correcting_agent)).1.2
  = length
      (process_file sample_rules sample_memory (txt "key") true true true true
         [elbow_row; garden_row; valve_row] 10
         (fun _ _ _ => Parsed (JArr [JObj sample_result]))
         (fun _ => correcting_agent)).1.1.
Proof.
  refine (proj1 (proj2 (process_file_accounts sample_rules sample_memory (txt "key")
                          true true true true [elbow_row; garden_row; valve_row] 10
                          (fun _ _ _ => Parsed (JArr [JObj sample_result]))
                          (fun _ => correcting_agent) _))).
  lia.
Defined.


(** ** A second pass of [de_shout] *)

Lemma lstrip_by_cut (p : char -> bool) (s : text) :
  exists lead,
    s = lead ++ Py.lstrip_by p s
    /\ forallb p lead = true
    /\ (forall c, head (Py.lstrip_by p s) = Some c -> p c = false).
Proof.
  induction s as [|c s (lead & Hs & Hlead & Hhead)].
  - exists []. repeat split. discriminate.
  - cbn [Py.lstrip_by]. destruct (p c) eqn:Hc.
    + exists (c :: lead). cbn. rewrite Hc, Hlead. repeat split; [|exact Hhead].
      now rewrite <- Hs.
    + exists []. repeat split. cbn. now intros c' [= <-].
Qed.

Lemma rstrip_by_cut (p : char -> bool) (s : text) :
  exists trail,
    s = Py.rstrip_by p s ++ trail
    /\ forallb p trail = true
    /\ (forall c, last (Py.rstrip_by p s) = Some c -> p c = false).
Proof.
  destruct (lstrip_by_cut p (reverse s)) as (lead & Hs & Hlead & Hhead).
  exists (reverse lead). unfold Py.rstrip_by. repeat split.
  - rewrite <- reverse_app, <- Hs. now rewrite reverse_involutive.
  - now apply forallb_reverse.
  - intros c Hc. apply Hhead. rewrite <- head_reverse in Hc.
    now rewrite reverse_involutive in Hc.
Qed.

(** Every token is leading punctuation, a core and trailing punctuation. *)
Lemma token_affixes (w : text) :
  exists lead core trail, w = lead ++ core ++ trail /\ affixes lead core trail.
Proof.
  destruct (lstrip_by_cut is_punct w) as (lead & Hw & Hlead & Hhead).
  destruct (rstrip_by_cut is_punct (Py.lstrip_by is_punct w))
    as (trail & Hs & Htrail & Hlast).
  exists lead, (Py.rstrip_by is_punct (Py.lstrip_by is_punct w)), trail.
  split; [now rewrite <- Hs|].
  repeat split; try assumption.
  intros c Hc. apply Hhead. rewrite Hs.
  destruct (Py.rstrip_by is_punct (Py.lstrip_by is_punct w)); [discriminate|].
  exact Hc.
Qed.

Lemma lower_char_idempotent (c : char) :
  Py.lower_char (Py.lower_char c) = Py.lower_char c.
Proof.
  unfold Py.lower_char. destruct (Py.is_upper_char c) eqn:Hc; [|now rewrite Hc].
  replace (Py.is_upper_char (c + 32)) with false; [reflexivity|].
  unfold Py.is_upper_char, Py.in_range in *. split_tests; reflexivity.
Qed.

Lemma lower_idempotent (s : text) : Py.lower (Py.lower s) = Py.lower s.
Proof.
  unfold Py.lower. rewrite List.map_map. apply List.map_ext.
  apply lower_char_idempotent.
Qed.

Lemma lower_char_punct (c : char) :
  is_punct c = false -> is_punct (Py.lower_char c) = false.
Proof.
  unfold Py.lower_char. destruct (Py.is_upper_char c) eqn:Hc; [|auto].
  intros _. unfold Py.is_upper_char, Py.in_range in Hc.
  unfold is_punct.
  let l := eval vm_compute in (txt ".,;:()[]{}-/") in
  change (txt ".,;:()[]{}-/") with l.
  cbn [existsb].
  split_tests; try reflexivity; cbn in Hc; discriminate.
Qed.

Lemma lower_char_space (c : char) :
  Py.is_space c = false -> Py.is_space (Py.lower_char c) = false.
Proof.
  unfold Py.lower_char. destruct (Py.is_upper_char c) eqn:Hc; [|auto].
  intros _. unfold Py.is_upper_char, Py.is_space, Py.in_range in *.
  split_tests; try reflexivity; cbn in Hc; discriminate.
Qed.

Lemma last_lower (s : text) : last (Py.lower s) = Py.lower_char <$> last s.
Proof.
  unfold Py.lower. induction s as [|c s IH]; [reflexivity|].
  cbn [List.map]. rewrite !last_cons, IH. now destruct (last s).
Qed.

(** A token that [de_shout] has treated is left alone by a second pass. *)
Lemma de_shout_token_idempotent (w : text) :
  de_shout_token (de_shout_token w) = de_shout_token w.
Proof.
  destruct (token_affixes w) as (lead & core & trail & -> & Haff).
  destruct (shouting core) eqn:Hshout.
  - rewrite (de_shout_token_shouting lead core trail Haff Hshout).
    destruct (shouting_cap_first core Hshout) as (c & rest & -> & ->).
    destruct Haff as (Hlead & _ & Hhead & Hlast).
    assert (Haff' : affixes lead (c :: Py.lower rest) []).
    { repeat split; [exact Hlead| |].
      - intros c' [= <-]. now apply Hhead.
      - intros c'. rewrite last_cons, last_lower.
        specialize (Hlast (default c (last rest))).
        rewrite last_cons in Hlast.
        destruct (last rest) as [x|]; cbn.
        + intros [= <-]. apply lower_char_punct. now apply Hlast.
        + intros [= <-]. now apply Hlast. }
    pose proof (de_shout_token_shouting lead (c :: Py.lower rest) [] Haff') as Hs.
    pose proof (de_shout_token_quiet lead (c :: Py.lower rest) [] Haff') as Hq.
    rewrite app_nil_r in Hs, Hq.
    destruct (shouting (c :: Py.lower rest)) eqn:Hshout'.
    + rewrite Hs by reflexivity.
      destruct (shouting_cap_first _ Hshout') as (c' & rest' & [= <- <-] & ->).
      now rewrite lower_idempotent.
    + now apply Hq.
  - rewrite (de_shout_token_quiet lead core trail Haff Hshout).
    now apply de_shout_token_quiet.
Qed.

(** A treated token is a token still. *)
Lemma de_shout_token_word (w : text) : word w -> word (de_shout_token w).
Proof.
  destruct (token_affixes w) as (lead & core & trail & -> & Haff).
  intros Hw. destruct (shouting core) eqn:Hshout.
  - rewrite (de_shout_token_shouting lead core trail Haff Hshout).
    destruct (shouting_cap_first core Hshout) as (c & rest & -> & ->).
    destruct Hw as [_ Hw]. split; [now destruct lead|].
    rewrite forallb_app in Hw. apply andb_true_iff in Hw as [Hl Hw].
    rewrite forallb_app in Hw. apply andb_true_iff in Hw as [Hcore _].
    cbn in Hcore. apply andb_true_iff in Hcore as [Hc Hrest].
    rewrite forallb_app, Hl. cbn. rewrite Hc. cbn.
    unfold Py.lower. rewrite forallb_forall in *. intros x Hx.
    apply in_map_iff in Hx as (y & <- & Hy).
    apply negb_true_iff, lower_char_space, negb_true_iff. now apply Hrest.
  - now rewrite (de_shout_token_quiet lead core trail Haff Hshout).
Qed.

(** X19: [de_shout] is idempotent: a second pass over its result changes
    nothing, for every text. *)
Theorem de_shout_idempotent (t : text) : de_shout (de_shout t) = de_shout t.
Proof.
  unfold de_shout.
  rewrite split_join.
  - rewrite List.map_map. f_equal. apply List.map_ext.
    apply de_shout_token_idempotent.
  - apply Forall_forall. intros w Hw.
    apply list_elem_of_In, in_map_iff in Hw as (w0 & <- & Hw0).
    apply de_shout_token_word.
    pose proof (split_words t) as Hall. rewrite Forall_forall in Hall.
    apply Hall. now apply list_elem_of_In.
Qed.


(** ** The coverage analysis and the run *)

Lemma has_rule_analysis_of (nomenclature_df : list rule) (row : batch_row) :
  has_rule nomenclature_df (analysis_of row) = with_rule nomenclature_df row.
Proof.
  unfold has_rule, with_rule, without_rule, pattern_of, rule_of_row. cbn.
  now destruct (find_pattern_row _ _ _ _).
Qed.

Lemma filter_split_length {A} (f : A -> bool) (l : list A) :
  (length (List.filter f l) + length (List.filter (fun x => negb (f x)) l))%nat
  = length l.
Proof.
  induction l as [|x l IH]; [reflexivity|].
  cbn. destruct (f x); cbn; lia.
Qed.

Lemma covered_rows_of_file (nomenclature_df : list rule) (batch_df : list batch_row) :
  length (List.filter (has_rule nomenclature_df) (analysis_of <$> batch_df))
  = length (List.filter (with_rule nomenclature_df) batch_df).
Proof.
  induction batch_df as [|row rows IH]; [reflexivity|].
  cbn [fmap list_fmap List.filter]. change (list_fmap _ _ analysis_of rows) with (analysis_of <$> rows).
  rewrite has_rule_analysis_of.
  destruct (with_rule nomenclature_df row); cbn [length]; now rewrite IH.
Qed.

(** X20: the coverage analysis predicts the run.  For a file uploaded to
    both, with a batch size of one or more, the rows the run reports for
    want of a rule are as many as the [uncovered] figure of the analysis,
    and the run never gives more result rows than its [covered] figure,
    whatever the engine and the agent answer. *)
Theorem coverage_predicts_run
    (nomenclature_df : list rule) (transformations : memory) (api_key : text)
    (enable_ai_validation : bool) (want_sistema want_etiqueta want_seo : bool)
    (batch_df : list batch_row) (batch_size : nat)
    (generate : nat -> list product -> text -> reply) (ask : nat -> agent) :
  (1 <= batch_size)%nat ->
  let after :=
    process_file nomenclature_df transformations api_key enable_ai_validation
      want_sistema want_etiqueta want_seo batch_df batch_size generate ask in
  let c := analyze_coverage (analysis_of <$> batch_df) nomenclature_df in
  Z.of_nat (length (no_rule_entries after.2)) = uncovered c
  /\ (length after.1.1 <= covered c)%nat.
Proof.
  intros Hsize after c. subst after c. unfold process_file.
  destruct (process_chunks_shape nomenclature_df transformations api_key
              enable_ai_validation want_sistema want_etiqueta want_seo
              (slices batch_size batch_df) generate ask 0 [] zero_stats [])
    as (rows & st' & failed' & -> & Hno & Hlen & _).
  rewrite slices_concat in Hno, Hlen by exact Hsize.
  cbn [fst snd app]. rewrite Hno. cbn [no_rule_entries List.filter app].
  rewrite length_fmap.
  unfold analyze_coverage.
  pose proof (coverage_fold nomenclature_df (analysis_of <$> batch_df) 0 ∅) as H.
  cbv zeta in H. destruct (fold_left _ _ _) as [n_covered categories].
  cbn [fst snd] in H. destruct H as (H1 & _). cbn [covered uncovered].
  rewrite covered_rows_of_file in H1. rewrite length_fmap.
  pose proof (filter_split_length (with_rule nomenclature_df) batch_df) as Hsplit.
  assert (Hwo : List.filter (fun x => negb (with_rule nomenclature_df x)) batch_df
                = List.filter (without_rule nomenclature_df) batch_df).
  { apply List.filter_ext. intros row. unfold with_rule. apply negb_involutive. }
  rewrite Hwo in Hsplit. cbn in H1. split; lia.
Qed.

Lemma coverage_predicts_run_witness :
  Z.of_nat
    (length
       (no_rule_entries
          (process_file sample_rules sample_memory (txt "key") true true true true
             [garden_row; elbow_row; valve_row] 2
             (fun _ _ _ => Failed (txt "down")) (fun _ => failing_agent)).2))
  = uncovered
      (analyze_coverage (analysis_of <$> [garden_row; elbow_row; valve_row])
         sample_rules).
Proof.
  refine (proj1 (coverage_predicts_run sample_rules sample_memory (txt "key")
                   true true true true [garden_row; elbow_row; valve_row] 2
                   (fun _ _ _ => Failed (txt "down")) (fun _ => failing_agent) _)).
  lia.
Defined.

(** X21: the coverage percentage lies between 0 and 100, whatever the file
    and the sheet, and is 0 for an empty file, which is not divided by. *)
Theorem coverage_percent_bounds
    (products_df : list analysis_row) (nomenclature_df : list rule) :
  let c := analyze_coverage products_df nomenclature_df in
  (0 <= coverage_percent c)%Q
  /\ (coverage_percent c <= inject_Z 100)%Q
  /\ coverage_percent (analyze_coverage [] nomenclature_df) = 0%Q.
Proof.
  intros c. subst c. split; [|split; [|reflexivity]].
  all: unfold analyze_coverage.
  all: pose proof (coverage_fold nomenclature_df products_df 0 ∅) as H; cbv zeta in H.
  all: destruct (fold_left _ _ _) as [n_covered categories].
  all: cbn [fst snd] in H; destruct H as (H1 & _).
  all: cbn [total covered coverage_percent]; cbn in H1.
  all: pose proof (filter_split_length (has_rule nomenclature_df) products_df) as Hsplit.
  all: destruct (length products_df) as [|t'] eqn:Ht;
    [unfold Qle; cbn; lia|].
  all: change (0 <? S t')%nat with true; cbv iota.
  all: assert (HC : (0 <= Z.of_nat n_covered <= Z.of_nat (S t'))%Z) by lia.
  all: destruct (Z.of_nat (S t')) as [|pT|pT] eqn:HT; try lia.
  all: unfold Qle, Qdiv, Qmult, Qinv, inject_Z; cbn [Qnum Qden]; lia.
Qed.


(** ** The length of a normalised title *)

Section Consumed.
Variable ic : bool.
Context {A : Type}.

Lemma star_consumes (k : Re.cset) (s : text) (prev : option char)
    (kont : Re.cont) (a : A) :
  Re.star ic k prev s kont = Some a ->
  exists p consumed rest, s = consumed ++ rest /\ kont p rest = Some a.
Proof.
  revert prev. induction s as [|c s IH]; intros prev; cbn [Re.star].
  - intros H. exists prev, [], []. auto.
  - destruct (Re.in_cset ic k c).
    + destruct (Re.star ic k (Some c) s kont) as [a'|] eqn:Hs.
      * intros [= <-]. destruct (IH _ Hs) as (p & consumed & rest & -> & Hk).
        exists p, (c :: consumed), rest. auto.
      * intros H. exists prev, [], (c :: s). auto.
    + intros H. exists prev, [], (c :: s). auto.
Qed.

(** A match goes on through the continuation, on what is left of the
    subject after at least [min_len r] characters. *)
Lemma run_consumes (r : Re.regex) (s : text) (prev : option char)
    (kont : Re.cont) (a : A) :
  Re.run ic r prev s kont = Some a ->
  exists p consumed rest,
    s = consumed ++ rest /\ kont p rest = Some a
    /\ (min_len r <= length consumed)%nat.
Proof.
  revert s prev kont a.
  induction r as [|c|k|k|r1 IH1|r1 IH1 r2 IH2|r1 IH1 r2 IH2| |];
    intros s prev kont a; cbn [Re.run min_len].
  - intros H. exists prev, [], s. repeat split; [exact H | cbn; lia].
  - destruct s as [|x s]; [discriminate|].
    destruct (Re.eq_char ic c x); [|discriminate].
    intros H. exists (Some x), [x], s. repeat split; [exact H | cbn; lia].
  - destruct s as [|x s]; [discriminate|].
    destruct (Re.in_cset ic k x); [|discriminate].
    intros H. exists (Some x), [x], s. repeat split; [exact H | cbn; lia].
  - intros H. destruct (star_consumes _ _ _ _ _ H) as (p & consumed & rest & Hs & Hk).
    exists p, consumed, rest. repeat split; [exact Hs | exact Hk | lia].
  - destruct (Re.run ic r1 prev s kont) as [a'|] eqn:H1.
    + intros [= <-]. destruct (IH1 _ _ _ _ H1) as (p & consumed & rest & Hs & Hk & _).
      exists p, consumed, rest. repeat split; [exact Hs | exact Hk | lia].
    + intros H. exists prev, [], s. repeat split; [exact H | cbn; lia].
  - intros H. destruct (IH1 _ _ _ _ H) as (p1 & c1 & rest1 & -> & H2 & Hl1).
    destruct (IH2 _ _ _ _ H2) as (p2 & c2 & rest2 & -> & Hk & Hl2).
    exists p2, (c1 ++ c2), rest2. rewrite <- app_assoc, length_app.
    repeat split; [exact Hk | lia].
  - destruct (Re.run ic r1 prev s kont) as [a'|] eqn:H1.
    + intros [= <-]. destruct (IH1 _ _ _ _ H1) as (p & consumed & rest & Hs & Hk & Hl).
      exists p, consumed, rest. repeat split; [exact Hs | exact Hk | lia].
    + intros H. destruct (IH2 _ _ _ _ H) as (p & consumed & rest & Hs & Hk & Hl).
      exists p, consumed, rest. repeat split; [exact Hs | exact Hk | lia].
  - destruct (xorb _ _); [|discriminate].
    intros H. exists prev, [], s. repeat split; [exact H | cbn; lia].
  - intros H. exists prev, [], s.
    split; [reflexivity|]. split; [|cbn; lia].
    destruct s as [|x [|y s]]; [exact H| |].
    + destruct x as [|px]; [discriminate|].
      repeat (destruct px as [px|px|]; try discriminate). exact H.
    + destruct x as [|px]; [discriminate|].
      repeat (destruct px as [px|px|]; try discriminate).
Qed.

End Consumed.













(** A replacement without backslash compiles to itself. *)
Lemma tokens_plain (s : text) :
  plain s = true -> Template.tokens s = (Template.TChar <$> s, false).
Proof.
  induction s as [|c s IH]; [reflexivity|].
  cbn [plain forallb]. intros H. apply andb_true_iff in H as [Hc Hs].
  apply negb_true_iff in Hc. cbn [Template.tokens]. rewrite Hc.
  fold (plain s) in Hs. now rewrite (IH Hs).
Qed.

Lemma go_plain (s : text) :
  Template.go Template.Normal (Template.TChar <$> s) false
  = Ok (Template.PChar <$> s).
Proof.
  induction s as [|c s IH]; [reflexivity|].
  cbn [fmap list_fmap Template.go].
  change (list_fmap _ _ Template.TChar s) with (Template.TChar <$> s).
  assert (Hstep : forall last,
             last = false ->
             Template.step Template.Normal (Template.TChar c) last
             = Ok ([Template.PChar c], Template.Normal)) by (intros ? ->; reflexivity).
  rewrite Hstep by (now destruct (Template.TChar <$> s)).
  rewrite res_bind_Ok, IH. reflexivity.
Qed.

Lemma parse_template_plain (s : text) :
  plain s = true -> Template.parse_template s = Ok (Template.PChar <$> s).
Proof.
  intros H. unfold Template.parse_template. rewrite (tokens_plain s H).
  replace (match Template.TChar <$> s with [] => false | _ => false end)
    with false by (now destruct (Template.TChar <$> s)).
  cbn [Template.consume]. rewrite res_bind_Ok. apply go_plain.
Qed.


Lemma plain_compiles (transformations : memory) :
  Forall (fun entry : text * text => plain entry.2 = true) transformations ->
  compiles transformations.
Proof.
  intros H. eapply Forall_impl; [exact H|].
  intros entry Hp. right. eexists. now apply parse_template_plain.
Qed.














(** ** What [remove_generic_para_phrases] can cut *)

(** A match of a pattern that ends with [$] leaves nothing of the subject,
    or its final line feed. *)
Lemma run_anchored (ic : bool) {A} (r : Re.regex) (s : text)
    (prev : option char) (kont : Re.cont) (a : A) :
  anchored r = true ->
  Re.run ic r prev s kont = Some a ->
  exists p consumed rest,
    s = consumed ++ rest /\ kont p rest = Some a
    /\ (min_len r <= length consumed)%nat
    /\ (rest = [] \/ rest = [10]).
Proof.
  revert s prev kont a.
  induction r as [|c|k|k|r1 IH1|r1 IH1 r2 IH2|r1 IH1 r2 IH2| |];
    intros s prev kont a Hr; try discriminate.
  - cbn [Re.run min_len]. intros H.
    destruct (run_consumes ic r1 s prev _ _ H) as (p1 & c1 & rest1 & -> & H2 & Hl1).
    destruct (IH2 _ _ _ _ Hr H2) as (p2 & c2 & rest2 & -> & Hk & Hl2 & Hrest).
    exists p2, (c1 ++ c2), rest2. rewrite <- app_assoc, length_app.
    repeat split; [exact Hk | lia | exact Hrest].
  - intros H.
    destruct (run_consumes ic Re.End_ s prev _ _ H) as (p & consumed & rest & Hs & Hk & Hl).
    exists prev, [], s. cbn [Re.run] in H.
    destruct s as [|x [|y s]].
    + repeat split; [exact H | cbn; lia | now left].
    + destruct (N.eq_dec x 10) as [->|Hx].
      * repeat split; [exact H | cbn; lia | now right].
      * exfalso. destruct x as [|px]; [discriminate|].
        repeat (destruct px as [px|px|]; try discriminate). now apply Hx.
    + exfalso. destruct x as [|px]; [discriminate|].
      repeat (destruct px as [px|px|]; try discriminate).
Qed.

Lemma match_at_anchored (ic : bool) (r : Re.regex) (prev : option char)
    (s rest : text) :
  anchored r = true ->
  Re.match_at ic r prev s = Some rest ->
  exists consumed,
    s = consumed ++ rest /\ (min_len r <= length consumed)%nat
    /\ (rest = [] \/ rest = [10]).
Proof.
  unfold Re.match_at. intros Hr H.
  destruct (run_anchored ic r s prev _ _ Hr H)
    as (p & consumed & rest' & -> & [= ->] & Hl & Hrest).
  eauto.
Qed.

Section Tail.
Variable ic : bool.
Variable r : Re.regex.
Hypothesis Hanchored : anchored r = true.
Hypothesis Hmin : (1 <= min_len r)%nat.

Lemma sub_from_skip (l rest : text) (prev : option char) :
  exists prev',
    Re.sub_from ic r [] prev (l ++ rest) (length l) = Re.sub_from ic r [] prev' rest 0.
Proof.
  revert prev. induction l as [|c l IH]; intros prev.
  - exists prev. reflexivity.
  - cbn [app length Re.sub_from]. apply IH.
Qed.

Lemma sub_from_nil (prev : option char) : Re.sub_from ic r [] prev [] 0 = [].
Proof.
  cbn [Re.sub_from]. destruct (Re.match_at ic r prev []) as [rest|] eqn:Hm;
    reflexivity.
Qed.

Lemma sub_from_tail (rest : text) (prev : option char) :
  rest = [] \/ rest = [10] ->
  Re.sub_from ic r [] prev rest 0 = rest \/ Re.sub_from ic r [] prev rest 0 = [].
Proof.
  intros [-> | ->]; [left; apply sub_from_nil|].
  cbn [Re.sub_from]. destruct (Re.match_at ic r prev [10]) as [rest|] eqn:Hm.
  - apply (match_at_anchored ic r prev _ _ Hanchored) in Hm
      as (consumed & Hs & Hl & _).
    destruct consumed as [|x consumed]; [cbn in Hl; lia|].
    destruct consumed; [|destruct consumed; discriminate].
    injection Hs as <- <-. cbn. right. apply sub_from_nil.
  - left. f_equal. apply sub_from_nil.
Qed.

(** Such a substitution by nothing leaves the subject as it is, or cuts it
    once, keeping at most the final line feed after the cut. *)
Lemma sub_anchored_cuts (s : text) (prev : option char) :
  Re.sub_from ic r [] prev s 0 = s
  \/ exists pre mid tail,
       s = pre ++ mid ++ tail /\ mid <> [] /\ (tail = [] \/ tail = [10])
       /\ (Re.sub_from ic r [] prev s 0 = pre ++ tail
           \/ Re.sub_from ic r [] prev s 0 = pre).
Proof.
  revert prev. induction s as [|c s IH]; intros prev.
  - left. apply sub_from_nil.
  - cbn [Re.sub_from].
    destruct (Re.match_at ic r prev (c :: s)) as [rest|] eqn:Hm.
    + right.
      apply (match_at_anchored ic r prev _ _ Hanchored) in Hm
        as (consumed & Hs & Hl & Hrest).
      destruct consumed as [|x consumed]; [cbn in Hl; lia|].
      injection Hs as <- ->.
      replace (length (c :: consumed ++ rest) - length rest)%nat
        with (S (length consumed)) by (cbn [length]; rewrite length_app; lia).
      cbn [app].
      destruct (sub_from_skip consumed rest (Some c)) as [prev' ->].
      exists [], (c :: consumed), rest.
      split; [reflexivity|]. split; [discriminate|]. split; [exact Hrest|].
      cbn [app]. now apply sub_from_tail.
    + destruct (IH (Some c)) as [-> | (pre & mid & tail & Hs & Hmid & Htail & Hout)].
      * now left.
      * right. exists (c :: pre), mid, tail.
        split; [cbn; now rewrite <- Hs|]. split; [exact Hmid|].
        split; [exact Htail|].
        destruct Hout as [-> | ->]; [now left | now right].
Qed.

End Tail.

(** A final white space gives no word. *)
Lemma split_snoc_space (s : text) (c : char) :
  Py.is_space c = true -> Py.split (s ++ [c]) = Py.split s.
Proof.
  intros Hc. induction s as [|x s IH].
  - cbn. now rewrite Hc.
  - cbn [app Py.split]. destruct (Py.is_space x); [exact IH|].
    destruct s as [|d s'].
    + cbn [app]. rewrite Hc. cbn [Py.split]. now rewrite Hc.
    + cbn [app] in *. destruct (Py.is_space d); now rewrite IH.
Qed.

Lemma cut_of_step (t out out' : text) :
  cut_of t out ->
  (out' = out
   \/ exists pre mid tail,
        out = pre ++ mid ++ tail /\ mid <> [] /\ (tail = [] \/ tail = [10])
        /\ (out' = pre ++ tail \/ out' = pre)) ->
  cut_of t out'.
Proof.
  intros [n Hout] [-> | (pre & mid & tail & Hs & Hmid & Htail & Hout')];
    [now exists n|].
  assert (Hpre : exists m, pre = take m t).
  { assert (Hlt : (length pre < length out)%nat).
    { rewrite Hs, !length_app. destruct mid; [congruence|]. cbn [length]. lia. }
    assert (Hp : pre = take (length pre) out).
    { rewrite Hs. now rewrite take_app_length. }
    destruct Hout as [Ho | Ho].
    - exists (Nat.min (length pre) n). rewrite Hp at 1. rewrite Ho.
      now rewrite take_take.
    - exists (Nat.min (length pre) n). rewrite Hp at 1. rewrite Ho.
      rewrite Ho, length_app in Hlt. cbn [length] in Hlt.
      rewrite take_app_le by lia. now rewrite take_take. }
  destruct Hpre as [m ->]. exists m.
  destruct Hout' as [-> | ->]; [|now left].
  destruct Htail as [-> | ->]; [left; apply app_nil_r | now right].
Qed.

(** X23: [remove_generic_para_phrases] can only cut the end of a text: its
    result is a prefix of the text with its white space collapsed.  The
    beginning of a title is never touched, whatever it holds. *)
Theorem remove_generic_para_phrases_cuts_tail (t : text) :
  exists n, remove_generic_para_phrases t = Py.collapse (take n t).
Proof.
  unfold remove_generic_para_phrases.
  destruct t as [|c0 t0] eqn:Ht; [exists 0%nat; reflexivity|]. rewrite <- Ht. clear Ht.
  assert (Hcut : forall patterns out,
             Forall (fun r => anchored r = true /\ (1 <= min_len r)%nat) patterns ->
             cut_of t out ->
             cut_of t (fold_left (fun out pattern => Re.sub true pattern [] out)
                         patterns out)).
  { intros patterns out H. revert out.
    induction H as [|r rs [Har Hmin] _ IH]; intros out Hout; [exact Hout|].
    cbn [fold_left]. apply IH. apply (cut_of_step t out); [exact Hout|].
    unfold Re.sub. apply sub_anchored_cuts; assumption. }
  destruct (Hcut GENERIC_PARA_PATTERNS t) as [n [-> | ->]].
  - unfold GENERIC_PARA_PATTERNS.
    repeat (constructor; [split; [reflexivity | cbn; lia]|]). constructor.
  - exists (length t). left. now rewrite firstn_all.
  - now exists n.
  - exists n. unfold Py.collapse. now rewrite split_snoc_space.
Qed.


(** ** What [remove_forbidden_terms] leaves *)

Lemma lastp_cons (prev : option char) (c : char) (a : text) :
  lastp prev (c :: a) = lastp (Some c) a.
Proof. unfold lastp. rewrite last_cons. now destruct (last a). Qed.

Lemma lastp_app (prev : option char) (a b : text) :
  lastp prev (a ++ b) = lastp (lastp prev a) b.
Proof.
  revert prev. induction a as [|c a IH]; intros prev; [reflexivity|].
  cbn [app]. now rewrite !lastp_cons.
Qed.

Lemma is_word_lower_char (x : char) : Py.is_word (Py.lower_char x) = Py.is_word x.
Proof.
  unfold Py.lower_char. destruct (Py.is_upper_char x) eqn:Hx; [|reflexivity].
  unfold Py.is_word. rewrite Hx.
  replace (Py.is_lower_char (x + 32)) with true.
  - now rewrite !orb_true_r.
  - unfold Py.is_upper_char, Py.is_lower_char, Py.in_range in *.
    split_tests; try reflexivity; cbn in Hx; discriminate.
Qed.

Lemma eq_char_word (c x : char) :
  Re.eq_char true c x = true -> Py.is_word x = Py.is_word c.
Proof.
  unfold Re.eq_char. intros H. apply N.eqb_eq in H.
  rewrite <- (is_word_lower_char x), <- (is_word_lower_char c). now rewrite H.
Qed.

Lemma space_not_word (c : char) : Py.is_space c = true -> Py.is_word c = false.
Proof.
  unfold Py.is_space, Py.is_word, Py.is_digit, Py.is_upper_char, Py.is_lower_char,
    Py.in_range.
  intros H. split_tests; try reflexivity; cbn in H; discriminate.
Qed.

(** What matches a term is made of word characters, as the term is. *)
Lemma ci_letters (m term : text) :
  ci m term -> letters term ->
  m <> [] /\ Forall (fun x => Py.is_word x = true) m.
Proof.
  intros Hci [Hne Hall]. split.
  - destruct Hci; [congruence | discriminate].
  - clear Hne. induction Hci as [|x c m term Hxc _ IH]; [constructor|].
    inversion Hall as [|? ? Hc Hrest]; subst.
    constructor; [|now apply IH].
    now rewrite (eq_char_word c x Hxc).
Qed.

Lemma run_lits_sound {A} (term s : text) (prev : option char)
    (kont : @Re.cont A) (a : A) :
  Re.run true (Re.lits term) prev s kont = Some a ->
  exists m rest, s = m ++ rest /\ ci m term /\ kont (lastp prev m) rest = Some a.
Proof.
  revert s prev. induction term as [|c term IH]; intros s prev; cbn [Re.lits Re.run].
  - intros H. exists [], s. repeat split; [constructor | exact H].
  - destruct s as [|x s]; [discriminate|].
    destruct (Re.eq_char true c x) eqn:Hx; [|discriminate].
    intros H. destruct (IH _ _ H) as (m & rest & -> & Hci & Hk).
    exists (x :: m), rest. rewrite lastp_cons.
    repeat split; [constructor; assumption | exact Hk].
Qed.

Lemma run_lits_complete {A} (term m rest : text) (prev : option char)
    (kont : @Re.cont A) :
  ci m term ->
  Re.run true (Re.lits term) prev (m ++ rest) kont = kont (lastp prev m) rest.
Proof.
  intros H. revert prev. induction H as [|x c m term Hxc _ IH]; intros prev.
  - reflexivity.
  - cbn [app Re.lits Re.run]. rewrite Hxc, lastp_cons. apply IH.
Qed.

Lemma word_before_lastp (prev : option char) (m : text) :
  m <> [] -> Forall (fun x => Py.is_word x = true) m ->
  Re.word_before (lastp prev m) = true.
Proof.
  intros Hne Hall. unfold lastp.
  destruct (last m) as [x|] eqn:Hx.
  - cbn. rewrite Forall_forall in Hall. apply Hall. now apply last_Some_elem_of.
  - apply last_None in Hx. congruence.
Qed.

Lemma word_after_app (m rest : text) :
  m <> [] -> Forall (fun x => Py.is_word x = true) m ->
  Re.word_after (m ++ rest) = true.
Proof.
  intros Hne Hall. destruct m as [|x m]; [congruence|].
  cbn. now inversion Hall.
Qed.

(** What the pattern of a term matches: the term, up to case, between a
    character that is not of a word and another. *)
Lemma term_match_sound (term : text) (prev : option char) (s rest : text) :
  letters term ->
  Re.match_at true (term_pattern term) prev s = Some rest ->
  Re.word_before prev = false
  /\ exists m, s = m ++ rest /\ ci m term /\ Re.word_after rest = false.
Proof.
  intros Hterm. unfold Re.match_at, term_pattern. cbn [Re.cats Re.run].
  destruct (xorb (Re.word_before prev) (Re.word_after s)) eqn:Hx; [|discriminate].
  intros H. apply run_lits_sound in H as (m & rest' & -> & Hci & H).
  destruct (ci_letters m term Hci Hterm) as [Hne Hall].
  rewrite (word_before_lastp prev m Hne Hall) in H.
  rewrite (word_after_app m rest' Hne Hall) in Hx.
  destruct (Re.word_after rest') eqn:Hr; [discriminate|].
  cbn in H. injection H as <-.
  split; [now destruct (Re.word_before prev)|]. eauto.
Qed.

Lemma term_match_complete (term : text) (prev : option char) (m rest : text) :
  letters term -> ci m term ->
  Re.word_before prev = false -> Re.word_after rest = false ->
  Re.match_at true (term_pattern term) prev (m ++ rest) = Some rest.
Proof.
  intros Hterm Hci Hp Hr. unfold Re.match_at, term_pattern. cbn [Re.cats Re.run].
  destruct (ci_letters m term Hci Hterm) as [Hne Hall].
  rewrite Hp, (word_after_app m rest Hne Hall). cbn [xorb].
  rewrite (run_lits_complete term m rest prev _ Hci).
  now rewrite (word_before_lastp prev m Hne Hall), Hr.
Qed.

Lemma ci_length (m term : text) : ci m term -> length m = length term.
Proof. apply Forall2_length. Qed.

Lemma occ_cons (term : text) (prev : option char) (c : char) (s : text) :
  occ term (Some c) s -> occ term prev (c :: s).
Proof.
  intros (a & m & c' & -> & Hci & Hb & Ha).
  exists (c :: a), m, c'. rewrite lastp_cons. auto.
Qed.

Lemma occ_app (term : text) (prev : option char) (l s : text) :
  occ term (lastp prev l) s -> occ term prev (l ++ s).
Proof.
  intros (a & m & c' & -> & Hci & Hb & Ha).
  exists (l ++ a), m, c'. rewrite lastp_app, <- app_assoc. auto.
Qed.

(** An occurrence is at the head of the text or further on. *)
Lemma occ_inv (term : text) (prev : option char) (c : char) (s : text) :
  occ term prev (c :: s) ->
  (Re.word_before prev = false
   /\ exists m rest, c :: s = m ++ rest /\ ci m term /\ Re.word_after rest = false)
  \/ occ term (Some c) s.
Proof.
  intros (a & m & c' & Hs & Hci & Hb & Ha).
  destruct a as [|x a].
  - left. split; [exact Hb|]. exists m, c'. cbn [app] in Hs. auto.
  - right. injection Hs as <- ->. rewrite lastp_cons in Hb.
    exists a, m, c'. auto.
Qed.

Lemma occ_nil (term : text) (prev : option char) :
  letters term -> ~ occ term prev [].
Proof.
  intros Hterm (a & m & c & Hs & Hci & _).
  destruct (ci_letters m term Hci Hterm) as [Hne _].
  destruct a; [|discriminate]. destruct m; [congruence | discriminate].
Qed.

Section Removal.
Variable removed : text.
Hypothesis Hremoved : letters removed.

Abbreviation scan := (Re.sub_from true (term_pattern removed) []).

Lemma scan_nil (prev : option char) : scan prev [] 0%nat = [].
Proof. cbn [Re.sub_from]. now destruct (Re.match_at _ _ _ _). Qed.

Lemma scan_skip (l rest : text) (prev : option char) :
  scan prev (l ++ rest) (length l) = scan (lastp prev l) rest 0%nat.
Proof.
  revert prev. induction l as [|c l IH]; intros prev; [reflexivity|].
  cbn [app length Re.sub_from]. now rewrite IH, lastp_cons.
Qed.

(** After a word character nothing is removed before the word ends. *)
Lemma scan_after_word (p : char) (c : char) (s : text) :
  Py.is_word p = true ->
  scan (Some p) (c :: s) 0%nat = c :: scan (Some c) s 0%nat.
Proof.
  intros Hp. cbn [Re.sub_from].
  destruct (Re.match_at true (term_pattern removed) (Some p) (c :: s)) as [rest|] eqn:Hm;
    [|reflexivity].
  apply (term_match_sound removed _ _ _ Hremoved) in Hm as [Hb _].
  cbn in Hb. congruence.
Qed.

(** Word characters at the head of what the scan leaves, after a word
    character, stood at the head of the subject, and end there as they do
    in what is left. *)
Lemma scan_word_prefix (m : text) (s c_out : text) (p : char) :
  Py.is_word p = true ->
  Forall (fun x => Py.is_word x = true) m ->
  scan (Some p) s 0%nat = m ++ c_out ->
  Re.word_after c_out = false ->
  exists c_in, s = m ++ c_in /\ Re.word_after c_in = false.
Proof.
  revert s p. induction m as [|x m IH]; intros s p Hp Hm Hout Hafter.
  - exists s. split; [reflexivity|].
    destruct s as [|d s]; [reflexivity|].
    rewrite (scan_after_word p d s Hp) in Hout. cbn [app] in Hout.
    subst c_out. exact Hafter.
  - destruct s as [|d s]; [rewrite scan_nil in Hout; discriminate|].
    rewrite (scan_after_word p d s Hp) in Hout. cbn [app] in Hout.
    injection Hout as -> Hout. inversion Hm as [|? ? Hx Hm']; subst.
    destruct (IH s x Hx Hm' Hout Hafter) as (c_in & -> & Hc).
    exists c_in. auto.
Qed.

(** A term that stands as a word in what the scan leaves stood as a word
    in the subject, and is not the term removed. *)
Lemma scan_keeps_occ (term : text) (n : nat) :
  letters term ->
  forall (s : text) (prev prev_out : option char),
    (length s <= n)%nat ->
    (Re.word_before prev_out = Re.word_before prev \/ Re.word_after s = false) ->
    occ term prev_out (scan prev s 0%nat) ->
    occ term prev s /\ removed <> term.
Proof.
  intros Hterm. induction n as [|n IH]; intros s prev prev_out Hlen Hctx Hocc.
  { destruct s; [|cbn in Hlen; lia]. rewrite scan_nil in Hocc.
    now apply occ_nil in Hocc. }
  destruct s as [|c s]; [rewrite scan_nil in Hocc; now apply occ_nil in Hocc|].
  cbn [Re.sub_from] in Hocc.
  destruct (Re.match_at true (term_pattern removed) prev (c :: s)) as [rest|] eqn:Hm.
  - pose proof Hm as Hm'.
    apply (term_match_sound removed _ _ _ Hremoved) in Hm' as (Hb & m & Hs & Hci & Ha).
    destruct (ci_letters m removed Hci Hremoved) as [Hne Hall].
    destruct m as [|x m]; [congruence|]. injection Hs as <- ->.
    replace (length (c :: m ++ rest) - length rest)%nat with (S (length m)) in Hocc
      by (cbn [length]; rewrite length_app; lia).
    cbn [app] in Hocc. rewrite scan_skip in Hocc.
    destruct (IH rest (lastp (Some c) m) prev_out) as [Hin Hneq].
    + cbn [length] in Hlen. rewrite length_app in Hlen. lia.
    + now right.
    + exact Hocc.
    + split; [|exact Hneq].
      change (c :: m ++ rest) with ((c :: m) ++ rest). apply occ_app.
      now rewrite lastp_cons.
  - destruct (occ_inv term prev_out c _ Hocc)
      as [(Hb & m & c_out & Hs & Hci & Ha) | Hlater].
    + destruct (ci_letters m term Hci Hterm) as [Hne Hall].
      destruct m as [|x m]; [congruence|]. injection Hs as <- Hs.
      inversion Hall as [|? ? Hc Hall']; subst.
      destruct (scan_word_prefix m s c_out c Hc Hall' Hs Ha) as (c_in & -> & Hc_in).
      assert (Hprev : Re.word_before prev = false).
      { destruct Hctx as [<- | Hw]; [exact Hb|]. cbn in Hw. congruence. }
      split.
      * exists [], (c :: m), c_in. auto.
      * intros ->.
        pose proof (term_match_complete term prev (c :: m) c_in Hterm Hci Hprev Hc_in)
          as Hfound.
        cbn [app] in Hfound. congruence.
    + destruct (IH s (Some c) (Some c)) as [Hin Hneq].
      * cbn [length] in Hlen. lia.
      * now left.
      * exact Hlater.
      * split; [now apply occ_cons | exact Hneq].
Qed.

End Removal.

(** A term that stands as a word after all the removals stood as a word
    before them, and is none of the terms removed. *)
Lemma fold_keeps_occ (term : text) (terms : list text) (s : text) :
  letters term -> Forall letters terms ->
  occ term None
    (fold_left (fun out t => Re.sub true (term_pattern t) [] out) terms s) ->
  occ term None s /\ term ∉ terms.
Proof.
  intros Hterm Hterms. revert s.
  induction Hterms as [|t terms Ht _ IH]; intros s Hocc.
  - split; [exact Hocc | apply not_elem_of_nil].
  - cbn [fold_left] in Hocc. apply IH in Hocc as [Hocc Hnot].
    unfold Re.sub in Hocc.
    apply (scan_keeps_occ t Ht term (length s) Hterm s None None) in Hocc
      as [Hocc Hneq]; [|lia|now left].
    split; [exact Hocc|].
    intros Hin. apply elem_of_cons in Hin as [-> | Hin]; [congruence | tauto].
Qed.

(** What the search of a term finds is the term standing as a word. *)
Lemma search_from_occ (term : text) (prev : option char) (s : text) :
  letters term ->
  Re.search_from true (term_pattern term) prev s = true -> occ term prev s.
Proof.
  intros Hterm. revert prev. induction s as [|c s IH]; intros prev; cbn [Re.search_from].
  - destruct (Re.match_at true (term_pattern term) prev []) as [rest|] eqn:Hm;
      [|discriminate].
    intros _. apply (term_match_sound term _ _ _ Hterm) in Hm as (Hb & m & Hs & Hci & Ha).
    exists [], m, rest. auto.
  - destruct (Re.match_at true (term_pattern term) prev (c :: s)) as [rest|] eqn:Hm.
    + intros _.
      apply (term_match_sound term _ _ _ Hterm) in Hm as (Hb & m & Hs & Hci & Ha).
      exists [], m, rest. auto.
    + intros H. apply occ_cons. now apply IH.
Qed.

Lemma split_cons_nonspace (d : char) (s : text) :
  Py.is_space d = false -> exists w ws, Py.split (d :: s) = (d :: w) :: ws.
Proof.
  intros Hd. revert d Hd. induction s as [|e s IH]; intros d Hd; cbn [Py.split]; rewrite Hd.
  - eauto.
  - destruct (Py.is_space e) eqn:He.
    + eauto.
    + destruct (IH e He) as (w & ws & Hs). cbn [Py.split] in Hs. rewrite He in Hs.
      rewrite Hs. cbn. eauto.
Qed.

Lemma collapse_cons_space (c : char) (s : text) :
  Py.is_space c = true -> Py.collapse (c :: s) = Py.collapse s.
Proof. intros Hc. unfold Py.collapse. cbn [Py.split]. now rewrite Hc. Qed.

Lemma collapse_cons_word (c d : char) (s : text) :
  Py.is_space c = false -> Py.is_space d = false ->
  Py.collapse (c :: d :: s) = c :: Py.collapse (d :: s).
Proof.
  intros Hc Hd. unfold Py.collapse.
  destruct (split_cons_nonspace d s Hd) as (w & ws & Hs).
  change (Py.split (c :: d :: s))
    with (if Py.is_space c then Py.split (d :: s)
          else if Py.is_space d then [c] :: Py.split (d :: s)
               else Py.cons_head c (Py.split (d :: s))).
  rewrite Hc, Hd, Hs. cbn [Py.cons_head]. destruct ws; reflexivity.
Qed.

Lemma collapse_cons_end (c d : char) (s : text) :
  Py.is_space c = false -> Py.is_space d = true ->
  Py.collapse (c :: d :: s) = [c]
  \/ Py.collapse (c :: d :: s) = c :: 32 :: Py.collapse (d :: s).
Proof.
  intros Hc Hd. unfold Py.collapse.
  change (Py.split (c :: d :: s))
    with (if Py.is_space c then Py.split (d :: s)
          else if Py.is_space d then [c] :: Py.split (d :: s)
               else Py.cons_head c (Py.split (d :: s))).
  rewrite Hc, Hd. destruct (Py.split (d :: s)) as [|w ws]; [now left | now right].
Qed.

Lemma collapse_head (e : char) (s : text) :
  Py.is_space e = false -> exists tl, Py.collapse (e :: s) = e :: tl.
Proof.
  intros He. unfold Py.collapse.
  destruct (split_cons_nonspace e s He) as (w & ws & ->).
  destruct ws; cbn; eauto.
Qed.

(** Word characters after the head of a collapsed text stood after the
    head of the text, and end there as they do in the collapsed text. *)
Lemma collapse_word_prefix (m : text) (s c_out : text) (d : char) :
  Py.is_space d = false ->
  Py.collapse (d :: s) = d :: m ++ c_out ->
  Forall (fun x => Py.is_word x = true) m ->
  Re.word_after c_out = false ->
  exists c_in, s = m ++ c_in /\ Re.word_after c_in = false.
Proof.
  revert s d. induction m as [|x m IH]; intros s d Hd Hout Hm Hafter.
  - exists s. split; [reflexivity|]. destruct s as [|e s]; [reflexivity|].
    cbn [Re.word_after]. destruct (Py.is_space e) eqn:He; [now apply space_not_word|].
    rewrite (collapse_cons_word d e s Hd He) in Hout.
    destruct (collapse_head e s He) as [tl Htl]. rewrite Htl in Hout.
    cbn [app] in Hout. injection Hout as <-. exact Hafter.
  - inversion Hm as [|? ? Hx Hm']; subst.
    destruct s as [|e s].
    { unfold Py.collapse in Hout. cbn [Py.split] in Hout. rewrite Hd in Hout.
      discriminate. }
    destruct (Py.is_space e) eqn:He.
    + exfalso. destruct (collapse_cons_end d e s Hd He) as [H | H];
        rewrite H in Hout; [discriminate|].
      cbn [app] in Hout. injection Hout as <- _. vm_compute in Hx. discriminate.
    + rewrite (collapse_cons_word d e s Hd He) in Hout.
      cbn [app] in Hout. injection Hout as Hout.
      destruct (collapse_head e s He) as [tl Htl].
      assert (x = e) as -> by congruence.
      destruct (IH s e He Hout Hm' Hafter) as (c_in & -> & Hc).
      exists c_in. auto.
Qed.

Lemma occ_context (term : text) (p p' : option char) (s : text) :
  (Re.word_before p = false -> Re.word_before p' = false) ->
  occ term p s -> occ term p' s.
Proof.
  intros Hctx (a & m & c & -> & Hci & Hb & Ha).
  exists a, m, c. repeat split; try assumption.
  destruct a as [|x a]; [now apply Hctx|].
  rewrite lastp_cons in *. exact Hb.
Qed.

(** A term that stands as a word in a collapsed text stood as a word in
    the text. *)
Lemma collapse_keeps_occ (term : text) :
  letters term ->
  forall (s : text) (p_out p_in : option char),
    (Re.word_before p_out = false ->
     Re.word_before p_in = false \/ exists d s', s = d :: s' /\ Py.is_space d = true) ->
    occ term p_out (Py.collapse s) -> occ term p_in s.
Proof.
  intros Hterm. induction s as [|c s IH]; intros p_out p_in Hctx Hocc.
  { now apply occ_nil in Hocc. }
  destruct (Py.is_space c) eqn:Hc.
  { rewrite (collapse_cons_space c s Hc) in Hocc. apply occ_cons.
    apply (IH p_out (Some c)); [|exact Hocc].
    intros _. left. cbn. now apply space_not_word. }
  assert (Hin : Re.word_before p_out = false -> Re.word_before p_in = false).
  { intros H. destruct (Hctx H) as [Hp | (d & s' & [= <- <-] & Hd)];
      [exact Hp | congruence]. }
  destruct s as [|d s].
  { unfold Py.collapse in Hocc. cbn [Py.split] in Hocc. rewrite Hc in Hocc.
    cbn [Py.join] in Hocc.
    now apply (occ_context term p_out p_in). }
  destruct (Py.is_space d) eqn:Hd.
  - assert (Hhead : forall tl,
               occ term p_out (c :: tl) ->
               (tl = [] \/ exists tl', tl = 32 :: tl') ->
               occ term p_in (c :: d :: s) \/ occ term (Some c) tl).
    { intros tl Ho Htl.
      destruct (occ_inv term p_out c tl Ho)
        as [(Hb & m & rest & Hs & Hci & Ha) | Hlater]; [|now right].
      left. destruct (ci_letters m term Hci Hterm) as [Hne Hall].
      destruct m as [|x m]; [congruence|]. injection Hs as <- Hs.
      assert (m = []) as ->.
      { destruct m as [|y m]; [reflexivity|]. exfalso.
        apply Forall_cons in Hall as [_ Hall]. apply Forall_cons in Hall as [Hy _].
        destruct Htl as [Htl | (tl' & Htl)]; rewrite Htl in Hs; [discriminate|].
        cbn [app] in Hs. injection Hs as Hs _. rewrite <- Hs in Hy.
        vm_compute in Hy. discriminate. }
      exists [], [c], (d :: s). repeat split; [exact Hci | now apply Hin |].
      cbn. now apply space_not_word. }
    destruct (collapse_cons_end c d s Hc Hd) as [H | H]; rewrite H in Hocc.
    + destruct (Hhead [] Hocc) as [Ho | Ho]; [now left | exact Ho |].
      now apply occ_nil in Ho.
    + destruct (Hhead _ Hocc) as [Ho | Ho]; [right; eauto | exact Ho |].
      apply occ_cons.
      destruct (occ_inv term (Some c) 32 _ Ho)
        as [(Hb & m & rest & Hs & Hci & Ha) | Hlater].
      * exfalso. destruct (ci_letters m term Hci Hterm) as [Hne Hall].
        destruct m as [|x m]; [congruence|]. injection Hs as <- _.
        inversion Hall as [|? ? Hx _]; subst. vm_compute in Hx. discriminate.
      * apply (IH (Some 32) (Some c)); [|exact Hlater].
        intros _. right. eauto.
  - rewrite (collapse_cons_word c d s Hc Hd) in Hocc.
    destruct (occ_inv term p_out c _ Hocc)
      as [(Hb & m & rest & Hs & Hci & Ha) | Hlater].
    + destruct (ci_letters m term Hci Hterm) as [Hne Hall].
      destruct m as [|x m]; [congruence|]. injection Hs as <- Hs.
      inversion Hall as [|? ? _ Hall']; subst.
      assert (Hcol : Py.collapse (c :: d :: s) = c :: m ++ rest).
      { rewrite (collapse_cons_word c d s Hc Hd). now rewrite Hs. }
      destruct (collapse_word_prefix m (d :: s) rest c Hc Hcol Hall' Ha)
        as (c_in & Hds & Hc_in).
      exists [], (c :: m), c_in. cbn [app]. rewrite Hds.
      repeat split; [exact Hci | now apply Hin | exact Hc_in].
    + apply occ_cons. apply (IH (Some c) (Some c)); [|exact Hlater].
      intros H. now left.
Qed.

Lemma forbidden_terms_letters : Forall letters FORBIDDEN_TECH_TERMS.
Proof.
  unfold FORBIDDEN_TECH_TERMS.
  repeat (constructor; [split; [vm_compute; discriminate | vm_compute; repeat constructor]|]).
  constructor.
Qed.

(** The search of a second pass finds none of the terms. *)
Lemma remove_forbidden_terms_clean (t : text) :
  no_forbidden_term (remove_forbidden_terms t).
Proof.
  unfold no_forbidden_term. apply Forall_forall. intros term Hin.
  assert (Hterm : letters term).
  { pose proof forbidden_terms_letters as H. rewrite Forall_forall in H. now apply H. }
  destruct (Re.search true (term_pattern term) (remove_forbidden_terms t)) eqn:Hs;
    [exfalso|reflexivity].
  apply (search_from_occ term None _ Hterm) in Hs.
  unfold remove_forbidden_terms in Hs.
  destruct t as [|c t]; [now apply occ_nil in Hs|].
  apply (collapse_keeps_occ term Hterm _ None None) in Hs; [|now left].
  apply (fold_keeps_occ term _ _ Hterm forbidden_terms_letters) in Hs as [_ Hnot].
  now apply Hnot.
Qed.

(** X24: [remove_forbidden_terms] does what it says and is idempotent.
    In its result none of the forbidden terms stands as a word of its own,
    in any case of its letters: the search a second pass makes for each
    term finds nothing, and the second pass returns the text as it is. *)
Theorem remove_forbidden_terms_idempotent (t : text) :
  no_forbidden_term (remove_forbidden_terms t)
  /\ remove_forbidden_terms (remove_forbidden_terms t) = remove_forbidden_terms t.
Proof.
  split; [apply remove_forbidden_terms_clean|].
  apply remove_forbidden_terms_settled; [|apply remove_forbidden_terms_clean].
  unfold remove_forbidden_terms. destruct t as [|c t]; [reflexivity|].
  apply collapse_idempotent.
Qed.


(** ** When [apply_transformations] returns *)

Lemma consume_raises (last : bool) (e : exn) :
  Template.consume last = Raise e -> e = ReError.
Proof. destruct last; cbn; congruence. Qed.

Lemma normal_raises (t : Template.token) (last : bool) (e : exn) :
  Template.normal t last = Raise e -> e = ReError.
Proof.
  unfold Template.normal. destruct last; cbn; [congruence|].
  destruct t as [c|c]; [discriminate|].
  repeat (destruct (_ =? _); [discriminate|]).
  destruct (Py.is_digit c); [discriminate|].
  destruct (Template.escape c); [discriminate|].
  destruct (Template.is_ascii_letter c); [congruence | discriminate].
Qed.

Lemma step_raises (st : Template.state) (t : Template.token) (last : bool) (e : exn) :
  Template.step st t last = Raise e -> e = ReError \/ e = IndexError.
Proof.
  destruct st as [| |name|value more|c|c d]; cbn [Template.step].
  - intros H. left. now apply normal_raises in H.
  - destruct t as [c|c]; [|intros [= <-]; now left].
    destruct (c =? 60); [|intros [= <-]; now left].
    destruct last; cbn; [intros [= <-]; now left | discriminate].
  - destruct last; cbn; [intros [= <-]; now left|].
    destruct t as [c|c]; [|discriminate].
    destruct (c =? 62); [|discriminate].
    destruct name as [|n name]; [intros [= <-]; now left|].
    destruct (Template.isidentifier (n :: name)); [intros [= <-]; now right|].
    destruct (Template.group_of_name (n :: name)); [discriminate|].
    intros [= <-]. now left.
  - assert (Hlit : ('(ps, st') ← Template.normal t last;
                    Ok (Template.PChar value :: ps, st')) = Raise e ->
                   e = ReError \/ e = IndexError).
    { destruct (Template.normal t last) as [[ps st']|e'] eqn:Hn; [discriminate|].
      intros [= <-]. left. now apply normal_raises in Hn. }
    destruct more as [|more]; [now apply Hlit|].
    destruct t as [d|d]; [|now apply Hlit].
    destruct (Template.is_octdigit d); [|now apply Hlit].
    destruct last; cbn; [intros [= <-]; now left | discriminate].
  - assert (Href : (_ ← Template.group_ref c;
                    '(ps, st') ← Template.normal t last;
                    Ok (Template.PGroup 1 :: ps, st')) = Raise e ->
                   e = ReError \/ e = IndexError).
    { unfold Template.group_ref. destruct (c =? 49); [|intros [= <-]; now left].
      rewrite res_bind_Ok.
      destruct (Template.normal t last) as [[ps st']|e'] eqn:Hn; [discriminate|].
      intros [= <-]. left. now apply normal_raises in Hn. }
    destruct t as [d|d]; [|exact Href].
    destruct (Py.is_digit d); [|exact Href].
    destruct last; cbn; [intros [= <-]; now left | discriminate].
  - destruct t as [x|x]; [|intros [= <-]; now left].
    destruct (_ && _); [|intros [= <-]; now left].
    destruct last; cbn; [intros [= <-]; now left|].
    destruct (255 <? _); [intros [= <-]; now left | discriminate].
Qed.

Lemma finish_raises (st : Template.state) (e : exn) :
  Template.finish st = Raise e -> e = ReError.
Proof.
  destruct st as [| |name|value more|c|c d]; cbn; try congruence.
  unfold Template.group_ref. destruct (c =? 49); cbn; congruence.
Qed.

Lemma go_raises (ts : list Template.token) (st : Template.state)
    (dangling : bool) (e : exn) :
  Template.go st ts dangling = Raise e -> e = ReError \/ e = IndexError.
Proof.
  revert st. induction ts as [|t rest IH]; intros st; cbn [Template.go].
  - intros H. left. now apply finish_raises in H.
  - destruct (Template.step st t _) as [[ps st']|e'] eqn:Hstep.
    + rewrite res_bind_Ok.
      destruct (Template.go st' rest dangling) as [pieces|e'] eqn:Hgo;
        [discriminate|].
      intros [= <-]. now apply (IH st').
    + intros [= <-]. now apply step_raises in Hstep.
Qed.

(** A template that does not compile raises [re.error], or [IndexError]
    for the name of a group the pattern has not. *)
Lemma parse_template_raises (source : text) (e : exn) :
  Template.parse_template source = Raise e -> e = ReError \/ e = IndexError.
Proof.
  unfold Template.parse_template.
  destruct (Template.tokens source) as [ts dangling].
  destruct (Template.consume _) as [[]|e'] eqn:Hc.
  - rewrite res_bind_Ok. apply go_raises.
  - intros [= <-]. left. now apply consume_raises in Hc.
Qed.

Lemma apply_all_raises (transformations : memory) (t : text) (e : exn) :
  apply_all t transformations = Raise e -> e = ReError \/ e = IndexError.
Proof.
  revert t. induction transformations as [|entry rest IH]; intros t; [discriminate|].
  cbn [apply_all]. destruct (apply_one t entry) as [out|e'] eqn:Hone.
  - rewrite res_bind_Ok. apply IH.
  - intros [= <-]. unfold apply_one in Hone.
    destruct (Py.strip entry.1); [discriminate|].
    destruct (Template.parse_template entry.2) as [tpl|e2] eqn:Hp; [discriminate|].
    injection Hone as <-. now apply parse_template_raises in Hp.
Qed.

(** X25: [apply_transformations] reads the whole memory, whether its keys
    occur in the text or not: for a text that is not empty it returns
    exactly when every replacement with a key that is not blank compiles as
    a template, and otherwise raises [re.error] or [IndexError]; only the
    empty text is returned without a look at the memory. *)
Theorem apply_transformations_returns_iff (t : text) (transformations : memory) :
  ((exists v, apply_transformations t transformations = Ok v)
   <-> (t = [] \/ compiles transformations))
  /\ (forall e, apply_transformations t transformations = Raise e ->
                e = ReError \/ e = IndexError)
  /\ apply_transformations [] transformations = Ok [].
Proof.
  split; [split|split].
  - intros (v & H). now apply (apply_transformations_compiles _ _ _ H).
  - intros [-> | Hc]; [exists []; reflexivity|].
    unfold apply_transformations. destruct t as [|c t]; [eauto|].
    destruct (apply_all_total transformations (c :: t) Hc) as (v & ->).
    rewrite res_bind_Ok. eauto.
  - intros e. unfold apply_transformations. destruct t as [|c t]; [discriminate|].
    destruct (apply_all (c :: t) transformations) as [v|e'] eqn:Hall; [discriminate|].
    intros [= <-]. now apply apply_all_raises in Hall.
  - reflexivity.
Qed.
